(** * Edit sessions: store and resume of uncommitted working changes

    A shallow embedding of [EditSessionsContribution] from
    [src/vs/workbench/contrib/editSessions/browser/editSessions.contribution.ts]:
    [resumeEditSession], [generateChanges], [willChangeLocalContents],
    [storeEditSession] and [getChangedResources].

    The services the class receives through its constructor are interfaces
    here (type classes over an abstract service state, or fields of the
    [Workbench] record for the read-only ones).  Every call the code makes on
    a service that can be observed from outside is recorded as an [Event]. *)

From Stdlib Require Import ZArith Ascii.
From stdpp Require Import base option strings pretty list gmap sets.

Local Open Scope Z_scope.

(** ** Values *)

(** [VSBuffer]: the bytes of a file. *)
Definition VSBuffer := list Byte.byte.

(** A [URI] is a heap object.  [uri_obj] is the identity of the object (what
    [===] and a [Set<URI>] compare), [uri_toString] is the result of
    [toString()] and [uri_path] the [path] component.  Two objects with
    different identities may well print the same. *)
Record URI := mkURI {
  uri_obj : nat;
  uri_path : string;
  uri_toString : string
}.

(** [ChangeType.Addition], [ChangeType.Deletion]; a session comes from the
    remote store as JSON, so any other tag may arrive at run time. *)
Inductive ChangeType :=
| Addition
| Deletion
| UnknownChangeType (tag : Z).

Inductive FileType := File.

(** [Change]: [contents] is [string | undefined]. *)
Record Change := mkChange {
  type : ChangeType;
  fileType : FileType;
  relativeFilePath : string;
  contents : option string
}.

Record Folder := mkFolder {
  name : string;
  canonicalIdentity : option string;
  workingChanges : list Change
}.

Record EditSession := mkEditSession {
  version : Z;
  folders : list Folder
}.

(** The elements of the [changes] and [conflictingChanges] arrays of
    [generateChanges]: [{ uri, type, contents }]. *)
Record ResolvedChange := mkResolved {
  uri : URI;
  rtype : ChangeType;
  rcontents : option string
}.

Record IWorkspaceFolder := mkWorkspaceFolder {
  wf_name : string;
  wf_uri : URI
}.

Inductive WorkbenchState := EMPTY | FOLDER | WORKSPACE.

(** [EditSessionIdentityMatch]; [NoMatch] stands for [None] and for an
    undefined answer of the provider. *)
Inductive EditSessionIdentityMatch := Complete | Partial | NoMatch.

(** Source control: [repository.provider.rootUri],
    [repository.provider.groups.elements], [resourceGroup.elements],
    [resource.sourceUri]. *)
Record ISCMResource := mkResource { sourceUri : URI }.
Record ISCMResourceGroup := mkGroup { elements : list ISCMResource }.
Record ISCMProvider := mkProvider {
  rootUri : option URI;
  groups : list ISCMResourceGroup
}.
Record ISCMRepository := mkRepository { provider : ISCMProvider }.

(** ** Exceptions *)

Inductive UserDataSyncErrorCode := TooLarge | OtherSyncErrorCode.

Inductive Error :=
| UnhandledChangeType                                (* new Error('Unhandled change type.') *)
| UserDataSyncStoreError (code : UserDataSyncErrorCode)
| ServiceError (msg : string).                       (* anything a service throws *)

Inductive result (A : Type) :=
| Ok (a : A)
| Throw (e : Error).
Arguments Ok {A} a.
Arguments Throw {A} e.

(** ** What the outside sees *)

Inductive Notification :=
| no_edit_session
| no_edit_session_content_for_ref (ref : string)
| client_too_old
| resume_failed
| no_edits_to_store
| payload_too_large
| payload_failed.

Inductive LogMessage :=
| Resuming (ref : option string)
| AbortingNoContent (ref : option string)
| MatchingIdentity (identity : option string) (canonical : string)
| SkippingFolder (nchanges : nat) (ref : string)
| DeletingAfterApply (ref : string)
| Deleted (ref : string)
| FailedToResume (e : Error)
| SkippingWorkingChange (u : string)
| SkippingStore
| Storing
| Stored (ref : string)
| FailedToStore (e : Error).

Inductive Event :=
| LogInfo (m : LogMessage)
| LogError (m : LogMessage)
| NotifyInfo (n : Notification)
| NotifyWarn (n : Notification)
| NotifyError (n : Notification)
| PromptPartialMatch (ref : string)   (* notificationService.prompt, action: resumeEditSession(ref, false, true) *)
| DialogShow (files : list URI)       (* dialogService.show: overwrite these files? [Cancel, Yes] *)
| SaveAll                             (* editorService.saveAll() *)
| WriteFile (u : URI) (b : VSBuffer)  (* fileService.writeFile *)
| Del (u : URI)                       (* fileService.del *)
| StorageDelete (ref : string)        (* editSessionsStorageService.delete *)
| StorageWrite (s : EditSession).     (* editSessionsStorageService.write *)

(** The calls that change files or the remote store. *)
Definition is_mutation (e : Event) : bool :=
  match e with
  | WriteFile _ _ | Del _ | StorageDelete _ | StorageWrite _ => true
  | _ => false
  end.

Definition no_mutation (evs : list Event) : Prop :=
  Forall (fun e => is_mutation e = false) evs.

(** The events of reconciliation: log lines and the partial-match prompt. *)
Definition is_report (e : Event) : bool :=
  match e with
  | LogInfo _ | PromptPartialMatch _ => true
  | _ => false
  end.

Definition is_storage_delete (e : Event) : bool :=
  match e with
  | StorageDelete _ => true
  | _ => false
  end.

(** The reports of a failure: an error notification or an error log line. *)
Definition is_error_report (e : Event) : bool :=
  match e with
  | NotifyError _ | LogError _ => true
  | _ => false
  end.

(** The calls on the file service that change files. *)
Definition is_file_change (e : Event) : bool :=
  match e with
  | WriteFile _ _ | Del _ => true
  | _ => false
  end.

(** ** Interfaces of the collaborators *)

(** Library functions imported by the file. [sha1Hex] and
    [decodeEditSessionFileContent] are applied to the [contents] field as it
    is found at run time. *)
Class Platform := {
  EditSessionSchemaVersion : Z;
  sha1Hex : option string -> string;
  encodeBase64 : VSBuffer -> string;
  decodeEditSessionFileContent : Z -> option string -> result VSBuffer;
  joinPath : URI -> string -> URI;
  relativePath : URI -> URI -> option string
}.

(** [IFileService]. [fs_stat] answers [isFile]. A call that throws may still
    have changed the state. *)
Class FileService (FS : Type) := {
  fs_exists : FS -> URI -> bool;
  fs_readFile : FS -> URI -> result VSBuffer;
  fs_stat : FS -> URI -> result bool;
  fs_writeFile : FS -> URI -> VSBuffer -> FS * result unit;
  fs_del : FS -> URI -> FS * result unit;
  (* editorService.saveAll(), seen from the file system *)
  fs_saveAll : FS -> FS
}.

(** [IEditSessionsStorageService]. *)
Class EditSessionsStorageService (RS : Type) := {
  storage_initialize : RS -> bool -> bool -> bool;
  storage_read : RS -> option string -> option (EditSession * string);
  storage_write : RS -> EditSession -> RS * result string;
  storage_delete : RS -> string -> RS * result unit
}.

(** The services that are only queried: workspace context, source control,
    configuration, edit session identity, and the user's answer to the
    overwrite dialog ([result.choice]). *)
Record Workbench := mkWorkbench {
  workbenchState : WorkbenchState;
  workspaceFolders : list IWorkspaceFolder;
  getWorkspaceFolder : URI -> option IWorkspaceFolder;
  repositories : list ISCMRepository;
  partialMatchesEnabled : bool;
  getEditSessionIdentifier : IWorkspaceFolder -> option string;
  provideEditSessionIdentityMatch :
    IWorkspaceFolder -> string -> string -> EditSessionIdentityMatch;
  dialogChoice : list ResolvedChange -> nat
}.

Section Contribution.

Context {FS RS : Type}.
Context `{PF : Platform} `{FSrv : FileService FS} `{SSrv : EditSessionsStorageService RS}.
Variable wb : Workbench.

(** ** [willChangeLocalContents] *)

Definition willChangeLocalContents (fs : FS) (localChanges : gset string)
    (uriWithIncomingChanges : URI) (incomingChange : Change) : result bool :=
  if bool_decide (uri_toString uriWithIncomingChanges ∈ localChanges) then
    match type incomingChange with
    | Addition =>
        let originalContents := sha1Hex (contents incomingChange) in
        match fs_readFile fs uriWithIncomingChanges with
        | Ok value =>
            let incomingContents := sha1Hex (Some (encodeBase64 value)) in
            Ok (negb (String.eqb originalContents incomingContents))
        | Throw e => Throw e
        end
    | Deletion => Ok (fs_exists fs uriWithIncomingChanges)
    | UnknownChangeType _ => Throw UnhandledChangeType
    end
  else Ok false.

(** ** [getChangedResources]

    A JavaScript [Set<URI>] keeps its elements in insertion order and holds
    an object once: [add] compares object identities. *)

Definition SetURI := list URI.

Definition SetURI_has (s : SetURI) (u : URI) : bool :=
  existsb (fun v => Nat.eqb (uri_obj v) (uri_obj u)) s.

Definition SetURI_add (s : SetURI) (u : URI) : SetURI :=
  if SetURI_has s u then s else s ++ [u].

Definition getChangedResources (repository : ISCMRepository) : SetURI :=
  fold_left
    (fun resources resourceGroups =>
       fold_left (fun rs resource => SetURI_add rs (sourceUri resource))
                 (elements resourceGroups) resources)
    (groups (provider repository)) [].

(** ** Computations that only query and notify: events and a result *)

Definition W (A : Type) : Type := list Event * result A.

(** ** [generateChanges] *)

(** The loop over [workspaceFolders] of the identity branch. *)
Fixpoint findByIdentity (ref canonical : string) (force : bool)
    (fs : list IWorkspaceFolder) : list Event * option IWorkspaceFolder :=
  match fs with
  | [] => ([], None)
  | f :: rest =>
      let identity := getEditSessionIdentifier wb f in
      let log := LogInfo (MatchingIdentity identity canonical) in
      let continue (evs : list Event) :=
        let '(evs', r) := findByIdentity ref canonical force rest in
        (log :: evs ++ evs', r) in
      if bool_decide (identity = Some canonical) then ([log], Some f)
      else
        match identity with
        | Some id =>
            match provideEditSessionIdentityMatch wb f id canonical with
            | Complete => ([log], Some f)
            | Partial =>
                if partialMatchesEnabled wb then
                  if negb force then continue [PromptPartialMatch ref]
                  else ([log], Some f)
                else continue []
            | NoMatch => continue []
            end
        | None => continue []
        end
  end.

(** [if (folder.canonicalIdentity)]: of a [string | undefined], [undefined]
    and the empty string are falsy. *)
Definition truthy (s : option string) : bool :=
  match s with
  | Some (String _ _) => true
  | _ => false
  end.

Definition findFolderRoot (ref : string) (force : bool) (folder : Folder)
    : list Event * option IWorkspaceFolder :=
  match canonicalIdentity folder with
  | Some canonical =>
      if truthy (Some canonical)
      then findByIdentity ref canonical force (workspaceFolders wb)
      else ([], List.find (fun f => bool_decide (wf_name f = name folder))
                          (workspaceFolders wb))
  | None => ([], List.find (fun f => bool_decide (wf_name f = name folder))
                           (workspaceFolders wb))
  end.

(** How the identity branch can settle on a local folder. *)
Definition accepted_by_identity (force : bool) (canonical : string)
    (f : IWorkspaceFolder) : Prop :=
  getEditSessionIdentifier wb f = Some canonical \/
  exists id, getEditSessionIdentifier wb f = Some id /\
    (provideEditSessionIdentityMatch wb f id canonical = Complete \/
     (provideEditSessionIdentityMatch wb f id canonical = Partial /\
      partialMatchesEnabled wb = true /\ force = true)).

(** The two ways that need neither the setting nor [force]: an equal
    identity, or one classified [Complete]. *)
Definition settles_identity (canonical : string) (f : IWorkspaceFolder) : Prop :=
  getEditSessionIdentifier wb f = Some canonical \/
  exists id, getEditSessionIdentifier wb f = Some id /\
    provideEditSessionIdentityMatch wb f id canonical = Complete.

(** The [localChanges] set of strings built for one folder. *)
Definition localChangesOf (folder : Folder) : gset string :=
  fold_left
    (fun localChanges repository =>
       match rootUri (provider repository) with
       | Some root =>
           match getWorkspaceFolder wb root with
           | Some wf =>
               if bool_decide (wf_name wf = name folder) then
                 fold_left (fun acc change => {[ uri_toString change ]} ∪ acc)
                           (getChangedResources repository) localChanges
               else localChanges
           | None => localChanges
           end
       | None => localChanges
       end)
    (repositories wb) ∅.

(** The conflict checks of a folder raise no error: every call of
    [willChangeLocalContents] made for its working changes returns. *)
Definition conflictChecksReturn (fs : FS) (ref : string) (force : bool)
    (folder : Folder) : Prop :=
  forall root, (findFolderRoot ref force folder).2 = Some root ->
    Forall (fun change =>
              exists b, willChangeLocalContents fs (localChangesOf folder)
                          (joinPath (wf_uri root) (relativeFilePath change)) change
                        = Ok b)
           (workingChanges folder).

(** The loop over [folder.workingChanges]; [changes] and
    [conflictingChanges] are the arrays being pushed to. *)
Fixpoint resolveWorkingChanges (fs : FS) (localChanges : gset string)
    (folderRoot : IWorkspaceFolder) (wcs : list Change)
    (changes conflictingChanges : list ResolvedChange)
    : result (list ResolvedChange * list ResolvedChange) :=
  match wcs with
  | [] => Ok (changes, conflictingChanges)
  | change :: rest =>
      let uri := joinPath (wf_uri folderRoot) (relativeFilePath change) in
      let rc := mkResolved uri (type change) (contents change) in
      match willChangeLocalContents fs localChanges uri change with
      | Ok true =>
          resolveWorkingChanges fs localChanges folderRoot rest
            (changes ++ [rc]) (conflictingChanges ++ [rc])
      | Ok false =>
          resolveWorkingChanges fs localChanges folderRoot rest
            (changes ++ [rc]) conflictingChanges
      | Throw e => Throw e
      end
  end.

(** The loop over [editSession.folders]. *)
Fixpoint generateChangesFrom (fs : FS) (ref : string) (force : bool)
    (fds : list Folder) (changes conflictingChanges : list ResolvedChange)
    : W (list ResolvedChange * list ResolvedChange) :=
  match fds with
  | [] => ([], Ok (changes, conflictingChanges))
  | folder :: rest =>
      let '(evs, folderRoot) := findFolderRoot ref force folder in
      match folderRoot with
      | None =>
          (evs ++ [LogInfo (SkippingFolder (length (workingChanges folder)) ref)],
           Ok ([], []))
      | Some root =>
          match resolveWorkingChanges fs (localChangesOf folder) root
                  (workingChanges folder) changes conflictingChanges with
          | Ok (changes', conflictingChanges') =>
              let '(evs', r) :=
                generateChangesFrom fs ref force rest changes' conflictingChanges' in
              (evs ++ evs', r)
          | Throw e => (evs, Throw e)
          end
      end
  end.

Definition generateChanges (fs : FS) (editSession : EditSession)
    (ref : string) (force : bool)
    : W (list ResolvedChange * list ResolvedChange) :=
  generateChangesFrom fs ref force (folders editSession) [] [].

(** ** Computations that change files and the remote store *)

Record World := mkWorld {
  fileService : FS;
  storage : RS
}.

Definition M (A : Type) : Type := World -> World * list Event * result A.

#[local] Instance M_ret : MRet M := fun A a w => (w, [], Ok a).

#[local] Instance M_bind : MBind M := fun A B k m w =>
  match m w with
  | (w1, e1, Ok a) => let '(w2, e2, r) := k a w1 in (w2, e1 ++ e2, r)
  | (w1, e1, Throw e) => (w1, e1, Throw e)
  end.

Definition emit (e : Event) : M unit := fun w => (w, [e], Ok tt).

Definition liftW {A} (c : FS -> W A) : M A := fun w =>
  let '(evs, r) := c (fileService w) in (w, evs, r).

Definition liftResult {A} (r : result A) : M A := fun w => (w, [], r).

Definition tryCatch {A} (body : M A) (handler : Error -> M A) : M A := fun w =>
  match body w with
  | (w1, e1, Throw ex) => let '(w2, e2, r) := handler ex w1 in (w2, e1 ++ e2, r)
  | done => done
  end.

Definition writeFile (u : URI) (b : VSBuffer) : M unit := fun w =>
  let '(fs', r) := fs_writeFile (fileService w) u b in
  (mkWorld fs' (storage w), [WriteFile u b], r).

Definition del (u : URI) : M unit := fun w =>
  let '(fs', r) := fs_del (fileService w) u in
  (mkWorld fs' (storage w), [Del u], r).

Definition fileExists (u : URI) : M bool := fun w =>
  (w, [], Ok (fs_exists (fileService w) u)).

Definition saveAll : M unit := fun w =>
  (mkWorld (fs_saveAll (fileService w)) (storage w), [SaveAll], Ok tt).

Definition storageInitialize (fromContinueOn silent : bool) : M bool := fun w =>
  (w, [], Ok (storage_initialize (storage w) fromContinueOn silent)).

Definition storageRead (ref : option string) : M (option (EditSession * string)) :=
  fun w => (w, [], Ok (storage_read (storage w) ref)).

Definition storageDelete (ref : string) : M unit := fun w =>
  let '(rs', r) := storage_delete (storage w) ref in
  (mkWorld (fileService w) rs', [StorageDelete ref], r).

Definition storageWrite (data : EditSession) : M string := fun w =>
  let '(rs', r) := storage_write (storage w) data in
  (mkWorld (fileService w) rs', [StorageWrite data], r).

(** ** [resumeEditSession] *)

(** One turn of the loop [for (const { uri, type, contents } of changes)]. *)
Definition applyChange (version : Z) (c : ResolvedChange) : M unit :=
  match rtype c with
  | Addition =>
      value ← liftResult (decodeEditSessionFileContent version (rcontents c));
      writeFile (uri c) value
  | Deletion =>
      present ← fileExists (uri c);
      if present : bool then del (uri c) else mret tt
  | UnknownChangeType _ => mret tt
  end.

Fixpoint applyChanges (version : Z) (changes : list ResolvedChange) : M unit :=
  match changes with
  | [] => mret tt
  | c :: rest => applyChange version c ;; applyChanges version rest
  end.

(** The end of the [try] block: the loop over [changes], then the deletion
    of the remote session. *)
Definition applyAndDelete (editSession : EditSession) (ref : string)
    (changes : list ResolvedChange) : M unit :=
  applyChanges (version editSession) changes ;;
  emit (LogInfo (DeletingAfterApply ref)) ;;
  storageDelete ref ;;
  emit (LogInfo (Deleted ref)).

(** The body of the [try] block. *)
Definition tryResume (editSession : EditSession) (ref : string) (force : bool)
    : M unit :=
  '(changes, conflictingChanges) ←
      liftW (fun fs => generateChanges fs editSession ref force);
  if Nat.eqb (length changes) 0 then mret tt
  else
    proceed ←
      (if Nat.ltb 0 (length conflictingChanges) then
         emit (DialogShow (map uri conflictingChanges)) ;;
         mret (negb (Nat.eqb (dialogChoice wb conflictingChanges) 0))
       else mret true);
    if proceed : bool then applyAndDelete editSession ref changes
    else mret tt.

Definition resumeEditSession (ref : option string) (silent force : bool)
    : M unit :=
  match workbenchState wb with
  | EMPTY => mret tt
  | _ =>
      emit (LogInfo (Resuming ref)) ;;
      initialized ← (if silent then storageInitialize false true else mret true);
      if silent && negb initialized then mret tt
      else
        data ← storageRead ref;
        match data with
        | None =>
            (match ref with
             | None => if negb silent then emit (NotifyInfo no_edit_session)
                       else mret tt
             | Some r => emit (NotifyWarn (no_edit_session_content_for_ref r))
             end) ;;
            emit (LogInfo (AbortingNoContent ref))
        | Some (editSession, ref) =>
            if version editSession >? EditSessionSchemaVersion then
              emit (NotifyError client_too_old)
            else
              tryCatch (tryResume editSession ref force)
                (fun ex =>
                   emit (LogError (FailedToResume ex)) ;;
                   emit (NotifyError resume_failed))
        end
  end.

(** ** [storeEditSession] *)

(** The loop [for (const uri of trackedUris)]; [name], [hasEdits] and
    [workingChanges] are the variables it updates. *)
Fixpoint collectWorkingChanges (fs : FS) (trackedUris : list URI)
    (name : option string) (hasEdits : bool) (workingChanges : list Change)
    : W (option string * bool * list Change) :=
  match trackedUris with
  | [] => ([], Ok (name, hasEdits, workingChanges))
  | uri :: rest =>
      match getWorkspaceFolder wb uri with
      | None =>
          let '(evs, r) :=
            collectWorkingChanges fs rest name hasEdits workingChanges in
          (LogInfo (SkippingWorkingChange (uri_toString uri)) :: evs, r)
      | Some workspaceFolder =>
          let name := Some (default (wf_name workspaceFolder) name) in
          let relativeFilePath :=
            default (uri_path uri) (relativePath (wf_uri workspaceFolder) uri) in
          match fs_stat fs uri with
          | Ok false => collectWorkingChanges fs rest name hasEdits workingChanges
          | _ =>
              if fs_exists fs uri then
                match fs_readFile fs uri with
                | Ok value =>
                    collectWorkingChanges fs rest name true
                      (workingChanges ++
                         [mkChange Addition File relativeFilePath
                                   (Some (encodeBase64 value))])
                | Throw e => ([], Throw e)
                end
              else
                collectWorkingChanges fs rest name true
                  (workingChanges ++ [mkChange Deletion File relativeFilePath None])
          end
      end
  end.

(** The loop [for (const repository of this.scmService.repositories)]. *)
Fixpoint collectFolders (fs : FS) (repos : list ISCMRepository)
    (folders : list Folder) (hasEdits : bool) : W (list Folder * bool) :=
  match repos with
  | [] => ([], Ok (folders, hasEdits))
  | repository :: rest =>
      let trackedUris := getChangedResources repository in
      let workspaceFolder :=
        match rootUri (provider repository) with
        | Some root => getWorkspaceFolder wb root
        | None => None
        end in
      let name := wf_name <$> workspaceFolder in
      match collectWorkingChanges fs trackedUris name hasEdits [] with
      | (evs, Ok (name, hasEdits, workingChanges)) =>
          let canonicalIdentity :=
            match workspaceFolder with
            | Some wf => getEditSessionIdentifier wb wf
            | None => None
            end in
          let '(evs', r) :=
            collectFolders fs rest
              (folders ++ [mkFolder (default "" name) canonicalIdentity workingChanges])
              hasEdits in
          (evs ++ evs', r)
      | (evs, Throw e) => (evs, Throw e)
      end
  end.

Definition storeEditSession (fromStoreCommand : bool) : M (option string) :=
  saveAll ;;
  '(folders, hasEdits) ← liftW (fun fs => collectFolders fs (repositories wb) [] false);
  if negb hasEdits then
    emit (LogInfo SkippingStore) ;;
    (if fromStoreCommand then emit (NotifyInfo no_edits_to_store) else mret tt) ;;
    mret None
  else
    let data := mkEditSession 2 folders in
    tryCatch
      (emit (LogInfo Storing) ;;
       ref ← storageWrite data;
       emit (LogInfo (Stored ref)) ;;
       mret (Some ref))
      (fun ex =>
         emit (LogError (FailedToStore ex)) ;;
         (match ex with
          | UserDataSyncStoreError TooLarge => emit (NotifyError payload_too_large)
          | UserDataSyncStoreError _ => emit (NotifyError payload_failed)
          | _ => mret tt
          end) ;;
         mret None).

End Contribution.

Arguments World : clear implicits.
Arguments M : clear implicits.

(** Projections of a finished run. *)
Definition final {FS RS A} (run : World FS RS * list Event * result A) : World FS RS :=
  run.1.1.
Definition events {FS RS A} (run : World FS RS * list Event * result A) : list Event :=
  run.1.2.
Definition outcome {FS RS A} (run : World FS RS * list Event * result A) : result A :=
  run.2.

(** What the data model asks of a [Change]: [contents] is present exactly
    on an [Addition], and a [Deletion] carries none. *)
Definition change_invariant (c : Change) : Prop :=
  (is_Some (contents c) <-> type c = Addition) /\
  (type c = Deletion -> contents c = None).

(** How [storeEditSession] makes a [Change] from the files of [fs]: an
    addition carries the encoded bytes read from a file, a deletion carries
    nothing. *)
Definition stored_change `{Platform} {FS} `{FileService FS} (fs : FS) (c : Change) : Prop :=
  (type c = Addition /\
   exists u value, fs_readFile fs u = Ok value /\ contents c = Some (encodeBase64 value)) \/
  (type c = Deletion /\ contents c = None).

(** ** An in-memory implementation of the interfaces

    Used to run the embedding on concrete workspaces.  The theorems below
    are proved for every implementation of the interfaces. *)
Module Sample.

(** Files by the string form of their URI; writes and deletes under a path
    of [locked] are refused. *)
Record MemFS := mkMemFS {
  files : gmap string VSBuffer;
  locked : gset string
}.

Definition not_found : Error := ServiceError "FileNotFound".
Definition no_permissions : Error := ServiceError "NoPermissions".

#[export] Instance mem_file_service : FileService MemFS := {|
  fs_exists fs u := bool_decide (is_Some (files fs !! uri_toString u));
  fs_readFile fs u :=
    match files fs !! uri_toString u with
    | Some b => Ok b
    | None => Throw not_found
    end;
  fs_stat fs u :=
    match files fs !! uri_toString u with
    | Some _ => Ok true
    | None => Throw not_found
    end;
  fs_writeFile fs u b :=
    if bool_decide (uri_toString u ∈ locked fs) then (fs, Throw no_permissions)
    else (mkMemFS (<[uri_toString u := b]> (files fs)) (locked fs), Ok tt);
  fs_del fs u :=
    if bool_decide (uri_toString u ∈ locked fs) then (fs, Throw no_permissions)
    else
      match files fs !! uri_toString u with
      | Some _ => (mkMemFS (delete (uri_toString u) (files fs)) (locked fs), Ok tt)
      | None => (fs, Throw not_found)
      end;
  fs_saveAll fs := fs
|}.

(** Sessions by reference, and the reference of the latest one. *)
Record MemStore := mkMemStore {
  sessions : gmap string EditSession;
  latest : option string;
  signedIn : bool
}.

#[export] Instance mem_storage : EditSessionsStorageService MemStore := {|
  storage_initialize rs _ _ := signedIn rs;
  storage_read rs ref :=
    match (match ref with Some r => Some r | None => latest rs end) with
    | Some r => (fun s => (s, r)) <$> sessions rs !! r
    | None => None
    end;
  storage_write rs data :=
    let r := String.append "ref" (pretty (size (sessions rs))) in
    (mkMemStore (<[r := data]> (sessions rs)) (Some r) (signedIn rs), Ok r);
  storage_delete rs r :=
    (mkMemStore (delete r (sessions rs)) (latest rs) (signedIn rs), Ok tt)
|}.

(** Base64 with the standard alphabet and padding. *)
Definition alphabet : string :=
  "ABCDEFGHIJKLMNOPQRSTUVWXYZabcdefghijklmnopqrstuvwxyz0123456789+/".

Definition sextet_char (n : N) (shift : N) : Ascii.ascii :=
  default "="%char (String.get (N.to_nat (N.land (N.shiftr n shift) 63)) alphabet).

Fixpoint base64_encode (b : VSBuffer) : string :=
  match b with
  | [] => ""
  | [x] =>
      let n := N.shiftl (Byte.to_N x) 16 in
      String (sextet_char n 18) (String (sextet_char n 12) "==")
  | [x; y] =>
      let n := (N.shiftl (Byte.to_N x) 16 + N.shiftl (Byte.to_N y) 8)%N in
      String (sextet_char n 18)
        (String (sextet_char n 12) (String (sextet_char n 6) "="))
  | x :: y :: z :: rest =>
      let n := (N.shiftl (Byte.to_N x) 16 + N.shiftl (Byte.to_N y) 8 + Byte.to_N z)%N in
      String (sextet_char n 18)
        (String (sextet_char n 12)
           (String (sextet_char n 6) (String (sextet_char n 0) (base64_encode rest))))
  end.

Fixpoint index_of (c : Ascii.ascii) (s : string) (i : N) : option N :=
  match s with
  | EmptyString => None
  | String d rest => if Ascii.eqb c d then Some i else index_of c rest (N.succ i)
  end.

Definition octet (n : N) (shift : N) : Byte.byte :=
  default Byte.x00 (Byte.of_N (N.land (N.shiftr n shift) 255)).

Fixpoint decode_sextets (s : list N) : VSBuffer :=
  match s with
  | a :: b :: c :: d :: rest =>
      let n := (N.shiftl a 18 + N.shiftl b 12 + N.shiftl c 6 + d)%N in
      octet n 16 :: octet n 8 :: octet n 0 :: decode_sextets rest
  | [a; b; c] =>
      let n := (N.shiftl a 18 + N.shiftl b 12 + N.shiftl c 6)%N in
      [octet n 16; octet n 8]
  | [a; b] =>
      let n := (N.shiftl a 18 + N.shiftl b 12)%N in
      [octet n 16]
  | _ => []
  end.

Definition base64_decode (s : string) : VSBuffer :=
  decode_sextets (omap (fun c => index_of c alphabet 0%N) (String.list_ascii_of_string s)).

(** The imported helpers.  The digest is a stand-in that tells any two
    contents apart; version 1 contents are plain text, version 2
    contents are base64. *)
#[export] Instance platform : Platform := {|
  EditSessionSchemaVersion := 2;
  sha1Hex s := default "undefined" s;
  encodeBase64 := base64_encode;
  decodeEditSessionFileContent v c :=
    match c with
    | Some s =>
        if bool_decide (v = 1) then Ok (String.list_byte_of_string s)
        else if bool_decide (v = 2) then Ok (base64_decode s)
        else Throw (ServiceError "Upgrade to a newer version to decode this content.")
    | None => Throw (ServiceError "TypeError")
    end;
  joinPath base rel :=
    mkURI 0 (String.append (uri_path base) (String.append "/" rel))
            (String.append (uri_toString base) (String.append "/" rel));
  relativePath from to :=
    let p := String.append (uri_path from) "/" in
    if String.prefix p (uri_path to)
    then Some (String.substring (String.length p)
                 (String.length (uri_path to) - String.length p) (uri_path to))
    else None
|}.

Definition file_uri (obj : nat) (path : string) : URI :=
  mkURI obj path (String.append "file://" path).

Definition bytes (s : string) : VSBuffer := String.list_byte_of_string s.

(** One workspace folder [/w], named [w]. *)
Definition folder_w : IWorkspaceFolder := mkWorkspaceFolder "w" (file_uri 1 "/w").

Definition in_folder_w (u : URI) : option IWorkspaceFolder :=
  if String.prefix "/w" (uri_path u) then Some folder_w else None.

(** A workbench on [folder_w] with the given repositories; the local
    folder has identity [id-w], nothing else matches it, and the user
    answers the overwrite dialog with [choice]. *)
Definition workbench (repos : list ISCMRepository) (choice : nat) : Workbench := {|
  workbenchState := FOLDER;
  workspaceFolders := [folder_w];
  getWorkspaceFolder := in_folder_w;
  repositories := repos;
  partialMatchesEnabled := false;
  getEditSessionIdentifier _ := Some "id-w";
  provideEditSessionIdentityMatch _ _ _ := NoMatch;
  dialogChoice _ := choice
|}.

Definition repository (gs : list (list URI)) : ISCMRepository :=
  mkRepository (mkProvider (Some (file_uri 1 "/w"))
                           (map (fun g => mkGroup (map mkResource g)) gs)).

Definition world (fs : list (string * string)) (lk : list string)
    (ss : list (string * EditSession)) : World MemFS MemStore :=
  mkWorld
    (mkMemFS (list_to_map (map (fun '(p, c) => (String.append "file://" p, bytes c)) fs))
             (list_to_set (map (String.append "file://") lk)))
    (mkMemStore (list_to_map ss) (fst <$> head ss) true).

Definition addition (p c : string) : Change :=
  mkChange Addition File p (Some (base64_encode (bytes c))).
Definition deletion (p : string) : Change := mkChange Deletion File p None.

(** Scenarios.  [/w/b.txt] exists and source control lists it as changed;
    the remote store holds one session under the reference [r1]. *)
Definition a_txt : URI := joinPath (wf_uri folder_w) "a.txt".
Definition b_txt : URI := joinPath (wf_uri folder_w) "b.txt".

Definition tracking_b (choice : nat) : Workbench :=
  workbench [repository [[file_uri 5 "/w/b.txt"]]] choice.

Definition stored (s : EditSession) (lk : list string) : World MemFS MemStore :=
  world [("/w/b.txt", "old")] lk [("r1", s)].

(** An addition of [a.txt] and a deletion of [b.txt]. *)
Definition session_ab : EditSession :=
  mkEditSession 2 [mkFolder "w" None [addition "a.txt" "hello"; deletion "b.txt"]].

(** The same changes under a newer schema version. *)
Definition session_v3 : EditSession :=
  mkEditSession 3 (folders session_ab).

(** A second folder that is not open locally. *)
Definition folder_elsewhere : Folder := mkFolder "elsewhere" None [deletion "c.txt"].


(** The first folder adds [gone.txt], which source control lists as
    changed and which is no longer on disk. *)
Definition tracking_gone : Workbench :=
  workbench [repository [[file_uri 5 "/w/gone.txt"]]] 0.

Definition session_gone : EditSession :=
  mkEditSession 2 [mkFolder "w" None [addition "gone.txt" "x"]; folder_elsewhere].

(** A workbench whose only folder has identity [id-w] and is classified
    [Partial] against any other identity. *)
Definition partial_workbench (enabled : bool) : Workbench := {|
  workbenchState := FOLDER;
  workspaceFolders := [folder_w];
  getWorkspaceFolder := in_folder_w;
  repositories := [];
  partialMatchesEnabled := enabled;
  getEditSessionIdentifier _ := Some "id-w";
  provideEditSessionIdentityMatch _ _ _ := Partial;
  dialogChoice _ := 0%nat
|}.

(** Two source control groups that list [/w/a.txt], each through a URI
    object of its own. *)
Definition a_staged : URI := file_uri 5 "/w/a.txt".
Definition a_modified : URI := file_uri 6 "/w/a.txt".

Definition tracking_a_twice : Workbench :=
  workbench [repository [[a_staged]; [a_modified]]] 0.

Definition world_a : World MemFS MemStore :=
  world [("/w/a.txt", "hello")] [] [].

(** One group that lists [/w/a.txt] and [/w/gone.txt]; the second is not
    on disk. *)
Definition tracking_a_gone : Workbench :=
  workbench [repository [[a_staged; file_uri 7 "/w/gone.txt"]]] 0.

Definition session_a_gone : EditSession :=
  mkEditSession 2
    [mkFolder "w" (Some "id-w") [addition "a.txt" "hello"; deletion "gone.txt"]].

(** The changes of [session_ab] resolved in [folder_w]. *)
Definition resolved_a : ResolvedChange :=
  mkResolved a_txt Addition (Some (base64_encode (bytes "hello"))).
Definition resolved_b : ResolvedChange := mkResolved b_txt Deletion None.

Definition tracked_b : gset string := {[ uri_toString b_txt ]}.

(** [/w/gone.txt], which [tracking_gone] lists as changed and which is not
    on disk. *)
Definition gone_txt : URI := joinPath (wf_uri folder_w) "gone.txt".
Definition tracked_gone : gset string := {[ uri_toString gone_txt ]}.

(** A store that is full: every write is refused as too large. *)
Inductive FullStore := full_store.

#[export] Instance full_storage : EditSessionsStorageService FullStore := {|
  storage_initialize _ _ _ := true;
  storage_read _ _ := None;
  storage_write rs _ := (rs, Throw (UserDataSyncStoreError TooLarge));
  storage_delete rs _ := (rs, Ok tt)
|}.

(** A second workspace folder [/v], named [v], opened before [/w]; each
    folder has the identity made of its name, and nothing else matches. *)
Definition folder_v : IWorkspaceFolder := mkWorkspaceFolder "v" (file_uri 2 "/v").

Definition two_folders : Workbench := {|
  workbenchState := WORKSPACE;
  workspaceFolders := [folder_v; folder_w];
  getWorkspaceFolder := in_folder_w;
  repositories := [];
  partialMatchesEnabled := false;
  getEditSessionIdentifier f := Some (String.append "id-" (wf_name f));
  provideEditSessionIdentityMatch _ _ _ := NoMatch;
  dialogChoice _ := 0%nat
|}.

End Sample.

(** * The rest of the contribution *)

Section Continuation.

Context {FS : Type} `{PF : Platform} `{FSrv : FileService FS}.
Variable wb : Workbench.

(** [hasEditSession]: the loop returns at the first repository whose set
    of changed resources is not empty. *)
Definition hasEditSession : bool :=
  existsb (fun repository => Nat.ltb 0 (length (getChangedResources repository)))
          (repositories wb).

(** A working change bound to the folder it is resolved in: the record
    pushed by the loop over [folder.workingChanges]. *)
Definition resolveChange (folderRoot : IWorkspaceFolder) (change : Change)
    : ResolvedChange :=
  mkResolved (joinPath (wf_uri folderRoot) (relativeFilePath change))
             (type change) (contents change).

(** A repository contributes to the [localChanges] of a remote folder when
    its root lies in a workspace folder that has the remote folder's name. *)
Definition repositoryOfFolder (folder : Folder) (repository : ISCMRepository) : Prop :=
  exists root wf, rootUri (provider repository) = Some root /\
                  getWorkspaceFolder wb root = Some wf /\
                  wf_name wf = name folder.

(** The changes of one folder bound to the local folder it matches, and
    those of them whose conflict check answers [true]. *)
Definition resolvedOf (ref : string) (force : bool) (folder : Folder)
    : list ResolvedChange :=
  match (findFolderRoot wb ref force folder).2 with
  | Some root => map (resolveChange root) (workingChanges folder)
  | None => []
  end.

Definition conflictsWith (fs : FS) (folder : Folder) (root : IWorkspaceFolder)
    (change : Change) : bool :=
  match willChangeLocalContents fs (localChangesOf wb folder)
          (joinPath (wf_uri root) (relativeFilePath change)) change with
  | Ok true => true
  | _ => false
  end.

Definition conflictsOf (fs : FS) (ref : string) (force : bool) (folder : Folder)
    : list ResolvedChange :=
  match (findFolderRoot wb ref force folder).2 with
  | Some root =>
      map (resolveChange root)
          (List.filter (conflictsWith fs folder root) (workingChanges folder))
  | None => []
  end.

(** When [findFolderRoot] can settle on a local folder for a folder of the
    session: by identity when the folder of the session has a non-empty
    identity, by name otherwise. *)
Definition acceptable (force : bool) (folder : Folder) (f : IWorkspaceFolder) : Prop :=
  match canonicalIdentity folder with
  | Some (String a c) => accepted_by_identity wb force (String a c) f
  | _ => wf_name f = name folder
  end.

(** The workspace folder a repository is rooted in, as [storeEditSession]
    looks it up. *)
Definition workspaceFolderOf (repository : ISCMRepository) : option IWorkspaceFolder :=
  match rootUri (provider repository) with
  | Some root => getWorkspaceFolder wb root
  | None => None
  end.

End Continuation.

(** * Continue Working On

    The action registered by [registerContinueEditSessionAction], with
    [shouldContinueOnWithEditSession] and [resolveDestination], and the
    handler set by [registerContributedEditSessionOptions]. *)

Module ContinueOn.

(** What [commandService.executeCommand] resolves to, as
    [resolveDestination] tells it apart: [undefined], a URI, or anything
    else. *)
Inductive CommandResult :=
| ReturnsUndefined
| ReturnsUri (u : URI)
| ReturnsOther.

(** [URI | 'noDestinationUri']. *)
Inductive Destination :=
| NoDestinationUri
| DestinationUri (u : URI).

(** What the action does that can be seen from outside; [Store] wraps an
    event of [storeEditSession]. *)
Inductive ContinueEvent :=
| PublicLog (eventName : string)     (* telemetryService.publicLog2 *)
| Store (e : Event)
| ExecuteCommand (command : string)  (* commandService.executeCommand *)
| LogOpening (u : URI)               (* logService.info(`Opening ${uri.toString()}`) *)
| Open (u : URI)                     (* openerService.open(uri, { openExternal: true }) *)
| WarnFailedToStore.                 (* logService.warn(`Failed to store edit session ...`) *)

(** The collaborators of the action: the sign-in state of the store, the
    value of the setting [useEditSessionsWithContinueOn], what the quick
    pick of [pickContinueEditSessionDestination] resolves to, the command
    and opener services, and the imported [URI] and [encodeURIComponent]
    functions with the constant [queryParamName].  What a command does to
    the files is not followed. *)
Record Services (RS : Type) := mkServices {
  isSignedIn : RS -> bool;
  useEditSessionsWithContinueOn : string;
  pickContinueEditSessionDestination : option string;
  executeCommand : string -> result CommandResult;
  opener_open : URI -> result bool;
  uri_query : URI -> string;
  uri_with_query : URI -> string -> URI;
  encodeURIComponent : string -> string;
  queryParamName : string
}.
Arguments isSignedIn {RS} _ _.
Arguments useEditSessionsWithContinueOn {RS} _.
Arguments pickContinueEditSessionDestination {RS} _.
Arguments executeCommand {RS} _ _.
Arguments opener_open {RS} _ _.
Arguments uri_query {RS} _ _.
Arguments uri_with_query {RS} _ _ _.
Arguments encodeURIComponent {RS} _ _.
Arguments queryParamName {RS} _.

(** ** The contribution point [continueEditSession] *)

(** [command.icon]: a [ThemeIcon] or a pair of image paths. *)
Inductive Icon :=
| ThemeIcon (id : string)
| ImageIcon.

(** [command.title]: [string | ILocalizedString]. *)
Inductive Title :=
| PlainTitle (s : string)
| LocalizedTitle (value original : string).

Record ICommandAction := mkCommandAction {
  cmd_id : string;
  cmd_title : Title;
  cmd_icon : option Icon;
  cmd_source : option string
}.

(** [ICommand], one entry of an extension's contribution. *)
Record ICommand := mkCommand {
  contribution_command : string;
  contribution_group : string;
  contribution_when : string
}.

(** An extension as the handler reads it: whether the proposed API
    [contribEditSessions] is enabled for it, and its [value], [None] when
    that is not an array. *)
Record ExtensionPointUser := mkExtensionPointUser {
  proposedApiEnabled : bool;
  value : option (list ICommand)
}.

Section Options.

(** [ContextKeyExpression], with [ContextKeyExpr.deserialize] and
    [MenuRegistry.getCommand]. *)
Variable ContextKeyExpression : Type.
Variable deserialize : string -> option ContextKeyExpression.
Variable getCommand : string -> option ICommandAction.

Record ContinueEditSessionItem := mkItem {
  label : string;
  command : string;
  description : option string;
  when : option ContextKeyExpression
}.

Definition itemOf (command : ICommandAction) (contribution : ICommand)
    : ContinueEditSessionItem :=
  let icon := cmd_icon command in
  let title :=
    match cmd_title command with
    | PlainTitle s => s
    | LocalizedTitle value _ => value
    end in
  mkItem (match icon with
          | Some (ThemeIcon id) =>
              String.append "$(" (String.append id (String.append ") " title))
          | _ => title
          end)
         (cmd_id command)
         (cmd_source command)
         (deserialize (contribution_when contribution)).

(** The loop over the contributions of one extension; [None] is the
    [return] that leaves the handler. *)
Fixpoint pushContributions (contributions : list ICommand)
    (continueEditSessionOptions : list ContinueEditSessionItem)
    : option (list ContinueEditSessionItem) :=
  match contributions with
  | [] => Some continueEditSessionOptions
  | contribution :: rest =>
      match getCommand (contribution_command contribution) with
      | None => None
      | Some command =>
          pushContributions rest
            (continueEditSessionOptions ++ [itemOf command contribution])
      end
  end.

(** The loop over the extensions. *)
Fixpoint collectOptions (extensions : list ExtensionPointUser)
    (continueEditSessionOptions : list ContinueEditSessionItem)
    : option (list ContinueEditSessionItem) :=
  match extensions with
  | [] => Some continueEditSessionOptions
  | extension :: rest =>
      if negb (proposedApiEnabled extension) then
        collectOptions rest continueEditSessionOptions
      else
        match value extension with
        | None => collectOptions rest continueEditSessionOptions
        | Some contributions =>
            match pushContributions contributions continueEditSessionOptions with
            | Some continueEditSessionOptions =>
                collectOptions rest continueEditSessionOptions
            | None => None
            end
        end
  end.

(** The handler: [this.continueEditSessionOptions] after it has run, given
    what it held before. *)
Definition contributedOptionsHandler (current : list ContinueEditSessionItem)
    (extensions : list ExtensionPointUser) : list ContinueEditSessionItem :=
  match collectOptions extensions [] with
  | Some continueEditSessionOptions => continueEditSessionOptions
  | None => current
  end.

(** The contributions the handler reads: those of the extensions with the
    proposed API enabled whose value is an array; and the item one of them
    gives when its command is registered. *)
Definition contributionsRead (extensions : list ExtensionPointUser) : list ICommand :=
  flat_map (fun extension =>
              if proposedApiEnabled extension then default [] (value extension) else [])
           extensions.

Definition contributedItem (contribution : ICommand) : option ContinueEditSessionItem :=
  (fun command => itemOf command contribution)
    <$> getCommand (contribution_command contribution).

End Options.

Arguments label {ContextKeyExpression} _.
Arguments command {ContextKeyExpression} _.
Arguments description {ContextKeyExpression} _.
Arguments when {ContextKeyExpression} _.
Arguments itemOf {ContextKeyExpression} deserialize command contribution.
Arguments pushContributions {ContextKeyExpression} deserialize getCommand
  contributions continueEditSessionOptions.
Arguments collectOptions {ContextKeyExpression} deserialize getCommand
  extensions continueEditSessionOptions.
Arguments contributedOptionsHandler {ContextKeyExpression} deserialize getCommand
  current extensions.
Arguments contributedItem {ContextKeyExpression} deserialize getCommand contribution.

(** ** The action *)

Section Action.

Context {FS RS : Type}.
Context `{PF : Platform} `{FSrv : FileService FS} `{SSrv : EditSessionsStorageService RS}.
Variable wb : Workbench.
Variable services : Services RS.

Definition shouldContinueOnWithEditSession (rs : RS) : bool :=
  if isSignedIn services rs then hasEditSession wb
  else if String.eqb (useEditSessionsWithContinueOn services) "off" then false
  else if hasEditSession wb then storage_initialize rs true false
  else false.

Definition resolveDestination (command : string)
    : list ContinueEvent * option Destination :=
  ([ExecuteCommand command],
   match executeCommand services command with
   | Ok ReturnsUndefined => Some NoDestinationUri
   | Ok (ReturnsUri uri) => Some (DestinationUri uri)
   | Ok ReturnsOther => None
   | Throw _ => None
   end).

(** [uri.with({ query: ... })] with the reference appended. *)
Definition withRef (uri : URI) (ref : string) : URI :=
  let encodedRef := encodeURIComponent services ref in
  let param :=
    String.append (queryParamName services)
      (String.append "=" (String.append encodedRef "&continueOn=1")) in
  uri_with_query services uri
    (if Nat.ltb 0 (String.length (uri_query services uri))
     then String.append (uri_query services uri) (String.append "&" param)
     else param).

Definition openUri (uri : URI) : list ContinueEvent * result unit :=
  ([LogOpening uri; Open uri],
   match opener_open services uri with
   | Ok _ => Ok tt
   | Throw ex => Throw ex
   end).

(** [ContinueEditSessionAction.run]. *)
Definition continueEditSession (workspaceUri : option URI) (w : World FS RS)
    : World FS RS * list ContinueEvent * result unit :=
  let telemetry := PublicLog "editSessions.continue.store" in
  let destination :=
    match workspaceUri with
    | Some _ => None
    | None => pickContinueEditSessionDestination services
    end in
  if negb (truthy destination) && negb (bool_decide (is_Some workspaceUri)) then
    (w, [telemetry], Ok tt)
  else
    let shouldStoreEditSession := shouldContinueOnWithEditSession (storage w) in
    let '(w, stored, ref) :=
      if shouldStoreEditSession then storeEditSession wb false w
      else (w, [], Ok None) in
    match ref with
    | Throw ex => (w, telemetry :: map Store stored, Throw ex)
    | Ok ref =>
        let '(resolving, uri) :=
          match destination with
          | Some (String a d) => resolveDestination (String a d)
          | _ => ([], DestinationUri <$> workspaceUri)
          end in
        let '(opening, r) :=
          match uri with
          | None => ([], Ok tt)
          | Some uri =>
              match ref, uri with
              | Some ref, DestinationUri uri => openUri (withRef uri ref)
              | _, _ =>
                  match shouldStoreEditSession, uri with
                  | false, DestinationUri uri => openUri uri
                  | _, _ =>
                      match ref, shouldStoreEditSession with
                      | None, true => ([WarnFailedToStore], Ok tt)
                      | _, _ => ([], Ok tt)
                      end
                  end
              end
          end in
        (w, telemetry :: map Store stored ++ resolving ++ opening, r)
    end.

(** Whether a destination is there to continue in: a URI was passed, or
    the quick pick resolved to a command. *)
Definition destinationChosen (workspaceUri : option URI) : bool :=
  match workspaceUri with
  | Some _ => true
  | None => truthy (pickContinueEditSessionDestination services)
  end.

(** What the destination resolves to. *)
Definition destinationOf (workspaceUri : option URI) : option Destination :=
  match workspaceUri with
  | Some uri => Some (DestinationUri uri)
  | None =>
      match pickContinueEditSessionDestination services with
      | Some (String a d) => (resolveDestination (String a d)).2
      | _ => None
      end
  end.

End Action.

(** The action on the sample workspace: the store is signed in, the quick
    pick resolves to [picked], the command [remote.open] returns the URI
    of a remote window, [own.window] returns nothing and any other command
    fails; a query starts after the first question mark. *)
Definition query_of (s : string) : string :=
  match String.index 0 "?" s with
  | Some i => String.substring (S i) (String.length s - S i) s
  | None => ""
  end.

Definition without_query (s : string) : string :=
  match String.index 0 "?" s with
  | Some i => String.substring 0 i s
  | None => s
  end.

Definition remote_window : URI :=
  mkURI 9 "/w" "vscode://remote/w".

Definition sample_services (picked : option string) : Services Sample.MemStore := {|
  isSignedIn := Sample.signedIn;
  useEditSessionsWithContinueOn := "prompt";
  pickContinueEditSessionDestination := picked;
  executeCommand c :=
    if String.eqb c "remote.open" then Ok (ReturnsUri remote_window)
    else if String.eqb c "own.window" then Ok ReturnsUndefined
    else Throw (ServiceError "command not found");
  opener_open _ := Ok true;
  uri_query u := query_of (uri_toString u);
  uri_with_query u q :=
    mkURI 0 (uri_path u)
          (String.append (without_query (uri_toString u)) (String.append "?" q));
  encodeURIComponent s := s;
  queryParamName := "editSessionId"
|}.

(** Source control lists [/elsewhere/c.txt], which lies in no workspace
    folder. *)
Definition tracking_outside : Workbench :=
  Sample.workbench [Sample.repository [[Sample.file_uri 5 "/elsewhere/c.txt"]]] 0.

(** Two extensions with the proposed API enabled; the second one names a
    command that is not registered. *)
Definition known_command (c : string) : option ICommandAction :=
  if String.eqb c "remote.open"
  then Some (mkCommandAction "remote.open" (PlainTitle "Remote") (Some (ThemeIcon "remote")) None)
  else None.

Definition contributes (commands : list string) : ExtensionPointUser :=
  mkExtensionPointUser true (Some (map (fun c => mkCommand c "" "") commands)).

End ContinueOn.

(** * [ExtensionsWatcher]

    The second class of the source: for every extension key, the set of
    profile locations whose extensions file lists it; an installed
    extension that no profile lists is marked as uninstalled. *)
Module ExtensionsWatcher.

Record IExtensionIdentifier := mkIdentifier {
  extId : string;
  uuid : option string
}.

(** An extension as the handlers read it: [identifier] and the version
    ([manifest.version] of an installed extension, [version] of a scanned
    one). *)
Record IExtension := mkExtension {
  identifier : IExtensionIdentifier;
  version : string
}.

(** [ProfileExtensionsEvent] and its two extensions with [error?]. *)
Record ProfileExtensionsEvent := mkProfileEvent {
  extensions : list IExtension;
  profileLocation : URI;
  error : option Error
}.

(** One side of [DidChangeProfileExtensionsEvent]. *)
Record ProfileExtensions := mkProfileExtensions {
  changed : list IExtensionIdentifier;
  location : URI
}.

Record DidChangeProfileExtensionsEvent := mkDidChange {
  added : option ProfileExtensions;
  removed : option ProfileExtensions
}.

(** Imported helpers: [uriIdentityService.extUri.getComparisonKey],
    [ExtensionIdentifier.toKey] and [getIdAndVersion]. *)
Class Helpers := {
  getComparisonKey : URI -> string;
  toKey : string -> string;
  getIdAndVersion : string -> string * option string
}.

(** [ResourceSet]: URIs held by comparison key. *)
Abbreviation ResourceSet := (gmap string URI).

(** [allExtensions], a [Map<string, ResourceSet>]: entries in insertion
    order, looked up by key. *)
Definition ExtensionsMap := list (string * ResourceSet).

Fixpoint Map_get (m : ExtensionsMap) (key : string) : option ResourceSet :=
  match m with
  | [] => None
  | (k, v) :: rest => if String.eqb k key then Some v else Map_get rest key
  end.

(** [set] keeps the place of a key that is there and appends a new one. *)
Fixpoint Map_set (m : ExtensionsMap) (key : string) (v : ResourceSet) : ExtensionsMap :=
  match m with
  | [] => [(key, v)]
  | (k, w) :: rest =>
      if String.eqb k key then (k, v) :: rest else (k, w) :: Map_set rest key v
  end.

Definition Map_delete (m : ExtensionsMap) (key : string) : ExtensionsMap :=
  List.filter (fun kv => negb (String.eqb kv.1 key)) m.

Definition Map_has (m : ExtensionsMap) (key : string) : bool :=
  match Map_get m key with
  | Some _ => true
  | None => false
  end.

Definition Map_keys (m : ExtensionsMap) : list string := m.*1.

Section Watcher.

Context `{H : Helpers}.

Definition ResourceSet_add (s : ResourceSet) (u : URI) : ResourceSet :=
  <[getComparisonKey u := u]> s.

Definition ResourceSet_delete (s : ResourceSet) (u : URI) : ResourceSet :=
  delete (getComparisonKey u) s.

Definition ResourceSet_has (s : ResourceSet) (u : URI) : bool :=
  bool_decide (is_Some (s !! getComparisonKey u)).

Definition addExtensionWithKey (m : ExtensionsMap) (key : string)
    (extensionsProfileLocation : URI) : ExtensionsMap :=
  match Map_get m key with
  | Some profiles => Map_set m key (ResourceSet_add profiles extensionsProfileLocation)
  | None => Map_set m key (ResourceSet_add ∅ extensionsProfileLocation)
  end.

Definition removeExtensionWithKey (m : ExtensionsMap) (key : string)
    (profileLocation : URI) : ExtensionsMap :=
  match Map_get m key with
  | Some profiles =>
      let profiles := ResourceSet_delete profiles profileLocation in
      if Nat.eqb (size profiles) 0 then Map_delete m key
      else Map_set m key profiles
  | None => Map_delete m key
  end.

Definition getKey (identifier : IExtensionIdentifier) (version : string) : string :=
  String.append (toKey (extId identifier)) (String.append "@" version).

(** [version ? {...} : undefined]: an absent or empty version gives
    [undefined]. *)
Definition fromKey (key : string) : option IExtension :=
  match getIdAndVersion key with
  | (id, Some (String a v)) => Some (mkExtension (mkIdentifier id None) (String a v))
  | _ => None
  end.

Definition keyOf (extension : IExtension) : string :=
  getKey (identifier extension) (version extension).

Definition onAddExtensions (m : ExtensionsMap) (e : ProfileExtensionsEvent)
    : ExtensionsMap :=
  fold_left (fun m extension => addExtensionWithKey m (keyOf extension) (profileLocation e))
            (extensions e) m.

Definition onDidAddExtensions (m : ExtensionsMap) (e : ProfileExtensionsEvent)
    : ExtensionsMap :=
  fold_left
    (fun m extension =>
       match error e with
       | Some _ => removeExtensionWithKey m (keyOf extension) (profileLocation e)
       | None => addExtensionWithKey m (keyOf extension) (profileLocation e)
       end)
    (extensions e) m.

Definition onRemoveExtensions (m : ExtensionsMap) (e : ProfileExtensionsEvent)
    : ExtensionsMap :=
  fold_left (fun m extension => removeExtensionWithKey m (keyOf extension) (profileLocation e))
            (extensions e) m.

(** [markAsUninstalled(...list)] is called when the list is not empty: the
    calls made, each with its arguments. *)
Definition markAsUninstalled (toUninstall : list IExtension) : list (list IExtension) :=
  match toUninstall with
  | [] => []
  | _ => [toUninstall]
  end.

(** The loop of [onDidRemoveExtensions]: the map and
    [extensionsToUninstall]. *)
Definition onDidRemoveExtensions_loop (m : ExtensionsMap) (e : ProfileExtensionsEvent)
    : ExtensionsMap * list IExtension :=
  fold_left
    (fun '(m, extensionsToUninstall) extension =>
       let key := keyOf extension in
       match error e with
       | Some _ => (addExtensionWithKey m key (profileLocation e), extensionsToUninstall)
       | None =>
           let m := removeExtensionWithKey m key (profileLocation e) in
           if Map_has m key then (m, extensionsToUninstall)
           else (m, extensionsToUninstall ++ [extension])
       end)
    (extensions e) (m, []).

Definition onDidRemoveExtensions (m : ExtensionsMap) (e : ProfileExtensionsEvent)
    : ExtensionsMap * list (list IExtension) :=
  let '(m, extensionsToUninstall) := onDidRemoveExtensions_loop m e in
  (m, markAsUninstalled extensionsToUninstall).

(** [onDidExtensionsProfileChange], after [scanProfileExtensions] has
    returned [scanned]: the map and the event fired, if any. *)
Definition cachedKeys (m : ExtensionsMap) (profileLocation : URI) : list string :=
  (List.filter (fun kv => ResourceSet_has kv.2 profileLocation) m).*1.

Definition inKeys (keys : list string) (key : string) : bool :=
  existsb (String.eqb key) keys.

Definition onDidExtensionsProfileChange (m : ExtensionsMap) (profileLocation : URI)
    (scanned : list IExtension)
    : ExtensionsMap * option DidChangeProfileExtensionsEvent :=
  let cached := cachedKeys m profileLocation in
  let extensionKeys := map keyOf scanned in
  let '(m, added) :=
    fold_left
      (fun '(m, added) extension =>
         let key := keyOf extension in
         if inKeys cached key then (m, added)
         else (addExtensionWithKey m key profileLocation, added ++ [identifier extension]))
      scanned (m, []) in
  let '(m, removed) :=
    fold_left
      (fun '(m, removed) key =>
         if inKeys extensionKeys key then (m, removed)
         else
           match fromKey key with
           | Some extension =>
               (removeExtensionWithKey m key profileLocation,
                removed ++ [identifier extension])
           | None => (m, removed)
           end)
      cached (m, []) in
  let side (l : list IExtensionIdentifier) :=
    match l with
    | [] => None
    | _ => Some (mkProfileExtensions l profileLocation)
    end in
  match added, removed with
  | [], [] => (m, None)
  | _, _ => (m, Some (mkDidChange (side added) (side removed)))
  end.

(** The scanned extensions the profile did not list before, and the keys
    it listed that are no longer scanned and can be read back, each with
    the extension [fromKey] gives. *)
Definition newlyListed (cached : list string) (scanned : list IExtension)
    : list IExtension :=
  List.filter (fun extension => negb (inKeys cached (keyOf extension))) scanned.

Definition noLongerListed (extensionKeys cached : list string)
    : list (string * IExtension) :=
  omap (fun key => if inKeys extensionKeys key then None
                   else (fun extension => (key, extension)) <$> fromKey key)
       cached.

(** The identifiers on one side of the fired event; none when the side is
    [undefined]. *)
Definition changedOf (side : option ProfileExtensions) : list IExtensionIdentifier :=
  match side with
  | Some s => changed s
  | None => []
  end.

Definition populateExtensionsFromProfile (m : ExtensionsMap)
    (extensionsProfileLocation : URI) (scanned : list IExtension) : ExtensionsMap :=
  fold_left
    (fun m extension => addExtensionWithKey m (keyOf extension) extensionsProfileLocation)
    scanned m.

(** [uninstallExtensionsNotInProfiles], after [getAllUserInstalled] has
    returned [installed]: the calls of [markAsUninstalled]. *)
Definition uninstallExtensionsNotInProfiles (m : ExtensionsMap)
    (installed : list IExtension) : list (list IExtension) :=
  markAsUninstalled
    (List.filter (fun installedExtension => negb (Map_has m (keyOf installedExtension)))
                 installed).

Definition removeExtensionsFromProfile (m : ExtensionsMap) (removedProfile : URI)
    (installed : list IExtension) : ExtensionsMap * list (list IExtension) :=
  let m := fold_left (fun m key => removeExtensionWithKey m key removedProfile)
                     (Map_keys m) m in
  (m, uninstallExtensionsNotInProfiles m installed).

(** The profile at [loc] lists the extension [key]. *)
Definition listedIn (m : ExtensionsMap) (key : string) (loc : URI) : Prop :=
  exists profiles, Map_get m key = Some profiles /\
                   is_Some (profiles !! getComparisonKey loc).

(** What the map keeps: one entry per key, no entry with an empty set, and
    every URI held under its own comparison key. *)
Definition wellFormedSet (profiles : ResourceSet) : Prop :=
  profiles <> ∅ /\
  forall c u, profiles !! c = Some u -> getComparisonKey u = c.

Definition wellFormed (m : ExtensionsMap) : Prop :=
  NoDup (Map_keys m) /\ Forall (fun kv => wellFormedSet kv.2) m.

End Watcher.

(** A watcher on the sample workspace: paths compare as written, keys are
    kept as they are, and a key splits at its first [@]. *)
Definition split_key_at (key : string) : string * option string :=
  match String.index 0 "@" key with
  | Some i => (String.substring 0 i key,
               Some (String.substring (S i) (String.length key - S i) key))
  | None => (key, None)
  end.

#[export] Instance sample_helpers : Helpers := {|
  getComparisonKey := uri_toString;
  toKey s := s;
  getIdAndVersion := split_key_at
|}.

Definition ext (id v : string) : IExtension := mkExtension (mkIdentifier id None) v.
Definition default_profile : URI := Sample.file_uri 1 "/profiles/default/extensions.json".
Definition work_profile : URI := Sample.file_uri 2 "/profiles/work/extensions.json".

(** Both profiles list [pub.a] 1.0.0; only the default profile lists
    [pub.b] 2.0.0. *)
Definition a1 : IExtension := ext "pub.a" "1.0.0".
Definition b2 : IExtension := ext "pub.b" "2.0.0".
Definition c3 : IExtension := ext "pub.c" "3.0.0".

Definition two_profiles : ExtensionsMap :=
  populateExtensionsFromProfile
    (populateExtensionsFromProfile [] default_profile [a1; b2])
    work_profile [a1].

Definition event (xs : list IExtension) (loc : URI) (err : option Error)
    : ProfileExtensionsEvent :=
  mkProfileEvent xs loc err.

End ExtensionsWatcher.

(** * Properties *)

Section Properties.

Context {FS RS : Type}.
Context `{PF : Platform} `{FSrv : FileService FS} `{SSrv : EditSessionsStorageService RS}.
Variable wb : Workbench.

(** ** The conflict check *)

(** C2, as the code has it: [willChangeLocalContents] answers [false] for
    a URI outside the local changed-resource set; inside it, an [Addition]
    whose target can be read conflicts exactly when the digest of the
    incoming contents differs from the digest of the encoded contents read
    from disk, and when the target cannot be read the call throws the
    error of the read (there is no check that the file exists before
    [readFile]); a [Deletion] conflicts exactly when the file exists, and
    any other change type throws. *)
Theorem willChangeLocalContents_spec (fs : FS) (localChanges : gset string)
    (u : URI) (c : Change) :
  (uri_toString u ∉ localChanges ->
     willChangeLocalContents fs localChanges u c = Ok false) /\
  (uri_toString u ∈ localChanges -> type c = Addition ->
     forall value, fs_readFile fs u = Ok value ->
       exists b, willChangeLocalContents fs localChanges u c = Ok b /\
         (b = true <->
          sha1Hex (contents c) <> sha1Hex (Some (encodeBase64 value)))) /\
  (uri_toString u ∈ localChanges -> type c = Addition ->
     forall e, fs_readFile fs u = Throw e ->
       willChangeLocalContents fs localChanges u c = Throw e) /\
  (uri_toString u ∈ localChanges -> type c = Deletion ->
     exists b, willChangeLocalContents fs localChanges u c = Ok b /\
       (b = true <-> fs_exists fs u = true)) /\
  (uri_toString u ∈ localChanges ->
     (forall tag, type c = UnknownChangeType tag ->
        willChangeLocalContents fs localChanges u c = Throw UnhandledChangeType)).
Proof.
  unfold willChangeLocalContents. repeat split.
  - intros Hout. by rewrite bool_decide_eq_false_2.
  - intros Hin Hty value Hread.
    rewrite bool_decide_eq_true_2, Hty, Hread by done.
    eexists; split; [reflexivity|].
    rewrite negb_true_iff. split.
    + intros Hne Heq. apply String.eqb_neq in Hne. done.
    + intros Hne. by apply String.eqb_neq.
  - intros Hin Hty e Hread.
    by rewrite bool_decide_eq_true_2, Hty, Hread.
  - intros Hin Hty. rewrite bool_decide_eq_true_2, Hty by done.
    eexists; split; [reflexivity|done].
  - intros Hin tag Hty. by rewrite bool_decide_eq_true_2, Hty.
Qed.

(** ** The two lists of [generateChanges] *)

Lemma resolveWorkingChanges_sublist fs lc root wcs changes conflicting changes' conflicting' :
  sublist conflicting changes ->
  resolveWorkingChanges fs lc root wcs changes conflicting = Ok (changes', conflicting') ->
  sublist conflicting' changes'.
Proof.
  revert changes conflicting.
  induction wcs as [|c wcs IH]; intros changes conflicting Hsub; simpl.
  - intros [= <- <-]. exact Hsub.
  - destruct (willChangeLocalContents _ _ _ _) as [[|]|e]; [| |done].
    + apply IH. by apply sublist_app.
    + apply IH. by apply sublist_inserts_r.
Qed.

Lemma generateChangesFrom_sublist fs ref force fds changes conflicting evs changes' conflicting' :
  sublist conflicting changes ->
  generateChangesFrom wb fs ref force fds changes conflicting
    = (evs, Ok (changes', conflicting')) ->
  sublist conflicting' changes'.
Proof.
  revert changes conflicting evs.
  induction fds as [|folder fds IH]; intros changes conflicting evs Hsub; simpl.
  - intros [= _ <- <-]. exact Hsub.
  - destruct (findFolderRoot wb ref force folder) as [fevs [root|]].
    + destruct (resolveWorkingChanges _ _ _ _ _ _) as [[ch cf]|e] eqn:Hres; [|done].
      destruct (generateChangesFrom wb fs ref force fds ch cf) as [evs' r] eqn:Hgen.
      intros [= _ ->].
      eapply IH; [|exact Hgen].
      eapply resolveWorkingChanges_sublist; [exact Hsub|exact Hres].
    + intros [= _ <- <-]. constructor.
Qed.

Lemma generateChanges_sublist fs s ref force evs changes conflicting :
  generateChanges wb fs s ref force = (evs, Ok (changes, conflicting)) ->
  sublist conflicting changes.
Proof.
  unfold generateChanges. apply generateChangesFrom_sublist. constructor.
Qed.

(** C10: whenever [generateChanges] returns, [conflictingChanges] is a
    sublist of [changes]: each conflicting change, with the same uri, type
    and contents, is one of the resolved changes, in the same order. *)
Theorem conflictingChanges_sublist_of_changes (fs : FS) (s : EditSession)
    (ref : string) (force : bool) (evs : list Event)
    (changes conflicting : list ResolvedChange) :
  generateChanges wb fs s ref force = (evs, Ok (changes, conflicting)) ->
  sublist conflicting changes /\ (forall c, c ∈ conflicting -> c ∈ changes).
Proof.
  intros Hgen. pose proof (generateChanges_sublist _ _ _ _ _ _ _ Hgen) as Hsub.
  split; [exact Hsub|].
  intros c Hc. by eapply elem_of_sublist.
Qed.

(** ** Matching a remote folder to a local one *)

Lemma findByIdentity_Some ref canonical force fs f :
  (findByIdentity wb ref canonical force fs).2 = Some f ->
  f ∈ fs /\ accepted_by_identity wb force canonical f.
Proof.
  induction fs as [|g fs IH]; simpl; [done|].
  destruct (findByIdentity wb ref canonical force fs) as [evs r].
  assert (Hrec : r = Some f -> f ∈ g :: fs /\ accepted_by_identity wb force canonical f).
  { intros ->. destruct (IH eq_refl). split; [by right|done]. }
  case_bool_decide as Hid.
  { simpl. intros [= <-]. split; [left|by left]. }
  destruct (getEditSessionIdentifier wb g) as [id|] eqn:Hg; [|exact Hrec].
  destruct (provideEditSessionIdentityMatch wb g id canonical) eqn:Hm; [|..|exact Hrec].
  - simpl. intros [= <-]. split; [left|]. right. exists id. auto.
  - destruct (partialMatchesEnabled wb) eqn:Hp; [|exact Hrec].
    destruct force; simpl; [|exact Hrec].
    intros [= <-]. split; [left|]. right. exists id. auto.
Qed.

Lemma findByIdentity_None ref canonical force fs :
  (findByIdentity wb ref canonical force fs).2 = None ->
  forall f, f ∈ fs -> ~ settles_identity wb canonical f.
Proof.
  induction fs as [|g fs IH]; simpl; [intros _ f Hf; by apply elem_of_nil in Hf|].
  destruct (findByIdentity wb ref canonical force fs) as [evs r].
  assert (Hrec : ~ settles_identity wb canonical g -> r = None ->
                 forall f, f ∈ g :: fs -> ~ settles_identity wb canonical f).
  { intros Hg -> f Hf. apply elem_of_cons in Hf as [->|Hf]; [done|by apply IH]. }
  case_bool_decide as Hid; [done|].
  destruct (getEditSessionIdentifier wb g) as [id|] eqn:Hg.
  - destruct (provideEditSessionIdentityMatch wb g id canonical) eqn:Hm; [done|..].
    + assert (~ settles_identity wb canonical g) as Hns.
      { intros [?|(id' & ? & Hc)]; congruence. }
      destruct (partialMatchesEnabled wb); [destruct force; [done|]|]; by apply Hrec.
    + apply Hrec. intros [?|(id' & ? & Hc)]; congruence.
  - apply Hrec. intros [?|(id' & ? & _)]; congruence.
Qed.

Lemma findByIdentity_prompt ref canonical force fs r :
  PromptPartialMatch r ∈ (findByIdentity wb ref canonical force fs).1 ->
  partialMatchesEnabled wb = true /\ force = false /\ r = ref.
Proof.
  induction fs as [|g fs IH]; simpl; [by intros ?%elem_of_nil|].
  destruct (findByIdentity wb ref canonical force fs) as [evs res].
  assert (Hrec : PromptPartialMatch r ∈
                   LogInfo (MatchingIdentity (getEditSessionIdentifier wb g) canonical)
                     :: [] ++ evs ->
                 partialMatchesEnabled wb = true /\ force = false /\ r = ref).
  { intros [?|?]%elem_of_cons; [done|by apply IH]. }
  assert (Hone : forall e : LogMessage, PromptPartialMatch r ∈ [LogInfo e] ->
                 partialMatchesEnabled wb = true /\ force = false /\ r = ref).
  { intros e [?|?%elem_of_nil]%elem_of_cons; done. }
  case_bool_decide as Hid; [apply Hone|].
  destruct (getEditSessionIdentifier wb g) as [id|] eqn:Hg; [|exact Hrec].
  destruct (provideEditSessionIdentityMatch wb g id canonical); [apply Hone| |exact Hrec].
  destruct (partialMatchesEnabled wb); [|exact Hrec].
  destruct force; simpl; [apply Hone|].
  intros [?|[[= ->]|?]%elem_of_cons]%elem_of_cons; [done|done|].
  destruct IH as (_ & _ & ->); done.
Qed.

(** C6: a local folder classified [Partial] is passed over in silence when
    the partial-matches setting is off; with the setting on and [force] it
    is the match and the scan stops there; with the setting on and no
    [force] a prompt is shown for it, it is not the match, and the scan
    goes on with the folders after it. *)
Theorem partial_match_policy (ref canonical : string) (force : bool)
    (f : IWorkspaceFolder) (rest : list IWorkspaceFolder) (id : string) :
  getEditSessionIdentifier wb f = Some id ->
  id <> canonical ->
  provideEditSessionIdentityMatch wb f id canonical = Partial ->
  let here := findByIdentity wb ref canonical force (f :: rest) in
  let later := findByIdentity wb ref canonical force rest in
  let log := LogInfo (MatchingIdentity (Some id) canonical) in
  (partialMatchesEnabled wb = false -> here = (log :: later.1, later.2)) /\
  (partialMatchesEnabled wb = true -> force = true -> here = ([log], Some f)) /\
  (partialMatchesEnabled wb = true -> force = false ->
     here = (log :: PromptPartialMatch ref :: later.1, later.2)).
Proof.
  intros Hid Hne Hm. simpl.
  rewrite Hid, Hm. rewrite bool_decide_eq_false_2 by congruence.
  destruct (findByIdentity wb ref canonical force rest) as [evs r]. simpl.
  repeat split.
  - by intros ->.
  - by intros -> ->.
  - by intros -> ->.
Qed.

Lemma find_by_name_spec (nm : string) (fs : list IWorkspaceFolder) :
  match List.find (fun f => bool_decide (wf_name f = nm)) fs with
  | Some f => f ∈ fs /\ wf_name f = nm
  | None => forall f, f ∈ fs -> wf_name f <> nm
  end.
Proof.
  induction fs as [|g fs IH]; simpl; [by intros f ?%elem_of_nil|].
  case_bool_decide as Hn.
  - split; [left|done].
  - destruct (List.find _ fs) as [f|].
    + destruct IH. split; [by right|done].
    + intros f [->|Hf]%elem_of_cons; [done|by apply IH].
Qed.

(** C5, as the code has it: the guard is [if (folder.canonicalIdentity)],
    so an absent or empty identity is matched by exact name equality, with
    no identity asked for and no prompt; a non-empty identity is matched on
    identities alone: the name of the remote folder plays no part, a folder
    found is one whose identity is equal, or classified [Complete], or
    classified [Partial] under the setting and [force]; and none is found
    only if no local folder has an equal or [Complete] identity. *)
Theorem folder_matching_policy (ref : string) (force : bool) (folder : Folder) :
  (truthy (canonicalIdentity folder) = false ->
     (findFolderRoot wb ref force folder).1 = [] /\
     match (findFolderRoot wb ref force folder).2 with
     | Some f => f ∈ workspaceFolders wb /\ wf_name f = name folder
     | None => forall f, f ∈ workspaceFolders wb -> wf_name f <> name folder
     end) /\
  (forall c, canonicalIdentity folder = Some c -> c <> "" ->
     (forall folder', canonicalIdentity folder' = Some c ->
        findFolderRoot wb ref force folder' = findFolderRoot wb ref force folder) /\
     match (findFolderRoot wb ref force folder).2 with
     | Some f => f ∈ workspaceFolders wb /\ accepted_by_identity wb force c f
     | None => forall f, f ∈ workspaceFolders wb -> ~ settles_identity wb c f
     end).
Proof.
  unfold findFolderRoot. split.
  - intros Hfalsy.
    destruct (canonicalIdentity folder) as [c|]; [rewrite Hfalsy|];
      (split; [done|apply find_by_name_spec]).
  - intros c Hc Hne. rewrite Hc.
    assert (truthy (Some c) = true) as -> by (by destruct c).
    split.
    + intros folder' ->. by assert (truthy (Some c) = true) as -> by (by destruct c).
    + destruct (findByIdentity wb ref c force (workspaceFolders wb)).2 eqn:Hr.
      * by eapply findByIdentity_Some.
      * by eapply findByIdentity_None.
Qed.

(** ** Running [resumeEditSession] *)

Ltac run_M :=
  unfold mbind, M_bind, mret, M_ret, emit, liftW, liftResult, tryCatch,
    writeFile, del, fileExists, storageInitialize, storageRead, storageDelete;
  simpl.

Lemma report_no_mutation evs :
  Forall (fun e => is_report e = true) evs -> no_mutation evs.
Proof. intros Hall. eapply Forall_impl; [exact Hall|]. by intros []. Qed.

Lemma file_change_not_delete evs r :
  Forall (fun e => is_file_change e = true) evs -> StorageDelete r ∉ evs.
Proof. intros Hall Hin. by eapply Forall_forall in Hall; [|exact Hin]. Qed.

Lemma findByIdentity_report ref canonical force fs :
  Forall (fun e => is_report e = true) (findByIdentity wb ref canonical force fs).1.
Proof.
  induction fs as [|g fs IH]; simpl; [constructor|].
  destruct (findByIdentity wb ref canonical force fs) as [evs r]. simpl in IH.
  repeat case_match; simpl; repeat constructor; done.
Qed.

Lemma findFolderRoot_report ref force folder :
  Forall (fun e => is_report e = true) (findFolderRoot wb ref force folder).1.
Proof.
  unfold findFolderRoot.
  repeat case_match; simpl; try constructor; apply findByIdentity_report.
Qed.

Lemma generateChangesFrom_report fs ref force fds changes conflicting :
  Forall (fun e => is_report e = true)
         (generateChangesFrom wb fs ref force fds changes conflicting).1.
Proof.
  revert changes conflicting.
  induction fds as [|folder fds IH]; intros changes conflicting; simpl; [constructor|].
  pose proof (findFolderRoot_report ref force folder) as Hf.
  destruct (findFolderRoot wb ref force folder) as [fevs [root|]]; simpl in Hf.
  - destruct (resolveWorkingChanges _ _ _ _ _ _) as [[ch cf]|e]; [|done].
    specialize (IH ch cf).
    destruct (generateChangesFrom wb fs ref force fds ch cf) as [evs' r].
    simpl in *. by apply Forall_app.
  - simpl. apply Forall_app. split; [done|by repeat constructor].
Qed.

Lemma generateChanges_report fs s ref force :
  Forall (fun e => is_report e = true) (generateChanges wb fs s ref force).1.
Proof. apply generateChangesFrom_report. Qed.

Lemma applyChange_frame v c (w : World FS RS) :
  storage (final (applyChange v c w)) = storage w /\
  Forall (fun e => is_file_change e = true) (events (applyChange v c w)).
Proof.
  unfold applyChange, final, events.
  destruct (rtype c); run_M.
  - destruct (decodeEditSessionFileContent v (rcontents c)); simpl; [|by split].
    destruct (fs_writeFile (fileService w) (uri c) a); simpl.
    split; [done|by repeat constructor].
  - destruct (fs_exists (fileService w) (uri c)); simpl; [|by split].
    destruct (fs_del (fileService w) (uri c)); simpl.
    split; [done|by repeat constructor].
  - by split.
Qed.

Lemma applyChanges_frame v changes (w : World FS RS) :
  storage (final (applyChanges v changes w)) = storage w /\
  Forall (fun e => is_file_change e = true) (events (applyChanges v changes w)).
Proof.
  revert w. induction changes as [|c changes IH]; intros w; simpl.
  - by split.
  - unfold mbind, M_bind.
    destruct (applyChange_frame v c w) as [Hs He].
    destruct (applyChange v c w) as [[w1 e1] [[]|e]]; simpl in *; [|by split].
    destruct (IH w1) as [Hs' He'].
    destruct (applyChanges v changes w1) as [[w2 e2] r]; simpl in *.
    unfold final, events in *; simpl in *.
    split; [congruence|by apply Forall_app].
Qed.

(** After a successful pass over [changes], every addition has been handed
    to [writeFile] with its decoded contents. *)
Lemma applyChanges_ok_written v changes (w w' : World FS RS) evs c :
  applyChanges v changes w = (w', evs, Ok tt) ->
  c ∈ changes -> rtype c = Addition ->
  exists value, decodeEditSessionFileContent v (rcontents c) = Ok value /\
                WriteFile (uri c) value ∈ evs.
Proof.
  revert w evs. induction changes as [|d changes IH]; intros w evs; simpl.
  - by intros _ ?%elem_of_nil.
  - unfold mbind, M_bind.
    destruct (applyChange v d w) as [[w1 e1] [[]|e]] eqn:Hd; [|done].
    destruct (applyChanges v changes w1) as [[w2 e2] r] eqn:Hrest.
    intros [= -> <- ->] [<-|Hin]%elem_of_cons Hty.
    + unfold applyChange in Hd. rewrite Hty in Hd. revert Hd. run_M.
      destruct (decodeEditSessionFileContent v (rcontents c)) as [value|]; [|done].
      destruct (fs_writeFile (fileService w) (uri c) value); simpl.
      intros [= _ <- _]. exists value. split; [done|]. apply elem_of_app. left. by left.
    + destruct (IH _ _ Hrest Hin Hty) as (value & Hdec & Hw).
      exists value. split; [done|]. apply elem_of_app. by right.
Qed.

Lemma applyAndDelete_run s r changes (w : World FS RS) :
  applyAndDelete s r changes w =
  match applyChanges (version s) changes w with
  | (w2, aevs, Ok _) =>
      let '(rs', res) := storage_delete (storage w2) r in
      (mkWorld (fileService w2) rs',
       aevs ++ LogInfo (DeletingAfterApply r) :: StorageDelete r ::
         match res with Ok _ => [LogInfo (Deleted r)] | Throw _ => [] end,
       res)
  | (w2, aevs, Throw e) => (w2, aevs, Throw e)
  end.
Proof.
  unfold applyAndDelete. run_M.
  destruct (applyChanges (version s) changes w) as [[w2 aevs] [[]|e]]; [|done].
  destruct (storage_delete (storage w2) r) as [rs' [[]|e]]; done.
Qed.

Lemma tryResume_run s r force (w : World FS RS) :
  tryResume wb s r force w =
  match generateChanges wb (fileService w) s r force with
  | (gevs, Ok (changes, conflicting)) =>
      if Nat.eqb (length changes) 0 then (w, gevs, Ok tt)
      else if Nat.ltb 0 (length conflicting) then
        if Nat.eqb (dialogChoice wb conflicting) 0
        then (w, gevs ++ [DialogShow (map uri conflicting)], Ok tt)
        else let '(w2, aevs, res) := applyAndDelete s r changes w in
             (w2, gevs ++ DialogShow (map uri conflicting) :: aevs, res)
      else let '(w2, aevs, res) := applyAndDelete s r changes w in
           (w2, gevs ++ aevs, res)
  | (gevs, Throw e) => (w, gevs, Throw e)
  end.
Proof.
  unfold tryResume. run_M.
  destruct (generateChanges wb (fileService w) s r force) as [gevs [[changes conflicting]|e]];
    [|done].
  destruct (Nat.eqb (length changes) 0); [by rewrite app_nil_r|].
  destruct (Nat.ltb 0 (length conflicting)); simpl.
  - destruct (Nat.eqb (dialogChoice wb conflicting) 0); simpl; [done|].
    by destruct (applyAndDelete s r changes w) as [[w2 aevs] res].
  - by destruct (applyAndDelete s r changes w) as [[w2 aevs] res].
Qed.

Lemma resumeEditSession_reached ref silent force (w : World FS RS) s r :
  workbenchState wb <> EMPTY ->
  (silent = true -> storage_initialize (storage w) false true = true) ->
  storage_read (storage w) ref = Some (s, r) ->
  resumeEditSession wb ref silent force w =
  if version s >? EditSessionSchemaVersion
  then (w, [LogInfo (Resuming ref); NotifyError client_too_old], Ok tt)
  else
    match tryResume wb s r force w with
    | (w1, e1, Ok _) => (w1, LogInfo (Resuming ref) :: e1, Ok tt)
    | (w1, e1, Throw ex) =>
        (w1, LogInfo (Resuming ref) :: e1 ++
               [LogError (FailedToResume ex); NotifyError resume_failed], Ok tt)
    end.
Proof.
  intros Hstate Hinit Hread. unfold resumeEditSession.
  assert (forall A (x y : A),
            match workbenchState wb with EMPTY => x | _ => y end = y) as ->
    by (intros; by destruct (workbenchState wb)).
  run_M.
  destruct silent; simpl; [rewrite Hinit by done; simpl|];
    rewrite Hread;
    (destruct (version s >? EditSessionSchemaVersion); [done|]);
    destruct (tryResume wb s r force w) as [[w1 e1] [[]|ex]]; done.
Qed.

Lemma resumeEditSession_early ref silent force (w : World FS RS) :
  workbenchState wb = EMPTY \/
  (silent = true /\ storage_initialize (storage w) false true = false) \/
  storage_read (storage w) ref = None \/
  (exists s r, storage_read (storage w) ref = Some (s, r) /\
               (version s >? EditSessionSchemaVersion) = true) ->
  let run := resumeEditSession wb ref silent force w in
  final run = w /\ outcome run = Ok tt /\
  Forall (fun e => is_mutation e = false /\ is_file_change e = false) (events run).
Proof.
  intros Hearly. unfold resumeEditSession, final, events, outcome.
  destruct (workbenchState wb) eqn:Hst; [by repeat split| |];
    (destruct Hearly as [?|[[-> Hinit]|[Hread|(s & r & Hread & Hv)]]]; [done|..];
     run_M;
     [ rewrite Hinit; simpl; repeat split; repeat constructor
     | destruct silent; [destruct (storage_initialize (storage w) false true)|];
       simpl; rewrite ?Hread; destruct ref; simpl; repeat split; repeat constructor
     | destruct silent; [destruct (storage_initialize (storage w) false true)|];
       simpl; rewrite ?Hread, ?Hv; simpl; repeat split; repeat constructor ]).
Qed.

Lemma resumeEditSession_dichotomy ref silent (w : World FS RS) :
  (workbenchState wb = EMPTY \/
   (silent = true /\ storage_initialize (storage w) false true = false) \/
   storage_read (storage w) ref = None \/
   (exists s r, storage_read (storage w) ref = Some (s, r) /\
                (version s >? EditSessionSchemaVersion) = true)) \/
  (exists s r,
     workbenchState wb <> EMPTY /\
     (silent = true -> storage_initialize (storage w) false true = true) /\
     storage_read (storage w) ref = Some (s, r) /\
     (version s >? EditSessionSchemaVersion) = false).
Proof.
  assert (workbenchState wb = EMPTY \/ workbenchState wb <> EMPTY) as [|Hst]
    by (destruct (workbenchState wb); auto);
    [by left; left|].
  destruct silent eqn:Hsil.
  - destruct (storage_initialize (storage w) false true) eqn:Hinit;
      [|left; right; left; done].
    destruct (storage_read (storage w) ref) as [[s r]|] eqn:Hread; [|by left; right; right; left].
    destruct (version s >? EditSessionSchemaVersion) eqn:Hv.
    + left. right. right. right. by exists s, r.
    + right. by exists s, r.
  - destruct (storage_read (storage w) ref) as [[s r]|] eqn:Hread; [|by left; right; right; left].
    destruct (version s >? EditSessionSchemaVersion) eqn:Hv.
    + left. right. right. right. by exists s, r.
    + right. by exists s, r.
Qed.

(** C1: when the session read from the store has a version above
    [EditSessionSchemaVersion], the run changes nothing (the file service
    and the store are as before and no writeFile, del or delete call is
    made), and, once the run gets to read it, all it does is show the
    "client too old" error. *)
Theorem resume_rejects_newer_version (w : World FS RS) (ref : option string)
    (silent force : bool) (s : EditSession) (r : string) :
  storage_read (storage w) ref = Some (s, r) ->
  version s > EditSessionSchemaVersion ->
  let run := resumeEditSession wb ref silent force w in
  final run = w /\ no_mutation (events run) /\ outcome run = Ok tt /\
  (workbenchState wb <> EMPTY ->
   (silent = true -> storage_initialize (storage w) false true = true) ->
   events run = [LogInfo (Resuming ref); NotifyError client_too_old]).
Proof.
  intros Hread Hv run.
  assert ((version s >? EditSessionSchemaVersion) = true) as Hgt by (apply Z.gtb_lt; lia).
  destruct (resumeEditSession_early ref silent force w) as (Hw & Hres & Hev).
  { right. right. right. by exists s, r. }
  repeat split; [done| |done|].
  - eapply Forall_impl; [exact Hev|]. by intros e [? _].
  - intros Hst Hinit. subst run.
    by rewrite (resumeEditSession_reached _ _ _ _ s r Hst Hinit Hread), Hgt.
Qed.

Ltac forall_events :=
  repeat first
    [ assumption
    | by apply Forall_nil
    | apply Forall_cons; split; [done|]
    | apply Forall_app; split
    | (eapply Forall_impl; [eassumption|]; by intros []) ].

Ltac not_in_list H :=
  repeat first
    [ apply elem_of_cons in H as [H|H]; [discriminate H|]
    | destruct H as [H|H]; [discriminate H|] ];
  by apply elem_of_nil in H.

Lemma not_elem_of_storage_delete evs r :
  Forall (fun e => is_storage_delete e = false) evs -> StorageDelete r ∉ evs.
Proof. intros Hall Hin. by eapply Forall_forall in Hall; [|exact Hin]. Qed.

(** A run either leaves the store alone, or has the shape: reconciliation,
    then every change applied, then the deletion. *)
Lemma resumeEditSession_delete_shape ref silent force (w : World FS RS) :
  let run := resumeEditSession wb ref silent force w in
  (storage (final run) = storage w /\
   Forall (fun e => is_storage_delete e = false) (events run)) \/
  (exists s r gevs changes conflicting w2 aevs pre post,
     storage_read (storage w) ref = Some (s, r) /\
     generateChanges wb (fileService w) s r force = (gevs, Ok (changes, conflicting)) /\
     applyChanges (version s) changes w = (w2, aevs, Ok tt) /\
     events run = pre ++ aevs ++ LogInfo (DeletingAfterApply r) :: StorageDelete r :: post /\
     no_mutation pre /\ no_mutation post).
Proof.
  intros run. subst run.
  destruct (resumeEditSession_dichotomy ref silent w)
    as [Hearly|(s & r & Hst & Hinit & Hread & Hv)].
  { left. destruct (resumeEditSession_early ref silent force w Hearly) as (-> & _ & Hev).
    split; [done|]. eapply Forall_impl; [exact Hev|]. by intros [] []. }
  rewrite (resumeEditSession_reached _ _ _ _ s r Hst Hinit Hread), Hv, tryResume_run.
  pose proof (generateChanges_report (fileService w) s r force) as Hrep.
  destruct (generateChanges wb (fileService w) s r force)
    as [gevs [[changes conflicting]|e]] eqn:Hgen; simpl in Hrep;
    [|left; unfold final, events; simpl; split; [done|forall_events]].
  destruct (Nat.eqb (length changes) 0);
    [left; unfold final, events; simpl; split; [done|forall_events]|].
  destruct (applyChanges_frame (version s) changes w) as [Hsto Hfile].
  assert (Hrun : forall mid, no_mutation mid ->
            Forall (fun e => is_storage_delete e = false) mid ->
            let run :=
              match (let '(w2, aevs, res) := applyAndDelete s r changes w in
                     (w2, gevs ++ mid ++ aevs, res)) with
              | (w1, e1, Ok _) => (w1, LogInfo (Resuming ref) :: e1, Ok tt)
              | (w1, e1, Throw ex) =>
                  (w1, LogInfo (Resuming ref) :: e1 ++
                         [LogError (FailedToResume ex); NotifyError resume_failed], Ok tt)
              end in
            (storage (final run) = storage w /\
             Forall (fun e => is_storage_delete e = false) (events run)) \/
            (exists s0 r0 gevs0 changes0 conflicting0 w2 aevs pre post,
               storage_read (storage w) ref = Some (s0, r0) /\
               generateChanges wb (fileService w) s0 r0 force
                 = (gevs0, Ok (changes0, conflicting0)) /\
               applyChanges (version s0) changes0 w = (w2, aevs, Ok tt) /\
               events run
                 = pre ++ aevs ++ LogInfo (DeletingAfterApply r0) :: StorageDelete r0 :: post /\
               no_mutation pre /\ no_mutation post)).
  { intros mid Hmid Hmid'. rewrite applyAndDelete_run.
    destruct (applyChanges (version s) changes w) as [[w2 aevs] [[]|e]] eqn:Happ;
      unfold final, events in Hsto, Hfile |- *; simpl in Hsto, Hfile.
    - right. exists s, r, gevs, changes, conflicting, w2, aevs,
        (LogInfo (Resuming ref) :: gevs ++ mid).
      destruct (storage_delete (storage w2) r) as [rs' [[]|e]]; simpl.
      + exists [LogInfo (Deleted r)].
        split_and!; [done|done|done| | |by repeat constructor].
        * by rewrite <- !app_assoc.
        * unfold no_mutation in *. forall_events.
      + exists [LogError (FailedToResume e); NotifyError resume_failed].
        split_and!; [done|done|done| | |by repeat constructor].
        * by rewrite <- !app_assoc.
        * unfold no_mutation in *. forall_events.
    - left. simpl. split; [done|]. forall_events. }
  destruct (Nat.ltb 0 (length conflicting)).
  - destruct (Nat.eqb (dialogChoice wb conflicting) 0).
    + left. unfold final, events; simpl. split; [done|forall_events].
    + specialize (Hrun [DialogShow (map uri conflicting)]).
      simpl in Hrun. apply Hrun; by repeat constructor.
  - specialize (Hrun []). simpl in Hrun. apply Hrun; by constructor.
Qed.

(** C3: in every run of [resumeEditSession], a call of the store's
    [delete] comes after [generateChanges] has returned and the loop over
    all its changes has returned without an exception (each addition handed
    to [writeFile]), and nothing is written or deleted after it; without
    such a call the store is as it was; and when the loop over the changes
    throws, [delete] is never called and the store is as it was. *)
Theorem remote_deleted_only_after_apply (w : World FS RS)
    (ref : option string) (silent force : bool) :
  let run := resumeEditSession wb ref silent force w in
  (forall r, StorageDelete r ∈ events run ->
     exists s gevs changes conflicting w2 aevs pre post,
       storage_read (storage w) ref = Some (s, r) /\
       generateChanges wb (fileService w) s r force = (gevs, Ok (changes, conflicting)) /\
       applyChanges (version s) changes w = (w2, aevs, Ok tt) /\
       (forall c, c ∈ changes -> rtype c = Addition ->
          exists value, WriteFile (uri c) value ∈ aevs) /\
       events run = pre ++ aevs ++ LogInfo (DeletingAfterApply r) :: StorageDelete r :: post /\
       no_mutation pre /\ no_mutation post) /\
  ((forall r, StorageDelete r ∉ events run) -> storage (final run) = storage w) /\
  (forall s r gevs changes conflicting w2 aevs e,
     storage_read (storage w) ref = Some (s, r) ->
     generateChanges wb (fileService w) s r force = (gevs, Ok (changes, conflicting)) ->
     applyChanges (version s) changes w = (w2, aevs, Throw e) ->
     storage (final run) = storage w /\ forall r', StorageDelete r' ∉ events run).
Proof.
  intros run.
  destruct (resumeEditSession_delete_shape ref silent force w)
    as [[Hsto Hnone]|(s & r & gevs & changes & conflicting & w2 & aevs & pre & post
                      & Hread & Hgen & Happ & Hev & Hpre & Hpost)];
    fold run in Hsto, Hnone || fold run in Hev.
  - split_and!.
    + intros r Hin. by apply not_elem_of_storage_delete with (r := r) in Hnone.
    + done.
    + intros. split; [done|]. intros r'. by apply not_elem_of_storage_delete.
  - assert (Hin : StorageDelete r ∈ events run).
    { rewrite Hev, !elem_of_app. right. right. right. left. }
    split_and!.
    + intros r' Hin'. exists s, gevs, changes, conflicting, w2, aevs, pre, post.
      assert (r' = r) as ->.
      { rewrite Hev, !elem_of_app, !elem_of_cons in Hin'.
        destruct (applyChanges_frame (version s) changes w) as [_ Hfile].
        rewrite Happ in Hfile. unfold events in Hfile; simpl in Hfile.
        destruct Hin' as [Hin'|[Hin'|[?|[[= ->]|Hin']]]]; [| |done|done|].
        - by eapply Forall_forall in Hpre; [|exact Hin'].
        - by eapply Forall_forall in Hfile; [|exact Hin'].
        - by eapply Forall_forall in Hpost; [|exact Hin']. }
      split_and!; try done.
      intros c Hc Hty.
      destruct (applyChanges_ok_written _ _ _ _ _ c Happ Hc Hty) as (value & _ & Hw).
      by exists value.
    + intros Hnone. by destruct (Hnone r).
    + intros s' r' gevs' changes' conflicting' w2' aevs' e Hread' Hgen' Happ'.
      rewrite Hread in Hread'. injection Hread' as <- <-.
      rewrite Hgen in Hgen'. injection Hgen' as <- <- <-.
      rewrite Happ in Happ'. discriminate.
Qed.

(** C4: when [generateChanges] returns a non-empty [conflictingChanges],
    the overwrite dialog is shown before any call that changes a file or
    the store; and when the user picks Cancel (choice 0) the run ends
    there: nothing follows the dialog and the file service and the store
    are as before. *)
Theorem conflicts_ask_before_mutation (w : World FS RS) (ref : option string)
    (silent force : bool) (s : EditSession) (r : string) (gevs : list Event)
    (changes conflicting : list ResolvedChange) :
  workbenchState wb <> EMPTY ->
  (silent = true -> storage_initialize (storage w) false true = true) ->
  storage_read (storage w) ref = Some (s, r) ->
  version s <= EditSessionSchemaVersion ->
  generateChanges wb (fileService w) s r force = (gevs, Ok (changes, conflicting)) ->
  conflicting <> [] ->
  let run := resumeEditSession wb ref silent force w in
  exists post,
    events run
      = (LogInfo (Resuming ref) :: gevs) ++ DialogShow (map uri conflicting) :: post /\
    no_mutation (LogInfo (Resuming ref) :: gevs) /\
    (dialogChoice wb conflicting = 0%nat -> post = [] /\ final run = w).
Proof.
  intros Hst Hinit Hread Hv Hgen Hne run. subst run.
  assert ((version s >? EditSessionSchemaVersion) = false) as Hgt
    by (rewrite Z.gtb_ltb; apply Z.ltb_ge; lia).
  rewrite (resumeEditSession_reached _ _ _ _ s r Hst Hinit Hread), Hgt, tryResume_run.
  pose proof (generateChanges_report (fileService w) s r force) as Hrep.
  pose proof (generateChanges_sublist _ _ _ _ _ _ _ Hgen) as Hsub%sublist_length.
  rewrite Hgen in Hrep |- *. simpl in Hrep.
  assert (0 < length conflicting)%nat as Hlen by (destruct conflicting; [done|simpl; lia]).
  assert (Nat.eqb (length changes) 0 = false) as -> by (apply Nat.eqb_neq; lia).
  assert (Nat.ltb 0 (length conflicting) = true) as -> by (by apply Nat.ltb_lt).
  assert (Hquiet : no_mutation (LogInfo (Resuming ref) :: gevs)).
  { unfold no_mutation. forall_events. }
  destruct (Nat.eqb (dialogChoice wb conflicting) 0) eqn:Hch.
  - exists []. unfold events, final; simpl. split_and!; done.
  - apply Nat.eqb_neq in Hch.
    destruct (applyAndDelete s r changes w) as [[w2 aevs] [[]|ex]];
      unfold events, final; simpl.
    + exists aevs. split_and!; done.
    + exists (aevs ++ [LogError (FailedToResume ex); NotifyError resume_failed]).
      split_and!; [by rewrite <- app_assoc|done|done].
Qed.

(** ** A folder of the session that is not open locally *)





(** ** [storeEditSession] *)

Lemma collectWorkingChanges_stored fs uris name hasEdits acc evs name' hasEdits' wcs :
  Forall (stored_change fs) acc ->
  collectWorkingChanges wb fs uris name hasEdits acc = (evs, Ok (name', hasEdits', wcs)) ->
  Forall (stored_change fs) wcs.
Proof.
  revert name hasEdits acc evs.
  induction uris as [|u uris IH]; intros name hasEdits acc evs Hacc; simpl.
  - by intros [= _ _ _ <-].
  - destruct (getWorkspaceFolder wb u) as [wf|].
    + assert (Hadd : forall value, fs_readFile fs u = Ok value ->
                Forall (stored_change fs)
                  (acc ++ [mkChange Addition File
                             (default (uri_path u) (relativePath (wf_uri wf) u))
                             (Some (encodeBase64 value))])).
      { intros value Hread. apply Forall_app. split; [done|].
        apply Forall_singleton. left. split; [done|]. by exists u, value. }
      assert (Hdel : Forall (stored_change fs)
                  (acc ++ [mkChange Deletion File
                             (default (uri_path u) (relativePath (wf_uri wf) u)) None])).
      { apply Forall_app. split; [done|]. apply Forall_singleton. by right. }
      destruct (fs_stat fs u) as [[|]|e]; [| by apply IH |];
        (destruct (fs_exists fs u);
         [destruct (fs_readFile fs u) as [value|e'] eqn:Hread; [|done]|];
         eapply IH; eauto).
    + destruct (collectWorkingChanges wb fs uris name hasEdits acc) as [evs' r] eqn:Hrec.
      intros [= _ ->]. by eapply IH.
Qed.

Lemma collectFolders_stored fs repos acc hasEdits evs folders' hasEdits' :
  Forall (fun folder => Forall (stored_change fs) (workingChanges folder)) acc ->
  collectFolders wb fs repos acc hasEdits = (evs, Ok (folders', hasEdits')) ->
  Forall (fun folder => Forall (stored_change fs) (workingChanges folder)) folders'.
Proof.
  revert acc hasEdits evs.
  induction repos as [|repo repos IH]; intros acc hasEdits evs Hacc; simpl.
  - by intros [= _ <- _].
  - destruct (collectWorkingChanges wb fs _ _ _ _) as [cevs [[[name' he] wcs]|e]] eqn:Hc;
      [|done].
    destruct (collectFolders wb fs repos _ he) as [evs' r] eqn:Hrec.
    intros [= _ ->]. eapply IH; [|exact Hrec].
    apply Forall_app. split; [done|]. apply Forall_singleton. simpl.
    eapply collectWorkingChanges_stored; [|exact Hc]. constructor.
Qed.

Lemma stored_change_invariant fs c : stored_change fs c -> change_invariant c.
Proof.
  intros [[Hty (u & value & _ & Hc)]|[Hty Hc]]; unfold change_invariant;
    rewrite Hty, Hc; (split; [split|]); done.
Qed.

Lemma collectWorkingChanges_report fs uris name hasEdits acc :
  Forall (fun e => is_report e = true)
         (collectWorkingChanges wb fs uris name hasEdits acc).1.
Proof.
  revert name hasEdits acc.
  induction uris as [|u uris IH]; intros name hasEdits acc; simpl; [constructor|].
  destruct (getWorkspaceFolder wb u) as [wf|].
  - destruct (fs_stat fs u) as [[|]|e]; [|apply IH|];
      (destruct (fs_exists fs u);
       [destruct (fs_readFile fs u); [apply IH|constructor]|apply IH]).
  - specialize (IH name hasEdits acc).
    destruct (collectWorkingChanges wb fs uris name hasEdits acc). simpl in *.
    by constructor.
Qed.

Lemma collectFolders_report fs repos acc hasEdits :
  Forall (fun e => is_report e = true) (collectFolders wb fs repos acc hasEdits).1.
Proof.
  revert acc hasEdits.
  induction repos as [|repo repos IH]; intros acc hasEdits; simpl; [constructor|].
  pose proof (collectWorkingChanges_report fs (getChangedResources repo)
                (wf_name <$> match rootUri (provider repo) with
                             | Some root => getWorkspaceFolder wb root
                             | None => None
                             end) hasEdits []) as Hc.
  destruct (collectWorkingChanges wb fs _ _ _ _) as [cevs [[[name' he] wcs]|e]];
    simpl in Hc; [|done].
  match goal with |- context [collectFolders wb fs repos ?a ?h] =>
    specialize (IH a h); destruct (collectFolders wb fs repos a h) end.
  simpl in *. by apply Forall_app.
Qed.

(** The session handed to the store's [write] is version 2 with the
    folders collected after [saveAll], and edits were found. *)
Lemma storeEditSession_written (w : World FS RS) fromStoreCommand data :
  StorageWrite data ∈ events (storeEditSession wb fromStoreCommand w) ->
  exists evs folders,
    collectFolders wb (fs_saveAll (fileService w)) (repositories wb) [] false
      = (evs, Ok (folders, true)) /\
    data = mkEditSession 2 folders.
Proof.
  unfold storeEditSession, saveAll, storageWrite, events. run_M.
  pose proof (collectFolders_report (fs_saveAll (fileService w)) (repositories wb) [] false)
    as Hrep.
  destruct (collectFolders wb (fs_saveAll (fileService w)) (repositories wb) [] false)
    as [evs [[folders hasEdits]|e]] eqn:Hc; simpl in Hrep |- *.
  - assert (Hevs : StorageWrite data ∉ evs).
    { intros Hin. by eapply Forall_forall in Hrep; [|exact Hin]. }
    destruct hasEdits; simpl.
    + destruct (storage_write (storage w) (mkEditSession 2 folders)) as [rs' [ref|e]]; simpl.
      * rewrite !elem_of_cons, !elem_of_app, !elem_of_cons.
        intros [?|[Hin|[?|[[= ->]|[?|?%elem_of_nil]]]]]; try done.
        by exists evs, folders.
      * destruct e as [|[]|]; simpl;
          rewrite !elem_of_cons, !elem_of_app, !elem_of_cons;
          intros [?|[Hin|[?|[[= ->]|Hin]]]]; try done;
          try (by exists evs, folders); not_in_list Hin.
    + destruct fromStoreCommand; simpl;
        rewrite elem_of_cons, elem_of_app;
        (intros [?|[?|Hin]]; [done|done|not_in_list Hin]).
  - intros [?|Hin]%elem_of_cons; [done|].
    by eapply Forall_forall in Hrep; [|exact Hin].
Qed.

(** C9: every change of a session that [storeEditSession] hands to the
    store has contents exactly when it is an addition, the contents of an
    addition being the base64 encoding of bytes read from a file; a
    deletion has none; and no other type occurs. *)
Theorem stored_changes_satisfy_invariant (w : World FS RS) (fromStoreCommand : bool)
    (data : EditSession) (folder : Folder) (c : Change) :
  StorageWrite data ∈ events (storeEditSession wb fromStoreCommand w) ->
  folder ∈ folders data ->
  c ∈ workingChanges folder ->
  change_invariant c /\
  (type c = Addition \/ type c = Deletion) /\
  (type c = Addition -> exists value, contents c = Some (encodeBase64 value)).
Proof.
  intros (evs & fds & Hc & ->)%storeEditSession_written Hfolder Hchange.
  apply collectFolders_stored in Hc; [|constructor].
  eapply Forall_forall in Hc; [|exact Hfolder].
  eapply Forall_forall in Hc; [|exact Hchange].
  split; [by eapply stored_change_invariant|].
  destruct Hc as [[Hty (u & value & _ & Hcont)]|[Hty Hcont]].
  - split; [by left|]. intros _. by exists value.
  - split; [by right|]. by rewrite Hty.
Qed.

End Properties.

(** * More of the contribution *)

Section MoreProperties.

Context {FS RS : Type}.
Context `{PF : Platform} `{FSrv : FileService FS} `{SSrv : EditSessionsStorageService RS}.
Variable wb : Workbench.

Ltac unfold_M :=
  unfold mbind, M_bind, mret, M_ret, emit, liftW, liftResult, tryCatch,
    writeFile, del, fileExists, saveAll, storageInitialize, storageRead,
    storageDelete, storageWrite;
  simpl.

(** [H : e ∈ l] for a list [l] that is written out and holds no event like
    [e]. *)
Ltac absent H :=
  repeat first
    [ apply elem_of_cons in H as [H|H]; [discriminate H|]
    | destruct H as [H|H]; [discriminate H|] ];
  by apply elem_of_nil in H.

(** ** The set of changed resources *)

Lemma SetURI_has_true (s : SetURI) (u : URI) :
  SetURI_has s u = true <-> exists v, v ∈ s /\ uri_obj v = uri_obj u.
Proof.
  unfold SetURI_has. rewrite existsb_exists. split.
  - intros (v & Hv & Heq%Nat.eqb_eq). exists v. split; [by apply list_elem_of_In|done].
  - intros (v & Hv & Heq). exists v. split; [by apply list_elem_of_In|by apply Nat.eqb_eq].
Qed.

Lemma elem_of_SetURI_add (s : SetURI) (u v : URI) :
  v ∈ SetURI_add s u <-> v ∈ s \/ (v = u /\ SetURI_has s u = false).
Proof.
  unfold SetURI_add. destruct (SetURI_has s u).
  - split; [by left|]. by intros [?|[_ ?]].
  - rewrite elem_of_app, list_elem_of_singleton. split; intros [?|?]; auto.
    + right. by destruct H.
Qed.

Lemma addAll_sound (rs : list ISCMResource) (acc : SetURI) (v : URI) :
  v ∈ fold_left (fun rs resource => SetURI_add rs (sourceUri resource)) rs acc ->
  v ∈ acc \/ exists r, r ∈ rs /\ sourceUri r = v.
Proof.
  revert acc. induction rs as [|r rs IH]; intros acc; simpl; [by left|].
  intros [[Hv|[-> _]]%elem_of_SetURI_add|(r' & Hr' & Heq)]%IH.
  - by left.
  - right. exists r. split; [left|done].
  - right. exists r'. split; [by right|done].
Qed.

Lemma addAll_mono (rs : list ISCMResource) (acc : SetURI) (v : URI) :
  v ∈ acc ->
  v ∈ fold_left (fun rs resource => SetURI_add rs (sourceUri resource)) rs acc.
Proof.
  revert acc. induction rs as [|r rs IH]; intros acc Hv; simpl; [done|].
  apply IH, elem_of_SetURI_add. by left.
Qed.

Lemma addAll_complete (rs : list ISCMResource) (acc : SetURI) (r : ISCMResource) :
  r ∈ rs ->
  exists v, v ∈ fold_left (fun rs resource => SetURI_add rs (sourceUri resource)) rs acc /\
            uri_obj v = uri_obj (sourceUri r).
Proof.
  revert acc. induction rs as [|r0 rs IH]; intros acc; [by intros ?%elem_of_nil|].
  intros [->|Hin]%elem_of_cons; simpl; [|by apply IH].
  destruct (SetURI_has acc (sourceUri r0)) eqn:Hhas.
  - apply SetURI_has_true in Hhas as (v & Hv & Heq). exists v. split; [|done].
    apply addAll_mono, elem_of_SetURI_add. by left.
  - exists (sourceUri r0). split; [|done].
    apply addAll_mono, elem_of_SetURI_add. by right.
Qed.

Lemma getChangedResources_sound (repository : ISCMRepository) (v : URI) :
  v ∈ getChangedResources repository ->
  exists g r, g ∈ groups (provider repository) /\ r ∈ elements g /\ sourceUri r = v.
Proof.
  unfold getChangedResources.
  assert (Hgen : forall gs acc,
            v ∈ fold_left
                  (fun resources resourceGroups =>
                     fold_left (fun rs resource => SetURI_add rs (sourceUri resource))
                               (elements resourceGroups) resources) gs acc ->
            v ∈ acc \/ exists g r, g ∈ gs /\ r ∈ elements g /\ sourceUri r = v).
  { induction gs as [|g gs IH]; intros acc; simpl; [by left|].
    intros [[Hv|(r & Hr & Heq)]%addAll_sound|(g' & r & Hg & Hr & Heq)]%IH.
    - by left.
    - right. exists g, r. split; [left|done].
    - right. exists g', r. split; [by right|done]. }
  intros [?%elem_of_nil|?]%Hgen; done.
Qed.

Lemma getChangedResources_complete (repository : ISCMRepository)
    (g : ISCMResourceGroup) (r : ISCMResource) :
  g ∈ groups (provider repository) -> r ∈ elements g ->
  exists v, v ∈ getChangedResources repository /\ uri_obj v = uri_obj (sourceUri r).
Proof.
  unfold getChangedResources.
  assert (Hmono : forall gs acc v, v ∈ acc ->
            v ∈ fold_left
                  (fun resources resourceGroups =>
                     fold_left (fun rs resource => SetURI_add rs (sourceUri resource))
                               (elements resourceGroups) resources) gs acc).
  { induction gs as [|g0 gs IH]; intros acc v Hv; simpl; [done|].
    by apply IH, addAll_mono. }
  generalize (@nil URI) as acc.
  induction (groups (provider repository)) as [|g0 gs IH]; intros acc;
    [by intros ?%elem_of_nil|].
  intros [->|Hg]%elem_of_cons Hr; simpl; [|by apply IH].
  destruct (addAll_complete (elements g0) acc r Hr) as (v & Hv & Heq).
  exists v. split; [by apply Hmono|done].
Qed.

Lemma getChangedResources_empty (repository : ISCMRepository) :
  getChangedResources repository = [] <->
  forall g, g ∈ groups (provider repository) -> elements g = [].
Proof.
  split.
  - intros Hempty g Hg. destruct (elements g) as [|r rs] eqn:Hel; [done|].
    destruct (getChangedResources_complete repository g r Hg) as (v & Hv & _).
    { rewrite Hel. left. }
    rewrite Hempty in Hv. by apply elem_of_nil in Hv.
  - intros Hall. destruct (getChangedResources repository) as [|v vs] eqn:Hres; [done|].
    destruct (getChangedResources_sound repository v) as (g & r & Hg & Hr & _).
    { rewrite Hres. left. }
    rewrite (Hall g Hg) in Hr. by apply elem_of_nil in Hr.
Qed.

(** X1: [hasEditSession] answers [true] exactly when some group of some
    repository holds a resource. *)
Theorem hasEditSession_iff :
  hasEditSession wb = true <->
  exists repository g r,
    repository ∈ repositories wb /\ g ∈ groups (provider repository) /\ r ∈ elements g.
Proof.
  unfold hasEditSession. rewrite existsb_exists. split.
  - intros (repository & Hrepo%list_elem_of_In & Hlen%Nat.ltb_lt).
    destruct (getChangedResources repository) as [|v vs] eqn:Hres; [simpl in Hlen; lia|].
    destruct (getChangedResources_sound repository v) as (g & r & Hg & Hr & _).
    { rewrite Hres. left. }
    by exists repository, g, r.
  - intros (repository & g & r & Hrepo & Hg & Hr).
    exists repository. split; [by apply list_elem_of_In|]. apply Nat.ltb_lt.
    destruct (getChangedResources_complete repository g r Hg Hr) as (v & Hv & _).
    destruct (getChangedResources repository); [by apply elem_of_nil in Hv|simpl; lia].
Qed.

(** ** The local changes a folder is checked against *)

Lemma elem_of_add_strings (us : list URI) (acc : gset string) (s : string) :
  s ∈ fold_left (fun acc change => {[ uri_toString change ]} ∪ acc) us acc <->
  s ∈ acc \/ exists u, u ∈ us /\ uri_toString u = s.
Proof.
  revert acc. induction us as [|u us IH]; intros acc; simpl.
  - split; [by left|]. by intros [?|(u & ?%elem_of_nil & _)].
  - rewrite IH, elem_of_union, elem_of_singleton. split.
    + intros [[->|?]|(u' & Hu' & Heq)].
      * right. exists u. split; [left|done].
      * by left.
      * right. exists u'. split; [by right|done].
    + intros [?|(u' & [->|Hu']%elem_of_cons & Heq)].
      * left. by right.
      * left. by left.
      * right. by exists u'.
Qed.

Lemma elem_of_localChangesOf_from (folder : Folder) (repos : list ISCMRepository)
    (acc : gset string) (s : string) :
  s ∈ fold_left
        (fun localChanges repository =>
           match rootUri (provider repository) with
           | Some root =>
               match getWorkspaceFolder wb root with
               | Some wf =>
                   if bool_decide (wf_name wf = name folder) then
                     fold_left (fun acc change => {[ uri_toString change ]} ∪ acc)
                               (getChangedResources repository) localChanges
                   else localChanges
               | None => localChanges
               end
           | None => localChanges
           end) repos acc <->
  s ∈ acc \/
  exists repository u, repository ∈ repos /\ repositoryOfFolder wb folder repository /\
                       u ∈ getChangedResources repository /\ uri_toString u = s.
Proof.
  revert acc. induction repos as [|repo repos IH]; intros acc; simpl.
  - split; [by left|]. by intros [?|(r & u & ?%elem_of_nil & _)].
  - rewrite IH. clear IH. unfold repositoryOfFolder.
    destruct (rootUri (provider repo)) as [root|] eqn:Hroot.
    + destruct (getWorkspaceFolder wb root) as [wf|] eqn:Hwf.
      * case_bool_decide as Hname.
        -- rewrite elem_of_add_strings. split.
           ++ intros [[?|(u & Hu & Heq)]|(r & u & Hr & HP)].
              ** by left.
              ** right. exists repo, u. split; [left|]. split; [|done]. by exists root, wf.
              ** right. exists r, u. split; [by right|done].
           ++ intros [?|(r & u & [->|Hr]%elem_of_cons & HP & Hu & Heq)].
              ** left. by left.
              ** left. right. by exists u.
              ** right. by exists r, u.
        -- split.
           ++ intros [?|(r & u & Hr & HP)]; [by left|]. right. exists r, u.
              split; [by right|done].
           ++ intros [?|(r & u & [->|Hr]%elem_of_cons & HP & Hu & Heq)]; [by left| |].
              ** destruct HP as (root' & wf' & Hroot' & Hwf' & Hname').
                 congruence.
              ** right. by exists r, u.
      * split.
        -- intros [?|(r & u & Hr & HP)]; [by left|]. right. exists r, u.
           split; [by right|done].
        -- intros [?|(r & u & [->|Hr]%elem_of_cons & HP & Hu & Heq)]; [by left| |].
           ++ destruct HP as (root' & wf' & Hroot' & Hwf' & _). congruence.
           ++ right. by exists r, u.
    + split.
      * intros [?|(r & u & Hr & HP)]; [by left|]. right. exists r, u.
        split; [by right|done].
      * intros [?|(r & u & [->|Hr]%elem_of_cons & HP & Hu & Heq)]; [by left| |].
        -- destruct HP as (root' & wf' & Hroot' & _). congruence.
        -- right. by exists r, u.
Qed.

Lemma elem_of_localChangesOf (folder : Folder) (s : string) :
  s ∈ localChangesOf wb folder <->
  exists repository u,
    repository ∈ repositories wb /\ repositoryOfFolder wb folder repository /\
    u ∈ getChangedResources repository /\ uri_toString u = s.
Proof.
  unfold localChangesOf. rewrite elem_of_localChangesOf_from.
  split; [by intros [?%not_elem_of_empty|?]|by right].
Qed.

(** X3: a URI counts as locally changed for a folder of the session exactly
    when it prints like a changed resource of a repository whose root lies
    in a workspace folder that has the name of that folder of the session. *)
Theorem localChanges_are_those_of_same_named_folders (folder : Folder) (s : string) :
  s ∈ localChangesOf wb folder <->
  exists repository u,
    repository ∈ repositories wb /\ repositoryOfFolder wb folder repository /\
    u ∈ getChangedResources repository /\ uri_toString u = s.
Proof. apply elem_of_localChangesOf. Qed.

Lemma resolveWorkingChanges_all fs folder root wcs changes conflicting :
  Forall (fun change =>
            exists b, willChangeLocalContents fs (localChangesOf wb folder)
                        (joinPath (wf_uri root) (relativeFilePath change)) change = Ok b)
         wcs ->
  resolveWorkingChanges fs (localChangesOf wb folder) root wcs changes conflicting
  = Ok (changes ++ map (resolveChange root) wcs,
        conflicting ++
          map (resolveChange root) (List.filter (conflictsWith wb fs folder root) wcs)).
Proof.
  intros Hall. revert changes conflicting.
  induction Hall as [|c wcs [b Hb] _ IH]; intros changes conflicting; simpl.
  - by rewrite !app_nil_r.
  - unfold conflictsWith at 1. rewrite Hb. destruct b; rewrite IH; simpl;
      by rewrite <- !app_assoc.
Qed.

(** X4: a folder of the session whose name no repository's workspace folder
    has is never in conflict: whatever the files hold, every change is
    resolved, none is reported as conflicting, and no check throws.  This
    is also so when the folder was matched by identity to a local folder
    under another name. *)
Theorem folder_under_another_name_never_conflicts (folder : Folder) :
  (forall repository, repository ∈ repositories wb ->
     ~ repositoryOfFolder wb folder repository) ->
  forall (fs : FS) root changes conflicting,
    resolveWorkingChanges fs (localChangesOf wb folder) root (workingChanges folder)
      changes conflicting
    = Ok (changes ++ map (resolveChange root) (workingChanges folder), conflicting).
Proof.
  intros Hnone fs root changes conflicting.
  assert (Hout : forall s, s ∉ localChangesOf wb folder).
  { intros s (repo & u & Hrepo & Hof & _)%elem_of_localChangesOf. by apply (Hnone repo). }
  revert changes conflicting.
  induction (workingChanges folder) as [|c wcs IH]; intros changes conflicting; simpl.
  - by rewrite app_nil_r.
  - unfold willChangeLocalContents. rewrite bool_decide_eq_false_2 by apply Hout.
    rewrite IH. by rewrite <- app_assoc.
Qed.

(** ** The order of the scan *)

(** A scan that returns the head when it is acceptable and goes on with
    the tail otherwise returns the first acceptable element, and none when
    there is none. *)
Lemma first_acceptable {A} (P : A -> Prop) (scan : list A -> option A) :
  scan [] = None ->
  (forall g l, (P g /\ scan (g :: l) = Some g) \/ (~ P g /\ scan (g :: l) = scan l)) ->
  forall l,
    (forall f, scan l = Some f <->
       exists before after, l = before ++ f :: after /\ P f /\
                            forall g, g ∈ before -> ~ P g) /\
    (scan l = None <-> forall g, g ∈ l -> ~ P g).
Proof.
  intros Hnil Hstep l. induction l as [|g l [IHsome IHnone]].
  - split.
    + intros f. rewrite Hnil. split; [done|].
      intros (before & after & Heq & _). by destruct before.
    + rewrite Hnil. split; [|done]. by intros _ g ?%elem_of_nil.
  - destruct (Hstep g l) as [[Hg ->]|[Hg ->]].
    + split.
      * intros f. split.
        -- intros [= <-]. exists [], l. split_and!; [done|done|]. by intros ? ?%elem_of_nil.
        -- intros ([|g' before] & after & Heq & Hf & Hbefore);
             injection Heq as -> ->; [done|].
           exfalso. apply (Hbefore g'); [left|done].
      * split; [done|]. intros Hall. exfalso. apply (Hall g); [left|done].
    + split.
      * intros f. rewrite IHsome. split.
        -- intros (before & after & -> & Hf & Hbefore).
           exists (g :: before), after. split_and!; [done|done|].
           intros g0 [->|Hin]%elem_of_cons; [done|by apply Hbefore].
        -- intros ([|g' before] & after & Heq & Hf & Hbefore);
             injection Heq as -> ->; [done|].
           exists before, after. split_and!; [done|done|].
           intros g0 Hin. apply Hbefore. by right.
      * rewrite IHnone. split.
        -- intros Hall g0 [->|Hin]%elem_of_cons; [done|by apply Hall].
        -- intros Hall g0 Hin. apply Hall. by right.
Qed.

Lemma findByIdentity_step ref canonical force g l :
  (accepted_by_identity wb force canonical g /\
   (findByIdentity wb ref canonical force (g :: l)).2 = Some g) \/
  (~ accepted_by_identity wb force canonical g /\
   (findByIdentity wb ref canonical force (g :: l)).2
   = (findByIdentity wb ref canonical force l).2).
Proof.
  simpl. destruct (findByIdentity wb ref canonical force l) as [evs r].
  case_bool_decide as Hid; [left; split; [by left|done]|].
  destruct (getEditSessionIdentifier wb g) as [id|] eqn:Hg.
  - destruct (provideEditSessionIdentityMatch wb g id canonical) eqn:Hm.
    + left. split; [|done]. right. exists id. auto.
    + destruct (partialMatchesEnabled wb) eqn:Hp.
      * destruct force; simpl.
        -- left. split; [|done]. right. exists id. auto.
        -- right. split; [|done].
           intros [?|(id' & ? & [?|(_ & _ & ?)])]; congruence.
      * right. split; [|done]. intros [?|(id' & ? & [?|(_ & ? & _)])]; congruence.
    + right. split; [|done]. intros [?|(id' & ? & [?|(? & _)])]; congruence.
  - right. split; [|done]. intros [?|(id' & ? & _)]; congruence.
Qed.

Lemma find_by_name_step (folder : Folder) (g : IWorkspaceFolder) l :
  (wf_name g = name folder /\
   List.find (fun f => bool_decide (wf_name f = name folder)) (g :: l) = Some g) \/
  (wf_name g <> name folder /\
   List.find (fun f => bool_decide (wf_name f = name folder)) (g :: l)
   = List.find (fun f => bool_decide (wf_name f = name folder)) l).
Proof.
  simpl. case_bool_decide; [by left|by right].
Qed.

(** X5: [findFolderRoot] settles on the first local folder, in workspace
    order, that is acceptable (by identity when the folder of the session
    has a non-empty identity, by name otherwise): it returns [f] exactly
    when [f] is acceptable and no folder before it is, and it returns
    nothing exactly when no local folder is acceptable. *)
Theorem folder_root_is_first_in_workspace_order (ref : string) (force : bool)
    (folder : Folder) :
  (forall f,
     (findFolderRoot wb ref force folder).2 = Some f <->
     exists before after,
       workspaceFolders wb = before ++ f :: after /\
       acceptable wb force folder f /\
       forall g, g ∈ before -> ~ acceptable wb force folder g) /\
  ((findFolderRoot wb ref force folder).2 = None <->
   forall g, g ∈ workspaceFolders wb -> ~ acceptable wb force folder g).
Proof.
  unfold findFolderRoot, acceptable.
  destruct (canonicalIdentity folder) as [[|a c]|]; simpl.
  - apply (first_acceptable (fun g => wf_name g = name folder)
             (List.find (fun f => bool_decide (wf_name f = name folder)))); [done|].
    apply find_by_name_step.
  - apply (first_acceptable (accepted_by_identity wb force (String a c))
             (fun l => (findByIdentity wb ref (String a c) force l).2)); [done|].
    apply findByIdentity_step.
  - apply (first_acceptable (fun g => wf_name g = name folder)
             (List.find (fun f => bool_decide (wf_name f = name folder)))); [done|].
    apply find_by_name_step.
Qed.

(** ** Prompts *)

Lemma generateChangesFrom_prompt fs ref force fds changes conflicting r :
  PromptPartialMatch r ∈ (generateChangesFrom wb fs ref force fds changes conflicting).1 ->
  partialMatchesEnabled wb = true /\ force = false /\ r = ref.
Proof.
  revert changes conflicting.
  induction fds as [|folder fds IH]; intros changes conflicting; simpl;
    [by intros ?%elem_of_nil|].
  assert (Hroot : PromptPartialMatch r ∈ (findFolderRoot wb ref force folder).1 ->
                  partialMatchesEnabled wb = true /\ force = false /\ r = ref).
  { unfold findFolderRoot. repeat case_match; simpl;
      try (by intros ?%elem_of_nil); apply findByIdentity_prompt. }
  destruct (findFolderRoot wb ref force folder) as [fevs [root|]]; simpl in *.
  - destruct (resolveWorkingChanges _ _ _ _ _ _) as [[ch cf]|e]; [|done].
    specialize (IH ch cf).
    destruct (generateChangesFrom wb fs ref force fds ch cf) as [evs' res]. simpl in *.
    intros [?|?]%elem_of_app; auto.
  - intros [?|Hin]%elem_of_app; [auto|].
    by apply list_elem_of_singleton in Hin.
Qed.

(** X6: the partial-match prompt is shown only when the setting is on and the
    resume is not forced, and the action it offers resumes the same
    reference. *)
Theorem prompt_only_without_force (fs : FS) (s : EditSession) (ref : string)
    (force : bool) (r : string) :
  PromptPartialMatch r ∈ (generateChanges wb fs s ref force).1 ->
  partialMatchesEnabled wb = true /\ force = false /\ r = ref.
Proof. apply generateChangesFrom_prompt. Qed.

(** ** All folders open *)

Lemma generateChangesFrom_all fs ref force fds changes conflicting :
  (forall folder, folder ∈ fds ->
     is_Some (findFolderRoot wb ref force folder).2 /\
     conflictChecksReturn wb fs ref force folder) ->
  (generateChangesFrom wb fs ref force fds changes conflicting).2
  = Ok (changes ++ flat_map (resolvedOf wb ref force) fds,
        conflicting ++ flat_map (conflictsOf wb fs ref force) fds).
Proof.
  revert changes conflicting.
  induction fds as [|folder fds IH]; intros changes conflicting Hall; simpl.
  - by rewrite !app_nil_r.
  - destruct (Hall folder ltac:(left)) as [[root Hroot] Hchecks].
    unfold resolvedOf at 1, conflictsOf at 1. unfold conflictChecksReturn in Hchecks.
    destruct (findFolderRoot wb ref force folder) as [fevs r]. simpl in *. subst r.
    rewrite (resolveWorkingChanges_all fs folder root _ changes conflicting
               (Hchecks root eq_refl)).
    specialize (IH (changes ++ map (resolveChange root) (workingChanges folder))
                   (conflicting ++ map (resolveChange root)
                      (List.filter (conflictsWith wb fs folder root) (workingChanges folder)))).
    destruct (generateChangesFrom wb fs ref force fds _ _) as [evs' res]. simpl in *.
    rewrite IH by (intros; apply Hall; by right). by rewrite <- !app_assoc.
Qed.

(** X7: when every folder of the session matches a local folder and no
    conflict check throws, [generateChanges] returns, folder after folder
    and change after change, every working change bound to its local
    folder, and as conflicting those whose check answered [true]. *)
Theorem generateChanges_when_every_folder_matches (fs : FS) (s : EditSession)
    (ref : string) (force : bool) :
  (forall folder, folder ∈ folders s ->
     is_Some (findFolderRoot wb ref force folder).2 /\
     conflictChecksReturn wb fs ref force folder) ->
  (generateChanges wb fs s ref force).2
  = Ok (flat_map (resolvedOf wb ref force) (folders s),
        flat_map (conflictsOf wb fs ref force) (folders s)).
Proof. intros Hall. unfold generateChanges. by rewrite generateChangesFrom_all. Qed.

(** ** Applying changes *)

(** X8: changes are applied in order and the first failure ends the loop:
    applying [l1 ++ l2] is applying [l1] and then, if that went through,
    [l2] from where [l1] left the files; when [l1] throws, what it had
    written stays and [l2] is not touched. *)
Theorem applyChanges_app (v : Z) (l1 l2 : list ResolvedChange) (w : World FS RS) :
  applyChanges v (l1 ++ l2) w =
  match applyChanges v l1 w with
  | (w1, e1, Ok _) =>
      let '(w2, e2, r) := applyChanges v l2 w1 in (w2, e1 ++ e2, r)
  | (w1, e1, Throw e) => (w1, e1, Throw e)
  end.
Proof.
  revert w. induction l1 as [|c l1 IH]; intros w; simpl.
  - unfold mret, M_ret. by destruct (applyChanges v l2 w) as [[w2 e2] r].
  - unfold mbind, M_bind.
    destruct (applyChange v c w) as [[w0 e0] [[]|e]]; [|done].
    rewrite IH.
    destruct (applyChanges v l1 w0) as [[w1 e1] [[]|e]]; [|done].
    destruct (applyChanges v l2 w1) as [[w2 e2] r]. by rewrite app_assoc.
Qed.

(** ** Runs of [storeEditSession] *)

Lemma storeEditSession_run (fromStoreCommand : bool) (w : World FS RS) :
  storeEditSession wb fromStoreCommand w =
  let fs := fs_saveAll (fileService w) in
  let saved := mkWorld fs (storage w) in
  match collectFolders wb fs (repositories wb) [] false with
  | (evs, Throw e) => (saved, SaveAll :: evs, Throw e)
  | (evs, Ok (folders, false)) =>
      (saved,
       SaveAll :: evs ++ LogInfo SkippingStore ::
         (if fromStoreCommand then [NotifyInfo no_edits_to_store] else []),
       Ok None)
  | (evs, Ok (folders, true)) =>
      let data := mkEditSession 2 folders in
      match storage_write (storage w) data with
      | (rs', Ok ref) =>
          (mkWorld fs rs',
           SaveAll :: evs ++ [LogInfo Storing; StorageWrite data; LogInfo (Stored ref)],
           Ok (Some ref))
      | (rs', Throw ex) =>
          (mkWorld fs rs',
           SaveAll :: evs ++ LogInfo Storing :: StorageWrite data ::
             LogError (FailedToStore ex) ::
             match ex with
             | UserDataSyncStoreError TooLarge => [NotifyError payload_too_large]
             | UserDataSyncStoreError _ => [NotifyError payload_failed]
             | _ => []
             end,
           Ok None)
      end
  end.
Proof.
  unfold storeEditSession. unfold_M.
  destruct (collectFolders wb (fs_saveAll (fileService w)) (repositories wb) [] false)
    as [evs [[folders [|]]|e]]; simpl; [| |done].
  - destruct (storage_write (storage w) (mkEditSession 2 folders)) as [rs' [ref|ex]];
      simpl; [done|].
    by destruct ex as [|[]|]; simpl; rewrite ?app_nil_r.
  - by destruct fromStoreCommand; simpl; rewrite ?app_nil_r.
Qed.

Lemma collectFolders_nothing fs repos acc hasEdits :
  (forall repository, repository ∈ repos -> getChangedResources repository = []) ->
  exists folders, collectFolders wb fs repos acc hasEdits = ([], Ok (folders, hasEdits)).
Proof.
  revert acc. induction repos as [|repo repos IH]; intros acc Hall; simpl.
  - by eexists.
  - rewrite (Hall repo) by left. simpl.
    match goal with |- context [collectFolders wb fs repos ?a hasEdits] =>
      destruct (IH a) as [folders ->]; [intros; apply Hall; by right|] end.
    by eexists.
Qed.

(** X9: when [hasEditSession] answers [false], [storeEditSession] stores
    nothing: after saving the editors it logs that it skips, tells the user
    so only when run from the store command, returns no reference and never
    calls the store. *)
Theorem nothing_to_store (fromStoreCommand : bool) (w : World FS RS) :
  hasEditSession wb = false ->
  storeEditSession wb fromStoreCommand w
  = (mkWorld (fs_saveAll (fileService w)) (storage w),
     SaveAll :: LogInfo SkippingStore ::
       (if fromStoreCommand then [NotifyInfo no_edits_to_store] else []),
     Ok None).
Proof.
  intros Hnone. rewrite storeEditSession_run. simpl.
  destruct (collectFolders_nothing (fs_saveAll (fileService w)) (repositories wb) [] false)
    as [folders ->]; [|done].
  intros repo Hrepo. unfold hasEditSession in Hnone.
  destruct (getChangedResources repo) as [|v vs] eqn:Hres; [done|].
  assert (existsb (fun repository => Nat.ltb 0 (length (getChangedResources repository)))
                  (repositories wb) = true) as Habs; [|congruence].
  apply existsb_exists. exists repo. split; [by apply list_elem_of_In|].
  by rewrite Hres.
Qed.

(** X10: what [storeEditSession] does with a failure once the editors are
    saved ([saveAll] is taken to return).  An error of collecting the
    changes (a tracked file that exists cannot be read) is thrown on, and
    the store is not called.  A failure of the store's [write] is
    swallowed: it is logged and no reference is returned.  A reference is
    returned exactly when there are edits and [write] returned it, and the
    user is shown an error exactly when [write] threw a sync store error,
    with the size-limit message for [TooLarge]. *)
Theorem storeEditSession_outcome (fromStoreCommand : bool) (w : World FS RS) :
  let run := storeEditSession wb fromStoreCommand w in
  let collected :=
    collectFolders wb (fs_saveAll (fileService w)) (repositories wb) [] false in
  (forall e, collected.2 = Throw e ->
     outcome run = Throw e /\ forall data, StorageWrite data ∉ events run) /\
  (forall folders ex, collected.2 = Ok (folders, true) ->
     (storage_write (storage w) (mkEditSession 2 folders)).2 = Throw ex ->
     outcome run = Ok None /\ LogError (FailedToStore ex) ∈ events run) /\
  (forall ref, outcome run = Ok (Some ref) <->
     exists folders, collected.2 = Ok (folders, true) /\
       (storage_write (storage w) (mkEditSession 2 folders)).2 = Ok ref) /\
  (forall n, NotifyError n ∈ events run <->
     exists folders code, collected.2 = Ok (folders, true) /\
       (storage_write (storage w) (mkEditSession 2 folders)).2
         = Throw (UserDataSyncStoreError code) /\
       n = match code with TooLarge => payload_too_large | _ => payload_failed end).
Proof.
  intros run collected. subst run collected. rewrite storeEditSession_run. simpl.
  pose proof (collectFolders_report wb (fs_saveAll (fileService w)) (repositories wb) [] false)
    as Hrep.
  destruct (collectFolders wb (fs_saveAll (fileService w)) (repositories wb) [] false)
    as [evs [[folders [|]]|e]]; simpl in *.
  - destruct (storage_write (storage w) (mkEditSession 2 folders)) as [rs' [ref|ex]] eqn:Hw;
      unfold outcome, events; simpl.
    + split_and!.
      * done.
      * intros folders' ex [= <-] Hr. rewrite Hw in Hr. done.
      * intros ref'. split.
        -- intros [= <-]. exists folders. by rewrite Hw.
        -- intros (folders' & [= <-] & Hr). rewrite Hw in Hr. simpl in Hr. congruence.
      * intros n. split.
        -- intros [?|Hin]%elem_of_cons; [done|]. apply elem_of_app in Hin as [Hin|Hin].
           ++ by eapply Forall_forall in Hrep; [|exact Hin].
           ++ absent Hin.
        -- intros (folders' & code & [= <-] & Hr & _). rewrite Hw in Hr. done.
    + split_and!.
      * done.
      * intros folders' ex' [= <-] Hr. rewrite Hw in Hr. injection Hr as <-.
        split; [done|]. right. apply elem_of_app. right. right. right. left.
      * intros ref'. split; [done|].
        intros (folders' & [= <-] & Hr). rewrite Hw in Hr. done.
      * intros n. split.
        -- intros [?|Hin]%elem_of_cons; [done|]. apply elem_of_app in Hin as [Hin|Hin].
           ++ by eapply Forall_forall in Hrep; [|exact Hin].
           ++ destruct ex as [|code|]; [absent Hin| |absent Hin].
              exists folders, code. rewrite Hw. split_and!; [done|done|].
              destruct code; simpl;
                repeat (apply elem_of_cons in Hin as [Hin|Hin];
                        [try discriminate Hin; try (by injection Hin)|]);
                by apply elem_of_nil in Hin.
        -- intros (folders' & code & [= <-] & Hr & ->). rewrite Hw in Hr. simpl in Hr.
           injection Hr as ->. right. apply elem_of_app. right.
           destruct code; set_unfold; tauto.
  - unfold outcome, events; simpl. split_and!.
    + done.
    + done.
    + intros ref. split; [done|]. by intros (folders' & [=] & _).
    + intros n. split.
      * intros [?|Hin]%elem_of_cons; [done|]. apply elem_of_app in Hin as [Hin|Hin].
        -- by eapply Forall_forall in Hrep; [|exact Hin].
        -- destruct fromStoreCommand; absent Hin.
      * by intros (folders' & code & [=] & _).
  - unfold outcome, events; simpl. split_and!.
    + intros e0 [= <-]. split; [done|].
      intros data [?|Hin]%elem_of_cons; [done|].
      by eapply Forall_forall in Hrep; [|exact Hin].
    + done.
    + intros ref. split; [done|]. by intros (folders' & [=] & _).
    + intros n. split.
      * intros [?|Hin]%elem_of_cons; [done|].
        by eapply Forall_forall in Hrep; [|exact Hin].
      * by intros (folders' & code & [=] & _).
Qed.

Lemma collectWorkingChanges_name fs uris n hasEdits acc evs name' hasEdits' wcs :
  collectWorkingChanges wb fs uris (Some n) hasEdits acc
    = (evs, Ok (name', hasEdits', wcs)) ->
  name' = Some n.
Proof.
  revert hasEdits acc evs.
  induction uris as [|u uris IH]; intros hasEdits acc evs; simpl.
  - by intros [= _ <- _ _].
  - destruct (getWorkspaceFolder wb u) as [wf|].
    + destruct (fs_stat fs u) as [[|]|e]; [|by apply IH|];
        (destruct (fs_exists fs u);
         [destruct (fs_readFile fs u); [apply IH|done]|apply IH]).
    + destruct (collectWorkingChanges wb fs uris (Some n) hasEdits acc) as [evs' r] eqn:Hrec.
      intros [= _ ->]. by eapply IH.
Qed.

Lemma collectFolders_line_up fs repos acc hasEdits evs folders' hasEdits' :
  collectFolders wb fs repos acc hasEdits = (evs, Ok (folders', hasEdits')) ->
  exists new, folders' = acc ++ new /\
    Forall2 (fun repository folder =>
               match workspaceFolderOf wb repository with
               | Some wf => name folder = wf_name wf /\
                            canonicalIdentity folder = getEditSessionIdentifier wb wf
               | None => canonicalIdentity folder = None
               end) repos new.
Proof.
  revert acc hasEdits evs.
  induction repos as [|repo repos IH]; intros acc hasEdits evs; simpl.
  - intros [= _ <- _]. exists []. by rewrite app_nil_r.
  - fold (workspaceFolderOf wb repo).
    destruct (collectWorkingChanges wb fs _ _ _ _) as [cevs [[[name' he] wcs]|e]] eqn:Hc;
      [|done].
    destruct (collectFolders wb fs repos _ he) as [evs' r] eqn:Hrec.
    intros [= _ ->]. apply IH in Hrec as (new & -> & Hall).
    eexists (_ :: new). split; [by rewrite <- app_assoc|].
    constructor; [|done]. simpl.
    destruct (workspaceFolderOf wb repo) as [wf|]; [|done].
    simpl in Hc. apply collectWorkingChanges_name in Hc as ->. done.
Qed.

(** X11: one [Folder] is stored for each repository, in order, also for a
    repository without changes: it has the name and the identity of the
    workspace folder the repository is rooted in, and no identity when the
    root lies in no workspace folder. *)
Theorem stored_folders_line_up_with_repositories (fromStoreCommand : bool)
    (w : World FS RS) (data : EditSession) :
  StorageWrite data ∈ events (storeEditSession wb fromStoreCommand w) ->
  version data = 2 /\
  Forall2 (fun repository folder =>
             match workspaceFolderOf wb repository with
             | Some wf => name folder = wf_name wf /\
                          canonicalIdentity folder = getEditSessionIdentifier wb wf
             | None => canonicalIdentity folder = None
             end) (repositories wb) (folders data).
Proof.
  intros (evs & fds & Hc & ->)%storeEditSession_written. split; [done|].
  by apply collectFolders_line_up in Hc as (new & -> & Hall).
Qed.

(** X12: what [storeEditSession] stores for a file, [resumeEditSession] writes
    back: an addition of a stored session carries the encoding of bytes
    read from a file, and applying it, bound to any local folder, is one
    [writeFile] of those bytes, provided decoding undoes the encoding of
    these bytes. *)
Theorem stored_addition_is_written_back (fromStoreCommand : bool) (w : World FS RS)
    (data : EditSession) (folder : Folder) (c : Change) :
  StorageWrite data ∈ events (storeEditSession wb fromStoreCommand w) ->
  folder ∈ folders data ->
  c ∈ workingChanges folder ->
  type c = Addition ->
  exists u value,
    fs_readFile (fs_saveAll (fileService w)) u = Ok value /\
    forall (w' : World FS RS) (root : IWorkspaceFolder),
      decodeEditSessionFileContent (version data) (Some (encodeBase64 value)) = Ok value ->
      events (applyChange (version data) (resolveChange root c) w')
      = [WriteFile (joinPath (wf_uri root) (relativeFilePath c)) value].
Proof.
  intros (evs & fds & Hc & ->)%storeEditSession_written Hfolder Hchange Hty.
  apply collectFolders_stored in Hc; [|constructor].
  eapply Forall_forall in Hc; [|exact Hfolder].
  eapply Forall_forall in Hc; [|exact Hchange].
  destruct Hc as [[_ (u & value & Hread & Hcont)]|[Hdel _]]; [|congruence].
  exists u, value. split; [done|].
  intros w' root Hdec. unfold applyChange, resolveChange, events. simpl.
  simpl in Hdec. rewrite Hty, Hcont. unfold_M. rewrite Hdec. simpl.
  by destruct (fs_writeFile (fileService w') _ value).
Qed.

(** ** Failures of [resumeEditSession] *)

Lemma applyAndDelete_no_error_report s r changes (w : World FS RS) :
  Forall (fun e => is_error_report e = false) (events (applyAndDelete s r changes w)).
Proof.
  rewrite applyAndDelete_run.
  destruct (applyChanges_frame (version s) changes w) as [_ Hfile].
  destruct (applyChanges (version s) changes w) as [[w2 aevs] [[]|e]];
    unfold events in *; simpl in *.
  - destruct (storage_delete (storage w2) r) as [rs' [[]|e]]; simpl;
      (apply Forall_app; split;
       [eapply Forall_impl; [exact Hfile|]; by intros []|by repeat constructor]).
  - eapply Forall_impl; [exact Hfile|]. by intros [].
Qed.

Lemma tryResume_no_error_report s r force (w : World FS RS) :
  Forall (fun e => is_error_report e = false) (events (tryResume wb s r force w)).
Proof.
  rewrite tryResume_run.
  pose proof (generateChanges_report wb (fileService w) s r force) as Hrep.
  assert (Hgen : Forall (fun e => is_error_report e = false)
                        (generateChanges wb (fileService w) s r force).1)
    by (eapply Forall_impl; [exact Hrep|]; by intros []).
  destruct (generateChanges wb (fileService w) s r force)
    as [gevs [[changes conflicting]|e]]; simpl in Hgen; [|done].
  pose proof (applyAndDelete_no_error_report s r changes w) as Happ.
  destruct (Nat.eqb (length changes) 0); [done|].
  destruct (Nat.ltb 0 (length conflicting)).
  - destruct (Nat.eqb (dialogChoice wb conflicting) 0); unfold events; simpl.
    + apply Forall_app. split; [done|by repeat constructor].
    + destruct (applyAndDelete s r changes w) as [[w2 aevs] res].
      unfold events in *; simpl in *.
      apply Forall_app. split; [done|]. by constructor.
    - destruct (applyAndDelete s r changes w) as [[w2 aevs] res].
      unfold events in *; simpl in *. by apply Forall_app.
Qed.

(** X13: what [resumeEditSession] reports.  An exception thrown inside its
    [try] block (reconciling, applying, deleting the remote session) does
    not leave the function: once [initialize] and [read] have returned a
    session that is not too new, a throwing body ends the run normally,
    with the error logged and the failure message shown last.  And an
    error is shown in exactly two cases: the upgrade message when the
    session read is newer than the supported version, and the failure
    message when the body of the [try] block threw. *)
Theorem resume_reports_failures_of_the_try_block (ref : option string)
    (silent force : bool) (w : World FS RS) :
  let run := resumeEditSession wb ref silent force w in
  (forall s r ex,
     workbenchState wb <> EMPTY ->
     (silent = true -> storage_initialize (storage w) false true = true) ->
     storage_read (storage w) ref = Some (s, r) ->
     version s <= EditSessionSchemaVersion ->
     outcome (tryResume wb s r force w) = Throw ex ->
     outcome run = Ok tt /\
     final run = final (tryResume wb s r force w) /\
     events run = LogInfo (Resuming ref) :: events (tryResume wb s r force w) ++
                    [LogError (FailedToResume ex); NotifyError resume_failed]) /\
  (forall n, NotifyError n ∈ events run <->
   exists s r,
     workbenchState wb <> EMPTY /\
     (silent = true -> storage_initialize (storage w) false true = true) /\
     storage_read (storage w) ref = Some (s, r) /\
     ((n = client_too_old /\ version s > EditSessionSchemaVersion) \/
      (n = resume_failed /\ version s <= EditSessionSchemaVersion /\
       exists ex, outcome (tryResume wb s r force w) = Throw ex))).
Proof.
  intros run. subst run. split.
  { intros s r ex Hst Hinit Hread Hv Hthrow.
    rewrite (resumeEditSession_reached wb _ _ _ _ s r Hst Hinit Hread).
    assert ((version s >? EditSessionSchemaVersion) = false) as ->
      by (rewrite Z.gtb_ltb; apply Z.ltb_ge; lia).
    destruct (tryResume wb s r force w) as [[w1 e1] [[]|ex']];
      unfold outcome, final, events in *; simpl in *; [done|].
    by injection Hthrow as ->. }
  intros n.
  assert (Hcases :
    (workbenchState wb = EMPTY \/
     (silent = true /\ storage_initialize (storage w) false true = false) \/
     storage_read (storage w) ref = None) \/
    exists s r, workbenchState wb <> EMPTY /\
      (silent = true -> storage_initialize (storage w) false true = true) /\
      storage_read (storage w) ref = Some (s, r)).
  { assert (workbenchState wb = EMPTY \/ workbenchState wb <> EMPTY) as [|Hst]
      by (destruct (workbenchState wb); auto); [by left; left|].
    destruct (storage_read (storage w) ref) as [[s r]|] eqn:Hread; [|by left; right; right].
    destruct silent; [|right; by exists s, r].
    destruct (storage_initialize (storage w) false true) eqn:Hinit;
      [right; by exists s, r|left; right; by left]. }
  destruct Hcases as [Hnot|(s & r & Hst & Hinit & Hread)].
  - assert (Hquiet : forall n, NotifyError n ∉ events (resumeEditSession wb ref silent force w)).
    { unfold resumeEditSession, events.
      destruct Hnot as [Hst|[[-> Hinit]|Hread]].
      - rewrite Hst. by intros n0 ?%elem_of_nil.
      - destruct (workbenchState wb); unfold_M; rewrite ?Hinit; simpl;
          (intros n0 Hin; absent Hin).
      - destruct (workbenchState wb); unfold_M;
          (destruct silent; [destruct (storage_initialize (storage w) false true)|]);
          simpl; rewrite ?Hread; destruct ref; simpl;
          (intros n0 Hin; absent Hin). }
    split; [intros Hin; by apply Hquiet in Hin|].
    intros (s & r & Hst & Hinit & Hread & _).
    destruct Hnot as [?|[[-> Hi]|?]]; [done|rewrite Hinit in Hi; done|congruence].
  - rewrite (resumeEditSession_reached wb _ _ _ _ s r Hst Hinit Hread).
    destruct (version s >? EditSessionSchemaVersion) eqn:Hv.
    + unfold outcome, events; simpl. split.
      * intros [?|[[= ->]|?%elem_of_nil]%elem_of_cons]%elem_of_cons; [done| |done].
        exists s, r. split_and!; try done. left. split; [done|].
        apply Z.gtb_lt in Hv. lia.
      * intros (s' & r' & _ & _ & Hread' & [[-> _]|[_ [Hle _]]]).
        -- right. left.
        -- rewrite Hread in Hread'. injection Hread' as <- <-.
           apply Z.gtb_lt in Hv. lia.
    + pose proof (tryResume_no_error_report s r force w) as Hno.
      destruct (tryResume wb s r force w) as [[w1 e1] [[]|ex]] eqn:Htry;
        unfold outcome, events in *; simpl in *.
      * split.
        -- intros [?|Hin]%elem_of_cons; [done|].
           by eapply Forall_forall in Hno; [|exact Hin].
        -- intros (s' & r' & _ & _ & Hread' & [[_ Hgt]|[_ [_ [ex Hex]]]]);
             rewrite Hread in Hread'; injection Hread' as <- <-.
           ++ rewrite Z.gtb_ltb in Hv. apply Z.ltb_ge in Hv. lia.
           ++ rewrite Htry in Hex. done.
      * split.
        -- intros [?|Hin]%elem_of_cons; [done|]. apply elem_of_app in Hin as [Hin|Hin].
           ++ by eapply Forall_forall in Hno; [|exact Hin].
           ++ apply elem_of_cons in Hin as [?|Hin]; [done|].
              apply list_elem_of_singleton in Hin. injection Hin as ->.
              exists s, r. split_and!; try done. right. split_and!; [done| |].
              ** rewrite Z.gtb_ltb in Hv. by apply Z.ltb_ge in Hv.
              ** exists ex. by rewrite Htry.
        -- intros (s' & r' & _ & _ & Hread' & [[_ Hgt]|[-> _]]);
             rewrite Hread in Hread'; injection Hread' as <- <-.
           ++ rewrite Z.gtb_ltb in Hv. apply Z.ltb_ge in Hv. lia.
           ++ right. apply elem_of_app. right. right. left.
Qed.

End MoreProperties.

(** * Continue Working On: what is opened and what is stored *)

Section ContinueOnProperties.

Import ContinueOn.

Context {FS RS : Type}.
Context `{PF : Platform} `{FSrv : FileService FS} `{SSrv : EditSessionsStorageService RS}.
Variable wb : Workbench.
Variable services : Services RS.

Lemma elem_of_map_Store (e : Event) (evs : list Event) :
  Store e ∈ map Store evs <-> e ∈ evs.
Proof.
  rewrite !list_elem_of_In, in_map_iff. split.
  - intros (x & Hx & Hin). by injection Hx as ->.
  - intros Hin. by exists e.
Qed.

Lemma not_elem_of_map_Store (x : ContinueEvent) (evs : list Event) :
  (forall e, x <> Store e) -> x ∉ map Store evs.
Proof.
  intros Hx. rewrite list_elem_of_In, in_map_iff. intros (e & He & _).
  by apply (Hx e).
Qed.

Lemma Open_not_Store (u : URI) (evs : list Event) : Open u ∈ map Store evs <-> False.
Proof. split; [|done]. apply not_elem_of_map_Store. discriminate. Qed.

Lemma Warn_not_Store (evs : list Event) : WarnFailedToStore ∈ map Store evs <-> False.
Proof. split; [|done]. apply not_elem_of_map_Store. discriminate. Qed.

Lemma ExecuteCommand_not_Store (c : string) (evs : list Event) :
  ExecuteCommand c ∈ map Store evs <-> False.
Proof. split; [|done]. apply not_elem_of_map_Store. discriminate. Qed.

Ltac run_cases workspaceUri w :=
  unfold continueEditSession, destinationOf, destinationChosen, resolveDestination, openUri;
  destruct workspaceUri as [given|]; simpl;
  [| destruct (pickContinueEditSessionDestination services) as [[|a d]|]; simpl ];
  destruct (shouldContinueOnWithEditSession wb services (storage w)) eqn:Hshould; simpl;
  try (destruct (storeEditSession wb false w) as [[w1 stored] [[ref|]|ex]] eqn:Hstore; simpl);
  repeat match goal with
         | |- context [executeCommand services ?c] =>
             destruct (executeCommand services c) as [[| |]|]; simpl
         | |- context [opener_open services ?u] =>
             destruct (opener_open services u); simpl
         end.

Ltac members :=
  repeat first
    [ rewrite elem_of_cons | rewrite elem_of_app | rewrite elem_of_map_Store
    | rewrite Open_not_Store | rewrite Warn_not_Store
    | rewrite ExecuteCommand_not_Store | rewrite elem_of_nil ].

Ltac cases_or :=
  repeat match goal with H : _ \/ _ |- _ => destruct H as [H|H] end.

Ltac settle :=
  split;
  [ let H := fresh in
    intros H; cases_or; try done; simplify_eq;
    repeat first [eexists | split | reflexivity | eassumption]
  | intros; repeat match goal with
                   | H : exists _, _ |- _ => destruct H as [? H]
                   | H : _ /\ _ |- _ => destruct H as [? H]
                   | H : is_Some _ |- _ => destruct H as [? H]
                   end;
    simplify_eq; auto 10 ].

(** X14: the action opens a URI exactly when the destination resolves to one
    and, if a session is to be stored, the store returned a reference: it
    opens that URI, with the reference appended to the query when a
    session was stored.  It warns exactly when a session was to be stored,
    no reference came back and the destination resolved to something. *)
Theorem continue_opens_with_the_stored_reference (workspaceUri : option URI)
    (w : World FS RS) :
  let run := continueEditSession wb services workspaceUri w in
  let store := storeEditSession wb false w in
  (forall u, Open u ∈ run.1.2 <->
     exists base, destinationOf services workspaceUri = Some (DestinationUri base) /\
       if shouldContinueOnWithEditSession wb services (storage w)
       then exists ref, outcome store = Ok (Some ref) /\ u = withRef services base ref
       else u = base) /\
  (WarnFailedToStore ∈ run.1.2 <->
     shouldContinueOnWithEditSession wb services (storage w) = true /\
     outcome store = Ok None /\
     is_Some (destinationOf services workspaceUri)).
Proof.
  cbv zeta. split; [intros u|].
  - run_cases workspaceUri w; members.
    all: try (rewrite Hstore); unfold outcome; simpl.
    all: settle.
  - run_cases workspaceUri w; members.
    all: try (rewrite Hstore); unfold outcome; simpl.
    all: settle.
Qed.
(** X15: the session is stored before the destination is resolved: the
    events of [storeEditSession] come right after the telemetry event,
    before the destination command is executed, and none comes later;
    when the store throws, the action rejects with nothing else done; and
    nothing is stored when no destination was chosen. *)
Theorem continue_stores_before_it_resolves (workspaceUri : option URI)
    (w : World FS RS) :
  let run := continueEditSession wb services workspaceUri w in
  let store := storeEditSession wb false w in
  let storing := destinationChosen services workspaceUri &&
                 shouldContinueOnWithEditSession wb services (storage w) in
  exists rest,
    run.1.2 = PublicLog "editSessions.continue.store"
                :: map Store (if storing then events store else []) ++ rest /\
    (forall e, Store e ∉ rest) /\
    (forall c, ExecuteCommand c ∈ run.1.2 -> ExecuteCommand c ∈ rest) /\
    (forall ex, storing = true -> outcome store = Throw ex ->
       rest = [] /\ run.2 = Throw ex).
Proof.
  cbv zeta.
  run_cases workspaceUri w; try rewrite Hstore; unfold final, events, outcome; simpl.
  all: eexists; split; [try reflexivity; by rewrite ?app_nil_r|].
  all: split_and!;
    [ intros ?; members; intros ?; cases_or; done
    | intros ?; members; intros ?; cases_or; try done; simplify_eq; auto 10
    | intros; simplify_eq; done ].
Qed.

Lemma shouldContinueOnWithEditSession_nothing (rs : RS) :
  hasEditSession wb = false -> shouldContinueOnWithEditSession wb services rs = false.
Proof.
  intros Hno. unfold shouldContinueOnWithEditSession. rewrite Hno.
  by repeat case_match.
Qed.

(** X16: without changed resources the action stores nothing and saves no
    editor: the world is untouched, and a destination that resolves to a
    URI is opened as it is. *)
Theorem continue_without_changes (workspaceUri : option URI) (w : World FS RS)
    (base : URI) :
  hasEditSession wb = false ->
  destinationOf services workspaceUri = Some (DestinationUri base) ->
  let run := continueEditSession wb services workspaceUri w in
  run.1.1 = w /\
  exists resolving,
    run.1.2 = PublicLog "editSessions.continue.store"
                :: resolving ++ [LogOpening base; Open base] /\
    Forall (fun e => exists c, e = ExecuteCommand c) resolving.
Proof.
  intros Hno Hbase. cbv zeta.
  pose proof (shouldContinueOnWithEditSession_nothing (storage w) Hno) as Hs.
  revert Hbase.
  run_cases workspaceUri w; intros; simplify_eq.
  all: split; [reflexivity|].
  all: first [ by exists []
             | eexists [_]; split; [reflexivity|]; apply Forall_singleton; by eexists ].
Qed.

Lemma collectWorkingChanges_outside (fs : FS) (trackedUris : list URI)
    (name : option string) (hasEdits : bool) (workingChanges : list Change) :
  (forall u, u ∈ trackedUris -> getWorkspaceFolder wb u = None) ->
  collectWorkingChanges wb fs trackedUris name hasEdits workingChanges
  = (map (fun u => LogInfo (SkippingWorkingChange (uri_toString u))) trackedUris,
     Ok (name, hasEdits, workingChanges)).
Proof.
  intros Hout. induction trackedUris as [|u rest IH]; simpl; [done|].
  rewrite (Hout u) by left. rewrite IH; [done|]. intros; apply Hout; by right.
Qed.

Lemma collectFolders_outside (fs : FS) (repos : list ISCMRepository)
    (acc : list Folder) (hasEdits : bool) :
  (forall repository u, repository ∈ repos -> u ∈ getChangedResources repository ->
     getWorkspaceFolder wb u = None) ->
  exists evs folders,
    collectFolders wb fs repos acc hasEdits = (evs, Ok (folders, hasEdits)) /\
    Forall (fun e => exists m, e = LogInfo m) evs.
Proof.
  revert acc. induction repos as [|repo repos IH]; intros acc Hout; simpl.
  - by exists [], acc.
  - rewrite collectWorkingChanges_outside by (intros; eapply Hout; [by left|done]).
    match goal with |- context [collectFolders wb fs repos ?a hasEdits] =>
      destruct (IH a) as (evs & folders & -> & Hevs);
        [intros; eapply Hout; [by right|done]|] end.
    eexists _, _. split; [reflexivity|].
    apply Forall_app. split; [|done].
    apply Forall_forall. intros e [u [<- _]]%list_elem_of_In%in_map_iff. by eexists.
Qed.

(** X17: when every changed resource lies outside the workspace folders,
    [hasEditSession] can answer [true] while [storeEditSession] has
    nothing to store: the action then writes nothing to the store, warns
    that storing failed and opens nothing, although the destination
    resolved. *)
Theorem continue_with_changes_outside_the_workspace (workspaceUri : option URI)
    (w : World FS RS) (destination : Destination) :
  (forall repository u, repository ∈ repositories wb ->
     u ∈ getChangedResources repository -> getWorkspaceFolder wb u = None) ->
  shouldContinueOnWithEditSession wb services (storage w) = true ->
  destinationOf services workspaceUri = Some destination ->
  let run := continueEditSession wb services workspaceUri w in
  WarnFailedToStore ∈ run.1.2 /\
  (forall u, Open u ∉ run.1.2) /\
  (forall data, Store (StorageWrite data) ∉ run.1.2) /\
  run.2 = Ok tt.
Proof.
  intros Hout Hs Hd. cbv zeta.
  destruct (collectFolders_outside (fs_saveAll (fileService w)) (repositories wb) [] false Hout)
    as (evs & folders & Hcollect & Hevs).
  pose proof (storeEditSession_run wb false w) as Hrun. simpl in Hrun.
  rewrite Hcollect in Hrun.
  assert (forall data, StorageWrite data ∉ evs) as Hnot.
  { intros data Hin. rewrite Forall_forall in Hevs. by destruct (Hevs _ Hin). }
  revert Hd Hs.
  run_cases workspaceUri w; intros; simplify_eq.
  all: split_and!.
  all: lazymatch goal with
       | |- _ = _ => reflexivity
       | |- forall _, _ ∉ _ =>
           intros ?; members; intros ?; cases_or; simplify_eq; try done;
           by eapply Hnot
       | |- _ ∈ _ => members; auto 10
       end.
Qed.

End ContinueOnProperties.

Section OptionsProperties.

Import ContinueOn.

Context {ContextKeyExpression : Type}.
Variable deserialize : string -> option ContextKeyExpression.
Variable getCommand : string -> option ICommandAction.

Lemma mapM_option_app {A B} (f : A -> option B) (l1 l2 : list A) :
  mapM f (l1 ++ l2) = k1 ← mapM f l1; k2 ← mapM f l2; Some (k1 ++ k2).
Proof.
  induction l1 as [|x l1 IH]; simpl.
  - by destruct (mapM f l2).
  - destruct (f x) as [y|]; simpl; [|done]. rewrite IH.
    destruct (mapM f l1) as [k1|]; simpl; [|done].
    by destruct (mapM f l2).
Qed.

Lemma pushContributions_all (contributions : list ICommand)
    (options : list (ContinueEditSessionItem ContextKeyExpression)) :
  pushContributions deserialize getCommand contributions options =
  (fun items => options ++ items)
    <$> mapM (contributedItem deserialize getCommand) contributions.
Proof.
  unfold contributedItem. revert options.
  induction contributions as [|c rest IH]; intros options; simpl.
  - by rewrite app_nil_r.
  - destruct (getCommand (contribution_command c)) as [command|]; simpl; [|done].
    rewrite IH.
    destruct (mapM _ rest); simpl; [|done]. by rewrite <- app_assoc.
Qed.

Lemma collectOptions_all (extensions : list ExtensionPointUser)
    (options : list (ContinueEditSessionItem ContextKeyExpression)) :
  collectOptions deserialize getCommand extensions options =
  (fun items => options ++ items)
    <$> mapM (contributedItem deserialize getCommand) (contributionsRead extensions).
Proof.
  revert options. induction extensions as [|x rest IH]; intros options; simpl.
  - by rewrite app_nil_r.
  - destruct (proposedApiEnabled x); simpl; [|apply IH].
    destruct (value x) as [contributions|]; simpl; [|apply IH].
    rewrite pushContributions_all, mapM_option_app.
    destruct (mapM _ contributions) as [k1|]; simpl; [|done].
    rewrite IH. fold (contributionsRead rest).
    destruct (mapM _ (contributionsRead rest)); simpl; [|done].
    by rewrite app_assoc.
Qed.

(** X18: the handler replaces the options by the items of all the contributions
    it reads, in order, when the command of each is registered; one
    command that is not leaves the options as they were. *)
Theorem contributed_options_all_or_nothing
    (current : list (ContinueEditSessionItem ContextKeyExpression))
    (extensions : list ExtensionPointUser) :
  contributedOptionsHandler deserialize getCommand current extensions =
  default current
    (mapM (contributedItem deserialize getCommand) (contributionsRead extensions)).
Proof.
  unfold contributedOptionsHandler. rewrite collectOptions_all.
  by destruct (mapM _ _).
Qed.

End OptionsProperties.

(** * The embedding run on the sample workspace *)

Import Sample.

(** ** What [getChangedResources] does and does not merge *)

Lemma SetURI_add_NoDup (s : SetURI) (u : URI) :
  NoDup (uri_obj <$> s) -> NoDup (uri_obj <$> SetURI_add s u).
Proof.
  intros Hnd. unfold SetURI_add.
  destruct (SetURI_has s u) eqn:Hhas; [done|].
  rewrite fmap_app. apply NoDup_app. split_and!; [done| |apply NoDup_singleton].
  intros n Hn [->|[]%elem_of_nil]%elem_of_cons.
  apply list_elem_of_fmap in Hn as (v & Hv & Hin).
  unfold SetURI_has in Hhas.
  assert (existsb (fun v => Nat.eqb (uri_obj v) (uri_obj u)) s = true) as Habs; [|congruence].
  apply existsb_exists. exists v. split; [by apply list_elem_of_In|].
  apply Nat.eqb_eq. congruence.
Qed.

(** The set holds every object once. *)
Lemma getChangedResources_NoDup (repository : ISCMRepository) :
  NoDup (uri_obj <$> getChangedResources repository).
Proof.
  unfold getChangedResources.
  assert (Hin : forall rs acc, NoDup (uri_obj <$> acc) ->
            NoDup (uri_obj <$> fold_left (fun rs resource => SetURI_add rs (sourceUri resource))
                                         rs acc)).
  { induction rs as [|x rs IH]; intros acc Hacc; simpl; [done|].
    apply IH. by apply SetURI_add_NoDup. }
  assert (Hout : forall gs acc, NoDup (uri_obj <$> acc) ->
            NoDup (uri_obj <$> fold_left
                     (fun resources resourceGroups =>
                        fold_left (fun rs resource => SetURI_add rs (sourceUri resource))
                                  (elements resourceGroups) resources) gs acc)).
  { induction gs as [|g gs IH]; intros acc Hacc; simpl; [done|].
    apply IH. by apply Hin. }
  apply Hout. constructor.
Qed.

(** C8: two resource groups list the file [/w/a.txt], each through a URI
    object of its own.  The two URIs print the same, [getChangedResources]
    keeps both, and [storeEditSession] stores two additions of [a.txt] in
    the folder's working changes. *)
Theorem equal_uris_in_two_groups_stored_twice :
  uri_toString a_staged = uri_toString a_modified /\
  getChangedResources (repository [[a_staged]; [a_modified]]) = [a_staged; a_modified] /\
  events (storeEditSession tracking_a_twice true world_a) =
    [SaveAll; LogInfo Storing;
     StorageWrite
       (mkEditSession 2
          [mkFolder "w" (Some "id-w")
             [addition "a.txt" "hello"; addition "a.txt" "hello"]]);
     LogInfo (Stored "ref0")].
Proof. by vm_compute. Qed.

(** ** The theorems at concrete inputs *)

Lemma resume_rejects_newer_version_witness :
  storage_read (storage (stored session_v3 [])) None = Some (session_v3, "r1") /\
  version session_v3 > EditSessionSchemaVersion /\
  final (resumeEditSession (tracking_b 1) None true false (stored session_v3 []))
    = stored session_v3 [] /\
  events (resumeEditSession (tracking_b 1) None true false (stored session_v3 []))
    = [LogInfo (Resuming None); NotifyError client_too_old].
Proof.
  assert (Hread : storage_read (storage (stored session_v3 [])) None
                  = Some (session_v3, "r1")) by (by vm_compute).
  assert (Hv : version session_v3 > EditSessionSchemaVersion) by (by vm_compute).
  destruct (resume_rejects_newer_version (tracking_b 1) (stored session_v3 [])
              None true false session_v3 "r1" Hread Hv) as (Hfinal & _ & _ & Hev).
  split_and!; [done|done|exact Hfinal|].
  apply Hev; [discriminate|intros _; by vm_compute].
Defined.

Lemma willChangeLocalContents_spec_witness :
  willChangeLocalContents (fileService (stored session_ab [])) tracked_b a_txt
    (addition "a.txt" "hello") = Ok false /\
  (exists b, willChangeLocalContents (fileService (stored session_ab [])) tracked_b b_txt
               (addition "b.txt" "new") = Ok b /\
     (b = true <->
      sha1Hex (contents (addition "b.txt" "new"))
        <> sha1Hex (Some (encodeBase64 (bytes "old"))))) /\
  willChangeLocalContents (fileService (stored session_gone [])) tracked_gone gone_txt
    (addition "gone.txt" "x") = Throw not_found /\
  (exists b, willChangeLocalContents (fileService (stored session_ab [])) tracked_b b_txt
               (deletion "b.txt") = Ok b /\
     (b = true <-> fs_exists (fileService (stored session_ab [])) b_txt = true)) /\
  willChangeLocalContents (fileService (stored session_ab [])) tracked_b b_txt
    (mkChange (UnknownChangeType 7) File "b.txt" None) = Throw UnhandledChangeType.
Proof.
  assert (Hin : uri_toString b_txt ∈ tracked_b) by (apply (bool_decide_unpack _); by vm_compute).
  assert (Hgone : uri_toString gone_txt ∈ tracked_gone)
    by (apply (bool_decide_unpack _); by vm_compute).
  assert (Hout : uri_toString a_txt ∉ tracked_b)
    by (apply (bool_decide_eq_false_1 _); by vm_compute).
  split_and!.
  - by apply (willChangeLocalContents_spec (fileService (stored session_ab [])) tracked_b
                a_txt (addition "a.txt" "hello")).
  - apply (willChangeLocalContents_spec (fileService (stored session_ab [])) tracked_b
             b_txt (addition "b.txt" "new")); [exact Hin|reflexivity|by vm_compute].
  - apply (willChangeLocalContents_spec (fileService (stored session_gone [])) tracked_gone
             gone_txt (addition "gone.txt" "x")); [exact Hgone|reflexivity|by vm_compute].
  - apply (willChangeLocalContents_spec (fileService (stored session_ab [])) tracked_b
             b_txt (deletion "b.txt")); [exact Hin|reflexivity].
  - by apply (willChangeLocalContents_spec (fileService (stored session_ab [])) tracked_b
                b_txt (mkChange (UnknownChangeType 7) File "b.txt" None)) with (tag := 7).
Defined.

Lemma remote_deleted_only_after_apply_witness :
  (exists w2 aevs pre post,
     applyChanges 2 [resolved_a; resolved_b] (stored session_ab []) = (w2, aevs, Ok tt) /\
     events (resumeEditSession (tracking_b 1) (Some "r1") false false (stored session_ab []))
       = pre ++ aevs ++ LogInfo (DeletingAfterApply "r1") :: StorageDelete "r1" :: post /\
     no_mutation pre /\ no_mutation post) /\
  (storage (final (resumeEditSession (tracking_b 1) (Some "r1") false false
                     (stored session_ab ["/w/a.txt"])))
     = storage (stored session_ab ["/w/a.txt"]) /\
   forall r, StorageDelete r ∉
     events (resumeEditSession (tracking_b 1) (Some "r1") false false
               (stored session_ab ["/w/a.txt"]))).
Proof.
  split.
  - destruct (remote_deleted_only_after_apply (tracking_b 1) (stored session_ab [])
                (Some "r1") false false) as (Hdel & _ & _).
    destruct (Hdel "r1") as (s & gevs & changes & conflicting & w2 & aevs & pre & post
                             & Hread & Hgen & Happ & _ & Hev & Hpre & Hpost).
    { apply list_elem_of_lookup_2 with (i := 5%nat). by vm_compute. }
    assert (s = session_ab) as -> by (vm_compute in Hread; vm_compute; congruence).
    assert (changes = [resolved_a; resolved_b]) as ->
      by (vm_compute in Hgen; vm_compute; congruence).
    by exists w2, aevs, pre, post.
  - destruct (remote_deleted_only_after_apply (tracking_b 1) (stored session_ab ["/w/a.txt"])
                (Some "r1") false false) as (_ & _ & Hfail).
    apply (Hfail session_ab "r1" [] [resolved_a; resolved_b] [resolved_b]
             (stored session_ab ["/w/a.txt"]) [WriteFile a_txt (bytes "hello")]
             no_permissions); by vm_compute.
Defined.

Lemma conflicts_ask_before_mutation_witness :
  generateChanges (tracking_b 0) (fileService (stored session_ab [])) session_ab "r1" false
    = ([], Ok ([resolved_a; resolved_b], [resolved_b])) /\
  dialogChoice (tracking_b 0) [resolved_b] = 0%nat /\
  events (resumeEditSession (tracking_b 0) (Some "r1") false false (stored session_ab []))
    = [LogInfo (Resuming (Some "r1")); DialogShow [b_txt]] /\
  final (resumeEditSession (tracking_b 0) (Some "r1") false false (stored session_ab []))
    = stored session_ab [].
Proof.
  assert (Hgen : generateChanges (tracking_b 0) (fileService (stored session_ab []))
                   session_ab "r1" false
                 = ([], Ok ([resolved_a; resolved_b], [resolved_b]))) by (by vm_compute).
  destruct (conflicts_ask_before_mutation (tracking_b 0) (stored session_ab [])
              (Some "r1") false false session_ab "r1" [] [resolved_a; resolved_b]
              [resolved_b]) as (post & Hev & _ & Hcancel);
    [discriminate|discriminate|by vm_compute|by vm_compute|exact Hgen|discriminate|].
  destruct (Hcancel eq_refl) as [-> Hfinal].
  split_and!; [exact Hgen|reflexivity|exact Hev|exact Hfinal].
Defined.

Lemma folder_matching_policy_witness :
  (findFolderRoot (tracking_b 0) "r1" false (mkFolder "w" None [])).1 = [] /\
  (forall folder', canonicalIdentity folder' = Some "id-w" ->
     findFolderRoot (tracking_b 0) "r1" false folder'
     = findFolderRoot (tracking_b 0) "r1" false (mkFolder "renamed" (Some "id-w") [])) /\
  findFolderRoot (tracking_b 0) "r1" false (mkFolder "renamed" (Some "id-w") [])
    = ([LogInfo (MatchingIdentity (Some "id-w") "id-w")], Some folder_w).
Proof.
  split_and!.
  - by apply (folder_matching_policy (tracking_b 0) "r1" false (mkFolder "w" None [])).
  - by apply (folder_matching_policy (tracking_b 0) "r1" false
                (mkFolder "renamed" (Some "id-w") [])) with (c := "id-w").
  - by vm_compute.
Defined.

Lemma partial_match_policy_witness :
  findByIdentity (partial_workbench false) "r1" "id-remote" false [folder_w]
    = ([LogInfo (MatchingIdentity (Some "id-w") "id-remote")], None) /\
  findByIdentity (partial_workbench true) "r1" "id-remote" true [folder_w]
    = ([LogInfo (MatchingIdentity (Some "id-w") "id-remote")], Some folder_w) /\
  findByIdentity (partial_workbench true) "r1" "id-remote" false [folder_w]
    = ([LogInfo (MatchingIdentity (Some "id-w") "id-remote"); PromptPartialMatch "r1"],
       None).
Proof.
  split_and!.
  - by apply (partial_match_policy (partial_workbench false) "r1" "id-remote" false
                folder_w [] "id-w").
  - by apply (partial_match_policy (partial_workbench true) "r1" "id-remote" true
                folder_w [] "id-w").
  - by apply (partial_match_policy (partial_workbench true) "r1" "id-remote" false
                folder_w [] "id-w").
Defined.


Lemma stored_changes_satisfy_invariant_witness :
  StorageWrite session_a_gone ∈ events (storeEditSession tracking_a_gone true world_a) /\
  change_invariant (addition "a.txt" "hello") /\
  change_invariant (deletion "gone.txt").
Proof.
  assert (Hin : StorageWrite session_a_gone
                ∈ events (storeEditSession tracking_a_gone true world_a))
    by (apply list_elem_of_lookup_2 with (i := 2%nat); by vm_compute).
  split_and!; [exact Hin|..].
  - apply (stored_changes_satisfy_invariant tracking_a_gone world_a true session_a_gone
             (mkFolder "w" (Some "id-w") [addition "a.txt" "hello"; deletion "gone.txt"])
             (addition "a.txt" "hello") Hin); by repeat constructor.
  - apply (stored_changes_satisfy_invariant tracking_a_gone world_a true session_a_gone
             (mkFolder "w" (Some "id-w") [addition "a.txt" "hello"; deletion "gone.txt"])
             (deletion "gone.txt") Hin); by repeat constructor.
Defined.

Lemma conflictingChanges_sublist_of_changes_witness :
  generateChanges (tracking_b 0) (fileService (stored session_ab [])) session_ab "r1" false
    = ([], Ok ([resolved_a; resolved_b], [resolved_b])) /\
  sublist [resolved_b] [resolved_a; resolved_b].
Proof.
  assert (Hgen : generateChanges (tracking_b 0) (fileService (stored session_ab []))
                   session_ab "r1" false
                 = ([], Ok ([resolved_a; resolved_b], [resolved_b]))) by (by vm_compute).
  split; [exact Hgen|].
  exact (proj1 (conflictingChanges_sublist_of_changes (tracking_b 0) _ _ _ _ _ _ _ Hgen)).
Defined.

(** ** Where the code departs from a claim as stated *)

(** Against C5 as stated: the remote folder carries an identity, the empty
    string, and yet it is matched by its name: the local folder found has
    another identity and is not classified as a match, and under another
    name the same remote folder matches nothing. *)
Lemma empty_identity_falls_back_to_name :
  canonicalIdentity (mkFolder "w" (Some "") []) = Some "" /\
  findFolderRoot (tracking_b 0) "r1" false (mkFolder "w" (Some "") [])
    = ([], Some folder_w) /\
  findFolderRoot (tracking_b 0) "r1" false (mkFolder "x" (Some "") []) = ([], None) /\
  ~ accepted_by_identity (tracking_b 0) false "" folder_w.
Proof.
  split_and!; [done|by vm_compute|by vm_compute|].
  intros [Hid|(id & _ & [Hm|(Hm & _)])]; vm_compute in *; discriminate.
Qed.

(** Against C2 as stated: [/w/gone.txt] is in the local changed-resource
    set (source control lists it) and is no longer on disk; for an incoming
    addition at that path the check answers neither [true] nor [false]: it
    throws the error of [readFile]. *)
Lemma tracked_file_that_is_gone_makes_the_check_throw :
  localChangesOf tracking_gone (mkFolder "w" None [addition "gone.txt" "x"]) = tracked_gone /\
  uri_toString gone_txt ∈ tracked_gone /\
  type (addition "gone.txt" "x") = Addition /\
  fs_exists (fileService (stored session_gone [])) gone_txt = false /\
  willChangeLocalContents (fileService (stored session_gone [])) tracked_gone gone_txt
    (addition "gone.txt" "x") = Throw not_found.
Proof.
  split_and!; [by vm_compute| |done|by vm_compute|by vm_compute].
  apply (bool_decide_unpack _). by vm_compute.
Qed.



(** * More of the contribution, at concrete inputs *)

(** X2: [getChangedResources] returns the [sourceUri] objects of the
    repository's resources, each object once: every element is the
    [sourceUri] of a resource of some group, every resource is represented
    by an element that is the same object, and no object occurs twice. *)
Theorem getChangedResources_holds_each_object_once (repository : ISCMRepository) :
  NoDup (uri_obj <$> getChangedResources repository) /\
  (forall v, v ∈ getChangedResources repository ->
     exists g r, g ∈ groups (provider repository) /\ r ∈ elements g /\ sourceUri r = v) /\
  (forall g r, g ∈ groups (provider repository) -> r ∈ elements g ->
     exists v, v ∈ getChangedResources repository /\ uri_obj v = uri_obj (sourceUri r)).
Proof.
  split_and!.
  - apply getChangedResources_NoDup.
  - apply getChangedResources_sound.
  - apply getChangedResources_complete.
Qed.


(** The theorems of this part at concrete inputs. *)

Lemma folder_under_another_name_never_conflicts_witness :
  (findFolderRoot (tracking_b 0) "r1" false
     (mkFolder "elsewhere" (Some "id-w") [deletion "b.txt"])).2 = Some folder_w /\
  resolveWorkingChanges (fileService (stored session_ab []))
    (localChangesOf (tracking_b 0) (mkFolder "elsewhere" (Some "id-w") [deletion "b.txt"]))
    folder_w [deletion "b.txt"] [] []
  = Ok ([resolved_b], []).
Proof.
  split; [by vm_compute|].
  assert (Hnone : forall repository, repository ∈ repositories (tracking_b 0) ->
            ~ repositoryOfFolder (tracking_b 0)
                (mkFolder "elsewhere" (Some "id-w") [deletion "b.txt"]) repository).
  { intros repo Hrepo (root & wf & Hroot & Hwf & Hname).
    apply list_elem_of_singleton in Hrepo. subst repo.
    vm_compute in Hroot. injection Hroot as <-.
    vm_compute in Hwf. injection Hwf as <-.
    vm_compute in Hname. discriminate. }
  exact (folder_under_another_name_never_conflicts (tracking_b 0)
           (mkFolder "elsewhere" (Some "id-w") [deletion "b.txt"]) Hnone
           (fileService (stored session_ab [])) folder_w [] []).
Defined.

(** The folder of the session is named [v] and has the identity of [/w]:
    the scan passes over [/v], which comes first and has that name, and
    settles on [/w]. *)
Lemma folder_root_is_first_in_workspace_order_witness :
  workspaceFolders two_folders = [folder_v; folder_w] /\
  (findFolderRoot two_folders "r1" false (mkFolder "v" (Some "id-w") [])).2 = Some folder_w /\
  acceptable two_folders false (mkFolder "v" (Some "id-w") []) folder_w /\
  ~ acceptable two_folders false (mkFolder "v" (Some "id-w") []) folder_v.
Proof.
  assert (Hfound :
    (findFolderRoot two_folders "r1" false (mkFolder "v" (Some "id-w") [])).2
    = Some folder_w) by (by vm_compute).
  pose proof (proj1 (proj1 (folder_root_is_first_in_workspace_order two_folders "r1" false
                              (mkFolder "v" (Some "id-w") [])) folder_w) Hfound)
    as (before & after & Heq & Hacc & Hbefore).
  split_and!; [done|exact Hfound|exact Hacc|].
  apply Hbefore.
  destruct before as [|g before]; [discriminate Heq|].
  injection Heq as <- _. left.
Defined.

Lemma prompt_only_without_force_witness :
  partialMatchesEnabled (partial_workbench true) = true /\ false = false /\ "r1" = "r1".
Proof.
  apply (prompt_only_without_force (partial_workbench true)
           (fileService (stored session_ab []))
           (mkEditSession 2 [mkFolder "w" (Some "id-remote") []]) "r1" false "r1").
  apply list_elem_of_lookup_2 with (i := 1%nat). by vm_compute.
Defined.

Lemma generateChanges_when_every_folder_matches_witness :
  (generateChanges (tracking_b 0) (fileService (stored session_ab [])) session_ab "r1" false).2
  = Ok (flat_map (resolvedOf (tracking_b 0) "r1" false) (folders session_ab),
        flat_map (conflictsOf (tracking_b 0) (fileService (stored session_ab [])) "r1" false)
                 (folders session_ab)).
Proof.
  apply (generateChanges_when_every_folder_matches (tracking_b 0)
           (fileService (stored session_ab [])) session_ab "r1" false).
  intros folder ->%list_elem_of_singleton. split; [vm_compute; eexists; reflexivity|].
  intros root Hroot.
  assert (root = folder_w) as -> by (vm_compute in Hroot; vm_compute; congruence).
  repeat constructor; eexists; vm_compute; reflexivity.
Defined.

Lemma nothing_to_store_witness :
  storeEditSession (workbench [] 0) true world_a
  = (mkWorld (fs_saveAll (fileService world_a)) (storage world_a),
     [SaveAll; LogInfo SkippingStore; NotifyInfo no_edits_to_store], Ok None).
Proof.
  apply (nothing_to_store (workbench [] 0) true world_a). by vm_compute.
Defined.

(** [/w/b.txt] is to be stored and the store is full: the failure of
    [write] is logged and swallowed. *)
Lemma storeEditSession_outcome_witness :
  outcome (storeEditSession (tracking_b 0) false
             (mkWorld (fileService (stored session_ab [])) full_store)) = Ok None /\
  LogError (FailedToStore (UserDataSyncStoreError TooLarge))
    ∈ events (storeEditSession (tracking_b 0) false
                (mkWorld (fileService (stored session_ab [])) full_store)).
Proof.
  eapply (proj1 (proj2 (storeEditSession_outcome (tracking_b 0) false
                          (mkWorld (fileService (stored session_ab [])) full_store))));
    vm_compute; reflexivity.
Defined.

(** [/w/a.txt] cannot be written: the body of the [try] block throws, and
    the run ends normally with the failure reported. *)
Lemma resume_reports_failures_of_the_try_block_witness :
  outcome (resumeEditSession (tracking_b 1) (Some "r1") false false
             (stored session_ab ["/w/a.txt"])) = Ok tt /\
  final (resumeEditSession (tracking_b 1) (Some "r1") false false
           (stored session_ab ["/w/a.txt"]))
  = final (tryResume (tracking_b 1) session_ab "r1" false (stored session_ab ["/w/a.txt"])) /\
  events (resumeEditSession (tracking_b 1) (Some "r1") false false
            (stored session_ab ["/w/a.txt"]))
  = LogInfo (Resuming (Some "r1"))
      :: events (tryResume (tracking_b 1) session_ab "r1" false
                   (stored session_ab ["/w/a.txt"]))
      ++ [LogError (FailedToResume no_permissions); NotifyError resume_failed].
Proof.
  apply (proj1 (resume_reports_failures_of_the_try_block (tracking_b 1) (Some "r1")
                  false false (stored session_ab ["/w/a.txt"]))
               session_ab "r1" no_permissions);
    [discriminate|discriminate|by vm_compute|by vm_compute|by vm_compute].
Defined.

Lemma stored_folders_line_up_with_repositories_witness :
  version session_a_gone = 2 /\
  Forall2 (fun repository folder =>
             match workspaceFolderOf tracking_a_gone repository with
             | Some wf => name folder = wf_name wf /\
                          canonicalIdentity folder = getEditSessionIdentifier tracking_a_gone wf
             | None => canonicalIdentity folder = None
             end) (repositories tracking_a_gone) (folders session_a_gone).
Proof.
  apply (stored_folders_line_up_with_repositories tracking_a_gone true world_a session_a_gone).
  apply list_elem_of_lookup_2 with (i := 2%nat). by vm_compute.
Defined.

Lemma stored_addition_is_written_back_witness :
  exists u value,
    fs_readFile (fs_saveAll (fileService world_a)) u = Ok value /\
    forall (w' : World MemFS MemStore) (root : IWorkspaceFolder),
      decodeEditSessionFileContent (version session_a_gone) (Some (encodeBase64 value))
        = Ok value ->
      events (applyChange (version session_a_gone)
                (resolveChange root (addition "a.txt" "hello")) w')
      = [WriteFile (joinPath (wf_uri root) (relativeFilePath (addition "a.txt" "hello"))) value].
Proof.
  apply (stored_addition_is_written_back tracking_a_gone true world_a session_a_gone
           (mkFolder "w" (Some "id-w") [addition "a.txt" "hello"; deletion "gone.txt"])
           (addition "a.txt" "hello")).
  - apply list_elem_of_lookup_2 with (i := 2%nat). by vm_compute.
  - by left.
  - by left.
  - reflexivity.
Defined.

(** * Continue Working On, on the sample workspace *)

(** Nothing changed and the quick pick resolves to [remote.open]: the
    remote window is opened as the command returned it. *)
Lemma continue_without_changes_witness :
  (ContinueOn.continueEditSession (workbench [] 0)
     (ContinueOn.sample_services (Some "remote.open")) None (world [] [] [])).1.1
  = world [] [] [] /\
  exists resolving,
    (ContinueOn.continueEditSession (workbench [] 0)
       (ContinueOn.sample_services (Some "remote.open")) None (world [] [] [])).1.2
    = ContinueOn.PublicLog "editSessions.continue.store"
        :: resolving ++ [ContinueOn.LogOpening ContinueOn.remote_window;
                         ContinueOn.Open ContinueOn.remote_window] /\
    Forall (fun e => exists c, e = ContinueOn.ExecuteCommand c) resolving.
Proof.
  apply (continue_without_changes (workbench [] 0)
           (ContinueOn.sample_services (Some "remote.open")) None (world [] [] [])
           ContinueOn.remote_window); reflexivity.
Defined.

(** Source control lists a file outside the workspace folder: nothing is
    written to the store, the action warns and the remote window is not
    opened. *)
Lemma continue_with_changes_outside_the_workspace_witness :
  let run := ContinueOn.continueEditSession ContinueOn.tracking_outside
               (ContinueOn.sample_services (Some "remote.open")) None (world [] [] []) in
  ContinueOn.WarnFailedToStore ∈ run.1.2 /\
  (forall u, ContinueOn.Open u ∉ run.1.2) /\
  (forall data, ContinueOn.Store (StorageWrite data) ∉ run.1.2) /\
  run.2 = Ok tt.
Proof.
  apply (continue_with_changes_outside_the_workspace ContinueOn.tracking_outside
           (ContinueOn.sample_services (Some "remote.open")) None (world [] [] [])
           (ContinueOn.DestinationUri ContinueOn.remote_window)); [|reflexivity..].
  intros repository u ->%list_elem_of_singleton Hu.
  vm_compute in Hu. apply list_elem_of_singleton in Hu. by subst u.
Defined.

(** * [ExtensionsWatcher]: which profile lists which extension *)

Module ExtensionsWatcherFacts.

Import ExtensionsWatcher.

Section Facts.

Context `{HP : Helpers}.

(** ** The map *)

Ltac eqb_cases :=
  repeat (simpl; match goal with
          | |- context [String.eqb ?a ?b] =>
              destruct (String.eqb_spec a b); subst
          | H : context [String.eqb ?a ?b] |- _ =>
              destruct (String.eqb_spec a b); subst
          end); simpl; try done; try congruence.

Lemma Map_get_set m k v k' :
  Map_get (Map_set m k v) k' = if String.eqb k k' then Some v else Map_get m k'.
Proof.
  induction m as [|[k0 w] m IH]; [by eqb_cases|].
  simpl. destruct (String.eqb_spec k0 k); subst; simpl.
  - by eqb_cases.
  - rewrite IH. by eqb_cases.
Qed.

Lemma Map_get_delete m k k' :
  Map_get (Map_delete m k) k' = if String.eqb k k' then None else Map_get m k'.
Proof.
  unfold Map_delete. induction m as [|[k0 w] m IH]; [by eqb_cases|].
  simpl. destruct (String.eqb_spec k0 k); subst; simpl; rewrite IH; by eqb_cases.
Qed.

Lemma Map_get_Some_elem m k v : Map_get m k = Some v -> (k, v) ∈ m.
Proof.
  induction m as [|[k0 w] m IH]; simpl; [done|].
  destruct (String.eqb_spec k0 k) as [->|Hne].
  - intros [= ->]. left.
  - intros Hget. right. by apply IH.
Qed.

Lemma Map_get_None_keys m k : Map_get m k = None <-> k ∉ Map_keys m.
Proof.
  unfold Map_keys. induction m as [|[k0 w] m IH]; simpl.
  - split; [intros _; apply not_elem_of_nil|done].
  - rewrite not_elem_of_cons. destruct (String.eqb_spec k0 k) as [->|Hne].
    + split; [done|by intros [? _]].
    + rewrite IH. split; [by split|by intros [_ ?]].
Qed.

Lemma Map_keys_set_present m k v :
  is_Some (Map_get m k) -> Map_keys (Map_set m k v) = Map_keys m.
Proof.
  unfold Map_keys. induction m as [|[k0 w] m IH]; simpl; [by intros [? ?]|].
  destruct (String.eqb_spec k0 k) as [->|Hne]; simpl; [done|].
  intros Hsome. f_equal. by apply IH.
Qed.

Lemma Map_keys_set_fresh m k v :
  Map_get m k = None -> Map_set m k v = m ++ [(k, v)].
Proof.
  induction m as [|[k0 w] m IH]; simpl; [done|].
  destruct (String.eqb_spec k0 k) as [->|Hne]; [done|].
  intros Hget. by rewrite IH.
Qed.

Lemma Map_set_same m k v : Map_get m k = Some v -> Map_set m k v = m.
Proof.
  induction m as [|[k0 w] m IH]; simpl; [done|].
  destruct (String.eqb_spec k0 k) as [->|Hne].
  - by intros [= ->].
  - intros Hget. by rewrite IH.
Qed.

Lemma Map_set_set m k v w : Map_set (Map_set m k v) k w = Map_set m k w.
Proof.
  induction m as [|[k0 u] m IH]; simpl.
  - by rewrite String.eqb_refl.
  - destruct (String.eqb_spec k0 k) as [->|Hne]; simpl.
    + by rewrite String.eqb_refl.
    + apply String.eqb_neq in Hne as ->. by rewrite IH.
Qed.

Lemma Map_delete_fresh m k : Map_get m k = None -> Map_delete m k = m.
Proof.
  unfold Map_delete. induction m as [|[k0 w] m IH]; simpl; [done|].
  destruct (String.eqb_spec k0 k) as [->|Hne]; [done|].
  simpl. intros Hget. by rewrite IH.
Qed.

Lemma Map_delete_set_fresh m k v : Map_get m k = None -> Map_delete (Map_set m k v) k = m.
Proof.
  intros Hget. rewrite Map_keys_set_fresh by done.
  unfold Map_delete. rewrite List.filter_app. simpl.
  rewrite String.eqb_refl. simpl. rewrite app_nil_r.
  by apply Map_delete_fresh.
Qed.

Lemma Map_has_true m k : Map_has m k = true <-> is_Some (Map_get m k).
Proof. unfold Map_has. destruct (Map_get m k); split; try done. Qed.

(** ** Which profile lists which key *)

Lemma listedIn_add m k l k' l' :
  listedIn (addExtensionWithKey m k l) k' l' <->
  listedIn m k' l' \/ (k' = k /\ getComparisonKey l' = getComparisonKey l).
Proof.
  unfold listedIn, addExtensionWithKey, ResourceSet_add.
  destruct (Map_get m k) as [profiles|] eqn:Hget; setoid_rewrite Map_get_set;
    destruct (String.eqb_spec k k') as [<-|Hne].
  - rewrite Hget. split.
    + intros (s & [= <-] & Hs). apply lookup_insert_is_Some' in Hs as [Hs|Hs]; [by right|].
      left. by exists profiles.
    + intros [(s & [= <-] & Hs)|[_ Hc]]; eexists; (split; [done|]);
        apply lookup_insert_is_Some'; auto.
  - split; [by left|]. intros [?|[? _]]; [done|congruence].
  - rewrite Hget. split.
    + intros (s & [= <-] & Hs). apply lookup_insert_is_Some' in Hs as [Hs|Hs]; [by right|].
      rewrite lookup_empty in Hs. by destruct Hs.
    + intros [(s & [=] & _)|[_ Hc]]. eexists. split; [done|].
      apply lookup_insert_is_Some'. auto.
  - split; [by left|]. intros [?|[? _]]; [done|congruence].
Qed.

Lemma listedIn_remove m k l k' l' :
  listedIn (removeExtensionWithKey m k l) k' l' <->
  listedIn m k' l' /\ ~ (k' = k /\ getComparisonKey l' = getComparisonKey l).
Proof.
  unfold listedIn, removeExtensionWithKey, ResourceSet_delete.
  destruct (Map_get m k) as [profiles|] eqn:Hget.
  - destruct (Nat.eqb_spec (size (delete (getComparisonKey l) profiles)) 0) as [Hsize|Hsize].
    + apply map_size_empty_iff in Hsize.
      setoid_rewrite Map_get_delete.
      destruct (String.eqb_spec k k') as [<-|Hne].
      * rewrite Hget. split; [by intros (s & [=] & _)|].
        intros [(s & [= <-] & Hs) Hn]. exfalso.
        assert (is_Some (delete (getComparisonKey l) profiles !! getComparisonKey l')) as Hd.
        { apply lookup_delete_is_Some. split; [|done]. intros Heq. by apply Hn. }
        rewrite Hsize, lookup_empty in Hd. by destruct Hd.
      * split; [intros ?; split; [done|]; by intros [-> _]|by intros [? _]].
    + setoid_rewrite Map_get_set.
      destruct (String.eqb_spec k k') as [<-|Hne].
      * rewrite Hget. split.
        -- intros (s & [= <-] & Hs). apply lookup_delete_is_Some in Hs as [Hc Hs].
           split; [by exists profiles|]. intros [_ Heq]. by apply Hc.
        -- intros [(s & [= <-] & Hs) Hn]. eexists. split; [done|].
           apply lookup_delete_is_Some. split; [|done]. intros Heq. by apply Hn.
      * split; [intros ?; split; [done|]; by intros [-> _]|by intros [? _]].
  - setoid_rewrite Map_get_delete.
    destruct (String.eqb_spec k k') as [<-|Hne].
    + rewrite Hget. split; [by intros (s & [=] & _)|by intros [(s & [=] & _) _]].
    + split; [intros ?; split; [done|]; by intros [-> _]|by intros [? _]].
Qed.

(** ** The invariant *)

Lemma wellFormedSet_add profiles l :
  profiles = ∅ \/ wellFormedSet profiles -> wellFormedSet (ResourceSet_add profiles l).
Proof.
  intros Hwf. unfold ResourceSet_add. split; [apply insert_non_empty|].
  intros c u [[<- <-]|[Hne Hu]]%lookup_insert_Some; [done|].
  destruct Hwf as [->|[_ Hkeys]]; [by rewrite lookup_empty in Hu|by apply Hkeys].
Qed.

Lemma Forall_Map_set (P : string * ResourceSet -> Prop) m k v :
  (forall k0, P (k0, v)) -> Forall P m -> Forall P (Map_set m k v).
Proof.
  intros Hv. induction 1 as [|[k0 w] m Hw Hm IH]; simpl.
  - by apply Forall_singleton.
  - destruct (String.eqb k0 k); by constructor.
Qed.

Lemma Forall_Map_delete (P : string * ResourceSet -> Prop) m k :
  Forall P m -> Forall P (Map_delete m k).
Proof.
  unfold Map_delete. induction 1 as [|[k0 w] m Hw Hm IH]; simpl; [constructor|].
  destruct (negb (String.eqb k0 k)); [by constructor|done].
Qed.

Lemma NoDup_Map_delete m k : NoDup (Map_keys m) -> NoDup (Map_keys (Map_delete m k)).
Proof.
  unfold Map_keys, Map_delete. induction m as [|[k0 w] m IH]; simpl; [done|].
  intros [Hnotin Hnd]%NoDup_cons.
  destruct (String.eqb_spec k0 k) as [->|Hne]; simpl; [by apply IH|].
  apply NoDup_cons. split; [|by apply IH].
  intros Hin. apply Hnotin.
  apply list_elem_of_fmap in Hin as ([k1 w1] & -> & Hin).
  apply list_elem_of_In, List.filter_In in Hin as [Hin _].
  apply list_elem_of_fmap. exists (k1, w1). split; [done|by apply list_elem_of_In].
Qed.

Lemma NoDup_Map_set m k v : NoDup (Map_keys m) -> NoDup (Map_keys (Map_set m k v)).
Proof.
  intros Hnd. destruct (Map_get m k) as [w|] eqn:Hget.
  - by rewrite Map_keys_set_present.
  - rewrite Map_keys_set_fresh by done. unfold Map_keys in *. rewrite fmap_app. simpl.
    apply NoDup_app. split_and!; [done| |apply NoDup_singleton].
    intros x Hx Hk%list_elem_of_singleton. subst x. by apply Map_get_None_keys in Hget.
Qed.

Lemma wellFormed_get m k profiles :
  wellFormed m -> Map_get m k = Some profiles -> wellFormedSet profiles.
Proof.
  intros [_ Hall] Hget%Map_get_Some_elem.
  by eapply Forall_forall in Hall; [|exact Hget].
Qed.

Lemma wellFormed_add m k l : wellFormed m -> wellFormed (addExtensionWithKey m k l).
Proof.
  intros Hwf. pose proof Hwf as [Hnd Hall]. unfold addExtensionWithKey.
  destruct (Map_get m k) as [profiles|] eqn:Hget; (split; [by apply NoDup_Map_set|]);
    apply Forall_Map_set; try done; intros ?; simpl; apply wellFormedSet_add.
  - right. by eapply wellFormed_get.
  - by left.
Qed.

Lemma wellFormed_remove m k l : wellFormed m -> wellFormed (removeExtensionWithKey m k l).
Proof.
  intros Hwf. pose proof Hwf as [Hnd Hall]. unfold removeExtensionWithKey.
  destruct (Map_get m k) as [profiles|] eqn:Hget;
    [|by split; [apply NoDup_Map_delete|apply Forall_Map_delete]].
  destruct (Nat.eqb_spec (size (ResourceSet_delete profiles l)) 0) as [Hsize|Hsize];
    [by split; [apply NoDup_Map_delete|apply Forall_Map_delete]|].
  split; [by apply NoDup_Map_set|]. apply Forall_Map_set; [|done].
  intros ?. simpl. split.
  - intros Hempty. apply Hsize. by rewrite Hempty, map_size_empty.
  - unfold ResourceSet_delete. intros c u [_ Hu]%lookup_delete_Some.
    by eapply (wellFormed_get m k profiles Hwf Hget).
Qed.

Lemma wellFormed_fold {A} (step : ExtensionsMap -> A -> ExtensionsMap) (l : list A) m :
  (forall m x, wellFormed m -> wellFormed (step m x)) ->
  wellFormed m -> wellFormed (fold_left step l m).
Proof.
  intros Hstep. revert m. induction l as [|x l IH]; intros m Hwf; simpl; [done|].
  apply IH. by apply Hstep.
Qed.

Lemma Map_has_listedIn m k :
  wellFormed m -> Map_has m k = true <-> exists l, listedIn m k l.
Proof.
  intros Hwf. rewrite Map_has_true. split.
  - intros [profiles Hget].
    destruct (wellFormed_get m k profiles Hwf Hget) as [Hne Hkeys].
    apply map_choose in Hne as (c & u & Hcu).
    exists u, profiles. split; [done|]. by rewrite (Hkeys c u Hcu), Hcu.
  - intros (l & profiles & Hget & _). by exists profiles.
Qed.

(** ** Loops of additions and removals *)

Lemma listedIn_fold_add {A} (f : A -> string) (xs : list A) loc m k l :
  listedIn (fold_left (fun m x => addExtensionWithKey m (f x) loc) xs m) k l <->
  listedIn m k l \/ (k ∈ map f xs /\ getComparisonKey l = getComparisonKey loc).
Proof.
  revert m. induction xs as [|x xs IH]; intros m; simpl.
  - split; [by left|]. intros [?|[?%elem_of_nil _]]; done.
  - rewrite IH, listedIn_add, elem_of_cons. tauto.
Qed.

Lemma listedIn_fold_remove {A} (f : A -> string) (xs : list A) loc m k l :
  listedIn (fold_left (fun m x => removeExtensionWithKey m (f x) loc) xs m) k l <->
  listedIn m k l /\ ~ (k ∈ map f xs /\ getComparisonKey l = getComparisonKey loc).
Proof.
  revert m. induction xs as [|x xs IH]; intros m; simpl.
  - split; [|by intros [? _]]. intros ?. split; [done|]. by intros [?%elem_of_nil _].
  - rewrite IH, listedIn_remove, elem_of_cons. tauto.
Qed.

Lemma wellFormed_fold_add {A} (f : A -> string) (xs : list A) loc m :
  wellFormed m ->
  wellFormed (fold_left (fun m x => addExtensionWithKey m (f x) loc) xs m).
Proof. apply wellFormed_fold. intros. by apply wellFormed_add. Qed.

Lemma wellFormed_fold_remove {A} (f : A -> string) (xs : list A) loc m :
  wellFormed m ->
  wellFormed (fold_left (fun m x => removeExtensionWithKey m (f x) loc) xs m).
Proof. apply wellFormed_fold. intros. by apply wellFormed_remove. Qed.

Lemma Map_has_iff m m' k k' :
  wellFormed m -> wellFormed m' ->
  (forall l, listedIn m k l <-> listedIn m' k' l) ->
  Map_has m k = Map_has m' k'.
Proof.
  intros Hwf Hwf' Hiff.
  pose proof (Map_has_listedIn m k Hwf) as H1.
  pose proof (Map_has_listedIn m' k' Hwf') as H2.
  destruct (Map_has m k), (Map_has m' k'); try done.
  - destruct (proj1 H1 eq_refl) as [l Hl]. symmetry. apply H2. exists l. by apply Hiff.
  - destruct (proj1 H2 eq_refl) as [l Hl]. apply H1. exists l. by apply Hiff.
Qed.

Lemma elem_of_markAsUninstalled (toUninstall : list IExtension) extension :
  extension ∈ concat (markAsUninstalled toUninstall) <-> extension ∈ toUninstall.
Proof.
  destruct toUninstall as [|x xs]; simpl; [done|]. by rewrite app_nil_r.
Qed.

Lemma elem_of_filter_bool {A} (p : A -> bool) (xs : list A) x :
  x ∈ List.filter p xs <-> x ∈ xs /\ p x = true.
Proof. rewrite !list_elem_of_In. apply List.filter_In. Qed.

(** The loop of [onDidRemoveExtensions] when the removal succeeded: the
    map after the removals, and the extensions whose key is gone from it. *)
Lemma onDidRemoveExtensions_loop_removed m exts loc acc :
  wellFormed m ->
  fold_left
    (fun '(m, extensionsToUninstall) extension =>
       let m := removeExtensionWithKey m (keyOf extension) loc in
       if Map_has m (keyOf extension) then (m, extensionsToUninstall)
       else (m, extensionsToUninstall ++ [extension]))
    exts (m, acc)
  = (fold_left (fun m extension => removeExtensionWithKey m (keyOf extension) loc) exts m,
     acc ++ List.filter
              (fun extension =>
                 negb (Map_has
                         (fold_left (fun m extension =>
                                       removeExtensionWithKey m (keyOf extension) loc) exts m)
                         (keyOf extension)))
              exts).
Proof.
  revert m acc. induction exts as [|x exts IH]; intros m acc Hwf; simpl.
  - by rewrite app_nil_r.
  - set (m1 := removeExtensionWithKey m (keyOf x) loc).
    assert (Hwf1 : wellFormed m1) by (by apply wellFormed_remove).
    set (mf := fold_left (fun m extension => removeExtensionWithKey m (keyOf extension) loc)
                         exts m1).
    assert (Hsame : Map_has m1 (keyOf x) = Map_has mf (keyOf x)).
    { apply Map_has_iff; [done|by apply wellFormed_fold_remove|].
      intros l. unfold mf. rewrite listedIn_fold_remove. unfold m1.
      rewrite listedIn_remove. tauto. }
    rewrite <- Hsame.
    destruct (Map_has m1 (keyOf x)); simpl; rewrite IH by done; [done|].
    by rewrite <- app_assoc.
Qed.

Lemma onDidRemoveExtensions_loop_failed m exts loc (acc : list IExtension) :
  fold_left
    (fun '(m, extensionsToUninstall) extension =>
       (addExtensionWithKey m (keyOf extension) loc, extensionsToUninstall))
    exts (m, acc)
  = (fold_left (fun m extension => addExtensionWithKey m (keyOf extension) loc) exts m, acc).
Proof. revert m. induction exts as [|x exts IH]; intros m; simpl; [done|apply IH]. Qed.

Lemma profileChange_added cached loc scanned m (acc : list IExtensionIdentifier) :
  fold_left
    (fun '(m, added) extension =>
       let key := keyOf extension in
       if inKeys cached key then (m, added)
       else (addExtensionWithKey m key loc, added ++ [identifier extension]))
    scanned (m, acc)
  = (fold_left (fun m x => addExtensionWithKey m (keyOf x) loc)
               (newlyListed cached scanned) m,
     acc ++ map identifier (newlyListed cached scanned)).
Proof.
  unfold newlyListed. revert m acc.
  induction scanned as [|x scanned IH]; intros m acc; simpl; [by rewrite app_nil_r|].
  destruct (inKeys cached (keyOf x)); simpl; rewrite IH; [done|].
  by rewrite <- app_assoc.
Qed.

Lemma profileChange_removed extensionKeys loc cached m (acc : list IExtensionIdentifier) :
  fold_left
    (fun '(m, removed) key =>
       if inKeys extensionKeys key then (m, removed)
       else
         match fromKey key with
         | Some extension =>
             (removeExtensionWithKey m key loc, removed ++ [identifier extension])
         | None => (m, removed)
         end)
    cached (m, acc)
  = (fold_left (fun m kx => removeExtensionWithKey m kx.1 loc)
               (noLongerListed extensionKeys cached) m,
     acc ++ map (fun kx => identifier kx.2) (noLongerListed extensionKeys cached)).
Proof.
  unfold noLongerListed. revert m acc.
  induction cached as [|k cached IH]; intros m acc; simpl; [by rewrite app_nil_r|].
  destruct (inKeys extensionKeys k); simpl; [apply IH|].
  destruct (fromKey k) as [x|]; simpl; rewrite IH; [|done].
  by rewrite <- app_assoc.
Qed.

Lemma elem_of_not_tracked m (xs : list IExtension) x :
  wellFormed m ->
  x ∈ List.filter (fun x => negb (Map_has m (keyOf x))) xs <->
  x ∈ xs /\ forall loc, ~ listedIn m (keyOf x) loc.
Proof.
  intros Hwf. rewrite elem_of_filter_bool, negb_true_iff.
  pose proof (Map_has_listedIn m (keyOf x) Hwf) as Hhas.
  split; intros [Hin Hno]; (split; [done|]).
  - intros loc Hl. assert (Map_has m (keyOf x) = true) by (apply Hhas; by exists loc).
    congruence.
  - destruct (Map_has m (keyOf x)); [|done].
    destruct (proj1 Hhas eq_refl) as [loc Hl]. by destruct (Hno loc).
Qed.

Lemma inKeys_true keys k : inKeys keys k = true <-> k ∈ keys.
Proof.
  unfold inKeys. rewrite existsb_exists. split.
  - intros (x & Hx & ->%String.eqb_eq). by apply list_elem_of_In.
  - intros Hk. exists k. split; [by apply list_elem_of_In|apply String.eqb_refl].
Qed.

Lemma inKeys_false keys k : inKeys keys k = false <-> k ∉ keys.
Proof.
  rewrite <- inKeys_true. destruct (inKeys keys k); split; done.
Qed.

Lemma Map_get_elem m k v : NoDup (Map_keys m) -> (k, v) ∈ m -> Map_get m k = Some v.
Proof.
  unfold Map_keys. induction m as [|[k0 w] m IH]; simpl; [by intros _ ?%elem_of_nil|].
  intros [Hnotin Hnd]%NoDup_cons [[= -> ->]|Hin]%elem_of_cons.
  - by rewrite String.eqb_refl.
  - destruct (String.eqb_spec k0 k) as [->|Hne]; [|by apply IH].
    exfalso. apply Hnotin. apply list_elem_of_fmap. by exists (k, v).
Qed.

Lemma elem_of_cachedKeys m loc k :
  wellFormed m -> k ∈ cachedKeys m loc <-> listedIn m k loc.
Proof.
  intros [Hnd _]. unfold cachedKeys, listedIn, ResourceSet_has. split.
  - intros ([k0 v] & -> & [Hin Hhas]%elem_of_filter_bool)%list_elem_of_fmap.
    exists v. split; [by apply Map_get_elem|]. by apply bool_decide_eq_true in Hhas.
  - intros (v & Hget%Map_get_Some_elem & Hsome).
    apply list_elem_of_fmap. exists (k, v). split; [done|].
    apply elem_of_filter_bool. split; [done|]. by apply bool_decide_eq_true.
Qed.

Lemma elem_of_newlyListed cached scanned x :
  x ∈ newlyListed cached scanned <-> x ∈ scanned /\ (keyOf x ∉ cached).
Proof.
  unfold newlyListed. by rewrite elem_of_filter_bool, negb_true_iff, inKeys_false.
Qed.

Lemma elem_of_noLongerListed extensionKeys cached k x :
  (k, x) ∈ noLongerListed extensionKeys cached <->
  k ∈ cached /\ (k ∉ extensionKeys) /\ fromKey k = Some x.
Proof.
  unfold noLongerListed. rewrite list_elem_of_omap. split.
  - intros (k0 & Hin & Hsome). destruct (inKeys extensionKeys k0) eqn:Hk; [done|].
    apply inKeys_false in Hk. destruct (fromKey k0) as [x0|] eqn:Hfrom; [|done].
    simpl in Hsome. injection Hsome as -> ->. done.
  - intros (Hin & Hk%inKeys_false & Hfrom). exists k. split; [done|].
    by rewrite Hk, Hfrom.
Qed.

Lemma listedIn_same_key m k loc loc' :
  getComparisonKey loc' = getComparisonKey loc -> listedIn m k loc' <-> listedIn m k loc.
Proof. intros Hc. unfold listedIn. by rewrite Hc. Qed.

(** The map after [onDidExtensionsProfileChange] and the two lists of the
    event. *)
Lemma onDidExtensionsProfileChange_run m loc scanned :
  let added := newlyListed (cachedKeys m loc) scanned in
  let removed := noLongerListed (map keyOf scanned) (cachedKeys m loc) in
  (onDidExtensionsProfileChange m loc scanned).1
    = fold_left (fun m kx => removeExtensionWithKey m kx.1 loc) removed
        (fold_left (fun m x => addExtensionWithKey m (keyOf x) loc) added m) /\
  match (onDidExtensionsProfileChange m loc scanned).2 with
  | None => added = [] /\ removed = []
  | Some fired =>
      (added <> [] \/ removed <> []) /\
      changedOf (ExtensionsWatcher.added fired) = map identifier added /\
      changedOf (ExtensionsWatcher.removed fired) = map (fun kx => identifier kx.2) removed /\
      (forall side, ExtensionsWatcher.added fired = Some side \/
                    ExtensionsWatcher.removed fired = Some side ->
                    location side = loc /\ changed side <> [])
  end.
Proof.
  intros added removed. unfold onDidExtensionsProfileChange.
  rewrite profileChange_added, profileChange_removed.
  fold added removed. simpl.
  destruct added as [|a added'], removed as [|r removed']; simpl.
  - done.
  - split; [done|]. split_and!; [by right|done|done|].
    intros side [[=]|[= <-]]. done.
  - split; [done|]. split_and!; [by left|done|done|].
    intros side [[= <-]|[=]]. done.
  - split; [done|]. split_and!; [by left|done|done|].
    intros side [[= <-]|[= <-]]; done.
Qed.

(** ** The theorems *)

(** X19: after [addExtensionWithKey] a profile lists a key when it did before
    or it is the pair just added; after [removeExtensionWithKey] when it
    did before and it is not the pair just removed.  Profile locations
    count as equal when their comparison keys are. *)
Theorem listing_after_add_and_remove (m : ExtensionsMap) (key : string) (loc : URI)
    (key' : string) (loc' : URI) :
  (listedIn (addExtensionWithKey m key loc) key' loc' <->
   listedIn m key' loc' \/
   (key' = key /\ getComparisonKey loc' = getComparisonKey loc)) /\
  (listedIn (removeExtensionWithKey m key loc) key' loc' <->
   listedIn m key' loc' /\
   ~ (key' = key /\ getComparisonKey loc' = getComparisonKey loc)).
Proof. split; [apply listedIn_add|apply listedIn_remove]. Qed.

(** X20: a key is in the map exactly when some profile lists it: an entry
    whose last profile is removed is deleted with it. *)
Theorem tracked_iff_listed (m : ExtensionsMap) (key : string) (loc : URI) :
  wellFormed m ->
  (Map_has (addExtensionWithKey m key loc) key = true) /\
  (Map_has (removeExtensionWithKey m key loc) key = true <->
   exists loc', listedIn m key loc' /\ getComparisonKey loc' <> getComparisonKey loc) /\
  (forall key', Map_has m key' = true <-> exists loc', listedIn m key' loc').
Proof.
  intros Hwf. split_and!.
  - apply Map_has_listedIn; [by apply wellFormed_add|].
    exists loc. apply listedIn_add. by right.
  - rewrite Map_has_listedIn by (by apply wellFormed_remove).
    setoid_rewrite listedIn_remove.
    split; intros (loc' & Hl & Hn); exists loc'; (split; [done|]); tauto.
  - intros key'. by apply Map_has_listedIn.
Qed.

(** X21: removing what was just added gives back the map as it was, entry
    order included, when the profile did not list the key before. *)
Theorem remove_after_add (m : ExtensionsMap) (key : string) (loc : URI) :
  wellFormed m ->
  ~ listedIn m key loc ->
  removeExtensionWithKey (addExtensionWithKey m key loc) key loc = m.
Proof.
  intros Hwf Hnot. unfold addExtensionWithKey, removeExtensionWithKey.
  destruct (Map_get m key) as [profiles|] eqn:Hget.
  - assert (Hc : profiles !! getComparisonKey loc = None).
    { destruct (profiles !! getComparisonKey loc) eqn:Hc; [|done].
      exfalso. apply Hnot. exists profiles. by rewrite Hc. }
    rewrite Map_get_set, String.eqb_refl.
    unfold ResourceSet_delete, ResourceSet_add. rewrite delete_insert_id by done.
    destruct (wellFormed_get m key profiles Hwf Hget) as [Hne _].
    destruct (Nat.eqb_spec (size profiles) 0) as [Hsize%map_size_empty_iff|_]; [done|].
    rewrite Map_set_set. by apply Map_set_same.
  - rewrite Map_get_set, String.eqb_refl.
    unfold ResourceSet_delete, ResourceSet_add.
    rewrite delete_insert_id by apply lookup_empty.
    rewrite map_size_empty. simpl. by apply Map_delete_set_fresh.
Qed.

(** X22: every handler keeps the map well formed, and the map starts so. *)
Theorem handlers_keep_wellFormed (m : ExtensionsMap) (e : ProfileExtensionsEvent)
    (loc : URI) (scanned installed : list IExtension) :
  wellFormed m ->
  wellFormed [] /\
  wellFormed (onAddExtensions m e) /\
  wellFormed (onDidAddExtensions m e) /\
  wellFormed (onRemoveExtensions m e) /\
  wellFormed (onDidRemoveExtensions m e).1 /\
  wellFormed (onDidExtensionsProfileChange m loc scanned).1 /\
  wellFormed (populateExtensionsFromProfile m loc scanned) /\
  wellFormed (removeExtensionsFromProfile m loc installed).1.
Proof.
  intros Hwf. split_and!.
  - split; [apply NoDup_nil_2|constructor].
  - by apply wellFormed_fold_add.
  - unfold onDidAddExtensions. apply wellFormed_fold; [|done].
    intros m0 x Hm0. destruct (error e); [by apply wellFormed_remove|by apply wellFormed_add].
  - by apply wellFormed_fold_remove.
  - unfold onDidRemoveExtensions, onDidRemoveExtensions_loop.
    destruct (error e); simpl.
    + rewrite onDidRemoveExtensions_loop_failed. simpl. by apply wellFormed_fold_add.
    + rewrite onDidRemoveExtensions_loop_removed by done. simpl.
      by apply wellFormed_fold_remove.
  - unfold onDidExtensionsProfileChange.
    rewrite profileChange_added, profileChange_removed.
    assert (wellFormed
              (fold_left (fun m kx => removeExtensionWithKey m kx.1 loc)
                 (noLongerListed (map keyOf scanned) (cachedKeys m loc))
                 (fold_left (fun m x => addExtensionWithKey m (keyOf x) loc)
                            (newlyListed (cachedKeys m loc) scanned) m))) as Hfinal
      by (by apply wellFormed_fold_remove, wellFormed_fold_add).
    simpl. by repeat case_match.
  - by apply wellFormed_fold_add.
  - unfold removeExtensionsFromProfile. simpl.
    by apply (wellFormed_fold_remove (fun key : string => key)).
Qed.

(** X23: after [onAddExtensions] (and [populateExtensionsFromProfile]) the
    profile of the event lists every extension of the event and all other
    listings are as before; after [onRemoveExtensions] it lists none of
    them and all other listings are as before. *)
Theorem listing_after_add_and_remove_events (m : ExtensionsMap)
    (e : ProfileExtensionsEvent) (key : string) (loc : URI) :
  (listedIn (onAddExtensions m e) key loc <->
   listedIn m key loc \/
   (key ∈ map keyOf (extensions e) /\
    getComparisonKey loc = getComparisonKey (profileLocation e))) /\
  (listedIn (populateExtensionsFromProfile m (profileLocation e) (extensions e)) key loc <->
   listedIn (onAddExtensions m e) key loc) /\
  (listedIn (onRemoveExtensions m e) key loc <->
   listedIn m key loc /\
   ~ (key ∈ map keyOf (extensions e) /\
      getComparisonKey loc = getComparisonKey (profileLocation e))).
Proof.
  split_and!; [apply listedIn_fold_add|done|apply listedIn_fold_remove].
Qed.

(** X24: [onDidAddExtensions] with an error takes back what [onAddExtensions]
    did for the same event: when the profile listed none of the event's
    extensions before, the listings are again those before the add. *)
Theorem failed_add_is_taken_back (m : ExtensionsMap) (e : ProfileExtensionsEvent)
    (ex : Error) (key : string) (loc : URI) :
  error e = Some ex ->
  (forall extension, extension ∈ extensions e ->
     ~ listedIn m (keyOf extension) (profileLocation e)) ->
  listedIn (onDidAddExtensions (onAddExtensions m e) e) key loc <-> listedIn m key loc.
Proof.
  intros Herr Hfresh. unfold onDidAddExtensions. rewrite Herr.
  rewrite listedIn_fold_remove. unfold onAddExtensions. rewrite listedIn_fold_add.
  split; [tauto|]. intros Hl. split; [by left|].
  intros [Hin Hc]. apply list_elem_of_fmap in Hin as (x & -> & Hx).
  apply (Hfresh x Hx). destruct Hl as (profiles & Hget & Hsome).
  exists profiles. split; [done|]. by rewrite <- Hc.
Qed.

(** X25: [onDidRemoveExtensions]: after a removal that succeeded the event's
    profile lists none of the extensions, and [markAsUninstalled] is
    called, once, with exactly the extensions of the event that no profile
    lists any more; after a removal that failed the extensions are listed
    again and nothing is marked. *)
Theorem onDidRemoveExtensions_spec (m : ExtensionsMap) (e : ProfileExtensionsEvent) :
  wellFormed m ->
  match error e with
  | Some _ =>
      onDidRemoveExtensions m e = (onAddExtensions m e, [])
  | None =>
      (onDidRemoveExtensions m e).1 = onRemoveExtensions m e /\
      (length (onDidRemoveExtensions m e).2 <= 1)%nat /\
      forall extension,
        extension ∈ concat (onDidRemoveExtensions m e).2 <->
        extension ∈ extensions e /\
        forall loc, ~ listedIn (onRemoveExtensions m e) (keyOf extension) loc
  end.
Proof.
  intros Hwf. unfold onDidRemoveExtensions, onDidRemoveExtensions_loop.
  destruct (error e); simpl.
  - by rewrite onDidRemoveExtensions_loop_failed.
  - rewrite onDidRemoveExtensions_loop_removed by done. simpl.
    fold (onRemoveExtensions m e).
    split_and!; [done| |].
    + unfold markAsUninstalled. by case_match; simpl; lia.
    + intros x. rewrite elem_of_markAsUninstalled.
      apply elem_of_not_tracked. by apply wellFormed_fold_remove.
Qed.

(** X26: [uninstallExtensionsNotInProfiles] marks exactly the installed
    extensions that no profile lists, in one call, and makes no call when
    every installed extension is listed. *)
Theorem uninstallExtensionsNotInProfiles_spec (m : ExtensionsMap)
    (installed : list IExtension) :
  wellFormed m ->
  (forall extension,
     extension ∈ concat (uninstallExtensionsNotInProfiles m installed) <->
     extension ∈ installed /\ forall loc, ~ listedIn m (keyOf extension) loc) /\
  (uninstallExtensionsNotInProfiles m installed = [] <->
   forall extension, extension ∈ installed -> exists loc, listedIn m (keyOf extension) loc).
Proof.
  intros Hwf. unfold uninstallExtensionsNotInProfiles.
  split.
  - intros x. rewrite elem_of_markAsUninstalled. by apply elem_of_not_tracked.
  - split.
    + intros Hnone x Hx.
      pose proof (Map_has_listedIn m (keyOf x) Hwf) as Hhas.
      destruct (Map_has m (keyOf x)) eqn:Hk; [by apply Hhas|].
      exfalso.
      assert (x ∈ List.filter (fun x => negb (Map_has m (keyOf x))) installed) as Hf
        by (apply elem_of_filter_bool; by rewrite Hk).
      destruct (List.filter _ installed); [by apply elem_of_nil in Hf|done].
    + intros Hall.
      pose proof (fun x => elem_of_not_tracked m installed x Hwf) as Hmem.
      destruct (List.filter (fun x => negb (Map_has m (keyOf x))) installed)
        as [|x rest]; [done|].
      exfalso. destruct (proj1 (Hmem x) ltac:(left)) as [Hin Hno].
      destruct (Hall x Hin) as [loc Hl]. by apply (Hno loc).
Qed.

(** X27: [removeExtensionsFromProfile]: afterwards the removed profile lists
    nothing, every other listing is as before, and the installed
    extensions marked as uninstalled are exactly those that only the
    removed profile listed, or none did. *)
Theorem removeExtensionsFromProfile_spec (m : ExtensionsMap) (removedProfile : URI)
    (installed : list IExtension) :
  wellFormed m ->
  (forall key loc,
     listedIn (removeExtensionsFromProfile m removedProfile installed).1 key loc <->
     listedIn m key loc /\
     getComparisonKey loc <> getComparisonKey removedProfile) /\
  (forall extension,
     extension ∈ concat (removeExtensionsFromProfile m removedProfile installed).2 <->
     extension ∈ installed /\
     forall loc, listedIn m (keyOf extension) loc ->
                 getComparisonKey loc = getComparisonKey removedProfile).
Proof.
  intros Hwf. unfold removeExtensionsFromProfile. simpl.
  set (m' := fold_left (fun m key => removeExtensionWithKey m key removedProfile)
                       (Map_keys m) m).
  assert (Hlist : forall key loc,
            listedIn m' key loc <->
            listedIn m key loc /\ getComparisonKey loc <> getComparisonKey removedProfile).
  { intros key loc. unfold m'.
    rewrite (listedIn_fold_remove (fun key : string => key)), map_id.
    split; [|tauto]. intros [Hl Hn]. split; [done|]. intros Hc. apply Hn. split; [|done].
    destruct Hl as (profiles & Hget & _).
    destruct (decide (key ∈ Map_keys m)) as [|Hnot]; [done|].
    apply Map_get_None_keys in Hnot. congruence. }
  split; [done|].
  assert (Hwf' : wellFormed m')
    by (by apply (wellFormed_fold_remove (fun key : string => key))).
  intros x. unfold uninstallExtensionsNotInProfiles.
  rewrite elem_of_markAsUninstalled, (elem_of_not_tracked m' installed x Hwf').
  split; intros [Hin Hno]; (split; [done|]).
  - intros loc Hl.
    destruct (decide (getComparisonKey loc = getComparisonKey removedProfile)); [done|].
    exfalso. apply (Hno loc). by apply Hlist.
  - intros loc [Hl Hn]%Hlist. by apply Hn, Hno.
Qed.

Lemma profileChange_listing m loc scanned key loc' :
  wellFormed m ->
  listedIn (onDidExtensionsProfileChange m loc scanned).1 key loc' <->
  (getComparisonKey loc' = getComparisonKey loc /\
   (key ∈ map keyOf scanned \/ (listedIn m key loc /\ fromKey key = None))) \/
  (getComparisonKey loc' <> getComparisonKey loc /\ listedIn m key loc').
Proof.
  intros Hwf.
  rewrite (proj1 (onDidExtensionsProfileChange_run m loc scanned)).
  rewrite listedIn_fold_remove, listedIn_fold_add.
  assert (Hnew : key ∈ map keyOf (newlyListed (cachedKeys m loc) scanned) <->
                 key ∈ map keyOf scanned /\ ~ listedIn m key loc).
  { rewrite !list_elem_of_fmap. setoid_rewrite elem_of_newlyListed.
    setoid_rewrite (elem_of_cachedKeys m loc _ Hwf). split.
    - intros (x & -> & Hx & Hn). split; [by exists x|done].
    - intros [(x & -> & Hx) Hn]. by exists x. }
  assert (Hold : key ∈ map (fun kx : string * IExtension => kx.1)
                     (noLongerListed (map keyOf scanned) (cachedKeys m loc)) <->
                 listedIn m key loc /\ (key ∉ map keyOf scanned) /\ is_Some (fromKey key)).
  { rewrite list_elem_of_fmap. split.
    - intros ([k x] & -> & (Hc & Hn & Hf)%elem_of_noLongerListed). simpl.
      split_and!; [by apply (elem_of_cachedKeys m loc k Hwf)|done|by exists x].
    - intros (Hl & Hn & [x Hf]). exists (key, x). split; [done|].
      apply elem_of_noLongerListed. split_and!; [|done|done].
      by apply (elem_of_cachedKeys m loc key Hwf). }
  rewrite Hnew, Hold.
  assert (HC : listedIn m key loc \/ ~ listedIn m key loc).
  { destruct (decide (key ∈ cachedKeys m loc)) as [Hk|Hk];
      rewrite (elem_of_cachedKeys m loc key Hwf) in Hk; tauto. }
  destruct (decide (getComparisonKey loc' = getComparisonKey loc)) as [Hc|Hc];
    [|tauto].
  rewrite (listedIn_same_key m key loc loc' Hc).
  destruct (decide (key ∈ map keyOf scanned)) as [Hs|Hs];
    destruct (fromKey key) as [x|] eqn:Hf.
  - assert (is_Some (Some x)) by eauto. assert (Some x <> None) by done. tauto.
  - assert (~ is_Some (@None IExtension)) by (by intros [? ?]). tauto.
  - assert (is_Some (Some x)) by eauto. assert (Some x <> None) by done. tauto.
  - assert (~ is_Some (@None IExtension)) by (by intros [? ?]).
    assert (@None IExtension = None) by done. tauto.
Qed.

Lemma list_empty_iff {A} (l : list A) : l = [] <-> forall x, x ∉ l.
Proof.
  split; [intros -> x; apply not_elem_of_nil|].
  destruct l as [|a l]; [done|]. intros Hno. destruct (Hno a). left.
Qed.

Lemma profileChange_nothing m loc scanned :
  wellFormed m ->
  (forall x, x ∈ scanned -> listedIn m (keyOf x) loc) ->
  (forall key, listedIn m key loc -> key ∈ map keyOf scanned \/ fromKey key = None) ->
  onDidExtensionsProfileChange m loc scanned = (m, None).
Proof.
  intros Hwf Hscanned Hlisted.
  assert (Hadded : newlyListed (cachedKeys m loc) scanned = []).
  { apply list_empty_iff. intros x [Hx Hn]%elem_of_newlyListed.
    apply Hn, (elem_of_cachedKeys m loc _ Hwf). by apply Hscanned. }
  assert (Hremoved : noLongerListed (map keyOf scanned) (cachedKeys m loc) = []).
  { apply list_empty_iff. intros [k x] (Hc & Hn & Hf)%elem_of_noLongerListed.
    apply (elem_of_cachedKeys m loc _ Hwf) in Hc.
    destruct (Hlisted k Hc); [done|congruence]. }
  destruct (onDidExtensionsProfileChange_run m loc scanned) as [Hmap Hfired].
  rewrite Hadded, Hremoved in Hmap, Hfired. simpl in Hmap.
  destruct (onDidExtensionsProfileChange m loc scanned) as [m' [fired|]];
    simpl in *; [|by subst].
  by destruct Hfired as [[?|?] _].
Qed.

(** X28: [onDidExtensionsProfileChange] brings the listings of one profile in
    line with the scan of its extensions file: afterwards the profile
    lists every scanned key, and of the keys it listed before only those
    still scanned and those [fromKey] cannot read back (which are never
    removed); the listings of the other profiles are as before. *)
Theorem onDidExtensionsProfileChange_listing (m : ExtensionsMap) (loc : URI)
    (scanned : list IExtension) (key : string) (loc' : URI) :
  wellFormed m ->
  listedIn (onDidExtensionsProfileChange m loc scanned).1 key loc' <->
  (getComparisonKey loc' = getComparisonKey loc /\
   (key ∈ map keyOf scanned \/ (listedIn m key loc /\ fromKey key = None))) \/
  (getComparisonKey loc' <> getComparisonKey loc /\ listedIn m key loc').
Proof. apply profileChange_listing. Qed.

(** X29: the event of [onDidExtensionsProfileChange]: none is fired exactly
    when the scan brings nothing new and drops nothing readable, and then
    the map is untouched; a fired event names, as added, the scanned
    extensions the profile did not list and, as removed, the readable keys
    it listed that are no longer scanned. *)
Theorem onDidExtensionsProfileChange_event (m : ExtensionsMap) (loc : URI)
    (scanned : list IExtension) :
  wellFormed m ->
  match (onDidExtensionsProfileChange m loc scanned).2 with
  | None =>
      (onDidExtensionsProfileChange m loc scanned).1 = m /\
      (forall x, x ∈ scanned -> listedIn m (keyOf x) loc) /\
      (forall key, listedIn m key loc -> key ∈ map keyOf scanned \/ fromKey key = None)
  | Some fired =>
      (changedOf (added fired) <> [] \/ changedOf (removed fired) <> []) /\
      (forall id, id ∈ changedOf (added fired) <->
         exists x, x ∈ scanned /\ identifier x = id /\ ~ listedIn m (keyOf x) loc) /\
      (forall id, id ∈ changedOf (removed fired) <->
         exists key x, listedIn m key loc /\ (key ∉ map keyOf scanned) /\
                       fromKey key = Some x /\ identifier x = id)
  end.
Proof.
  intros Hwf.
  destruct (onDidExtensionsProfileChange_run m loc scanned) as [Hmap Hfired].
  destruct (onDidExtensionsProfileChange m loc scanned) as [m' [fired|]]; simpl in *.
  - destruct Hfired as (Hsome & -> & -> & _). split_and!.
    + destruct Hsome as [Hn|Hn]; [left|right]; intros Hnil%fmap_nil_inv; done.
    + intros id. rewrite list_elem_of_fmap. setoid_rewrite elem_of_newlyListed.
      setoid_rewrite (elem_of_cachedKeys m loc _ Hwf). split.
      * intros (x & -> & Hx & Hn). by exists x.
      * intros (x & Hx & <- & Hn). by exists x.
    + intros id. rewrite list_elem_of_fmap. split.
      * intros ([k x] & -> & (Hc & Hn & Hf)%elem_of_noLongerListed).
        exists k, x. split_and!; try done. by apply (elem_of_cachedKeys m loc k Hwf).
      * intros (k & x & Hl & Hn & Hf & <-). exists (k, x). split; [done|].
        apply elem_of_noLongerListed. split_and!; try done.
        by apply (elem_of_cachedKeys m loc k Hwf).
  - destruct Hfired as [Hadded Hremoved]. rewrite Hadded, Hremoved in Hmap.
    split_and!; [done| |].
    + intros x Hx. apply (elem_of_cachedKeys m loc _ Hwf).
      destruct (decide (keyOf x ∈ cachedKeys m loc)) as [|Hn]; [done|].
      exfalso. apply (proj1 (list_empty_iff _) Hadded x).
      by apply elem_of_newlyListed.
    + intros key Hl. destruct (decide (key ∈ map keyOf scanned)) as [|Hn]; [by left|].
      right. destruct (fromKey key) as [x|] eqn:Hf; [|done].
      exfalso. apply (proj1 (list_empty_iff _) Hremoved (key, x)).
      apply elem_of_noLongerListed. split_and!; try done.
      by apply (elem_of_cachedKeys m loc key Hwf).
Qed.

(** X30: handling the same scan a second time changes nothing and fires
    nothing. *)
Theorem onDidExtensionsProfileChange_twice (m : ExtensionsMap) (loc : URI)
    (scanned : list IExtension) :
  wellFormed m ->
  onDidExtensionsProfileChange (onDidExtensionsProfileChange m loc scanned).1 loc scanned
  = ((onDidExtensionsProfileChange m loc scanned).1, None).
Proof.
  intros Hwf.
  assert (Hwf' : wellFormed (onDidExtensionsProfileChange m loc scanned).1).
  { rewrite (proj1 (onDidExtensionsProfileChange_run m loc scanned)).
    by apply wellFormed_fold_remove, wellFormed_fold_add. }
  apply profileChange_nothing; [done| |].
  - intros x Hx. apply profileChange_listing; [done|]. left. split; [done|].
    left. apply list_elem_of_fmap. by exists x.
  - intros key [[_ [?|[_ ?]]]|[? _]]%profileChange_listing; auto. done.
Qed.

End Facts.


(** ** The theorems on two profiles *)

Ltac listed := eexists; split; [vm_compute; reflexivity|vm_compute; eexists; reflexivity].
Ltac other_profile := vm_compute; discriminate.

Lemma two_profiles_wellFormed : wellFormed two_profiles.
Proof.
  unfold two_profiles, populateExtensionsFromProfile.
  repeat apply wellFormed_fold_add. split; [apply NoDup_nil_2|constructor].
Qed.

Lemma tracked_iff_listed_witness :
  Map_has (removeExtensionWithKey two_profiles (keyOf a1) work_profile) (keyOf a1) = true /\
  Map_has (removeExtensionWithKey two_profiles (keyOf b2) default_profile) (keyOf b2) = false.
Proof.
  destruct (tracked_iff_listed two_profiles (keyOf a1) work_profile two_profiles_wellFormed)
    as (_ & Hremove & _).
  split; [|by vm_compute].
  apply Hremove. exists default_profile. split; [listed|other_profile].
Defined.

Lemma remove_after_add_witness :
  removeExtensionWithKey (addExtensionWithKey two_profiles (keyOf c3) work_profile)
    (keyOf c3) work_profile = two_profiles.
Proof.
  apply (remove_after_add two_profiles (keyOf c3) work_profile two_profiles_wellFormed).
  intros (profiles & Hget & _). by vm_compute in Hget.
Defined.

Lemma handlers_keep_wellFormed_witness :
  wellFormed (onDidRemoveExtensions two_profiles (event [b2] default_profile None)).1 /\
  wellFormed (onDidExtensionsProfileChange two_profiles work_profile [c3]).1.
Proof.
  destruct (handlers_keep_wellFormed two_profiles (event [b2] default_profile None)
              work_profile [c3] [] two_profiles_wellFormed)
    as (_ & _ & _ & _ & Hremoved & Hchanged & _).
  by split.
Defined.

Lemma failed_add_is_taken_back_witness :
  listedIn
    (onDidAddExtensions
       (onAddExtensions two_profiles (event [c3] work_profile (Some (ServiceError "failed"))))
       (event [c3] work_profile (Some (ServiceError "failed"))))
    (keyOf a1) work_profile.
Proof.
  apply (failed_add_is_taken_back two_profiles
           (event [c3] work_profile (Some (ServiceError "failed")))
           (ServiceError "failed") (keyOf a1) work_profile).
  - reflexivity.
  - intros x ->%list_elem_of_singleton (profiles & Hget & _). by vm_compute in Hget.
  - listed.
Defined.

Lemma onDidRemoveExtensions_spec_witness :
  (onDidRemoveExtensions two_profiles (event [a1; b2] default_profile None)).2 = [[b2]] /\
  (b2 ∈ [a1; b2] /\
   forall loc, ~ listedIn (onRemoveExtensions two_profiles (event [a1; b2] default_profile None))
                          (keyOf b2) loc).
Proof.
  split; [by vm_compute|].
  destruct (onDidRemoveExtensions_spec two_profiles (event [a1; b2] default_profile None)
              two_profiles_wellFormed) as (_ & _ & Hmarked).
  apply Hmarked. apply list_elem_of_lookup_2 with (i := 0%nat). by vm_compute.
Defined.

Lemma uninstallExtensionsNotInProfiles_spec_witness :
  uninstallExtensionsNotInProfiles two_profiles [a1; c3] = [[c3]] /\
  (c3 ∈ [a1; c3] /\ forall loc, ~ listedIn two_profiles (keyOf c3) loc).
Proof.
  split; [by vm_compute|].
  destruct (uninstallExtensionsNotInProfiles_spec two_profiles [a1; c3]
              two_profiles_wellFormed) as [Hmarked _].
  apply Hmarked. apply list_elem_of_lookup_2 with (i := 0%nat). by vm_compute.
Defined.

Lemma removeExtensionsFromProfile_spec_witness :
  (removeExtensionsFromProfile two_profiles default_profile [a1; b2]).2 = [[b2]] /\
  listedIn (removeExtensionsFromProfile two_profiles default_profile [a1; b2]).1
           (keyOf a1) work_profile.
Proof.
  split; [by vm_compute|].
  destruct (removeExtensionsFromProfile_spec two_profiles default_profile [a1; b2]
              two_profiles_wellFormed) as [Hlisted _].
  apply Hlisted. split; [listed|other_profile].
Defined.

Lemma onDidExtensionsProfileChange_listing_witness :
  listedIn (onDidExtensionsProfileChange two_profiles work_profile [c3]).1
           (keyOf c3) work_profile /\
  ~ listedIn (onDidExtensionsProfileChange two_profiles work_profile [c3]).1
             (keyOf a1) work_profile.
Proof.
  split.
  - apply (onDidExtensionsProfileChange_listing two_profiles work_profile [c3]
             (keyOf c3) work_profile two_profiles_wellFormed).
    left. split; [done|]. left. left.
  - intros Hl.
    apply (onDidExtensionsProfileChange_listing two_profiles work_profile [c3]
             (keyOf a1) work_profile two_profiles_wellFormed) in Hl
      as [[_ [Hin|[_ Hfrom]]]|[Hne _]]; [|by vm_compute in Hfrom|done].
    apply list_elem_of_singleton in Hin. by vm_compute in Hin.
Defined.

Lemma onDidExtensionsProfileChange_event_witness :
  (onDidExtensionsProfileChange two_profiles work_profile [c3]).2
    = Some (mkDidChange (Some (mkProfileExtensions [identifier c3] work_profile))
                        (Some (mkProfileExtensions [identifier a1] work_profile))) /\
  (exists x, x ∈ [c3] /\ identifier x = identifier c3 /\
             ~ listedIn two_profiles (keyOf x) work_profile).
Proof.
  split; [by vm_compute|].
  pose proof (onDidExtensionsProfileChange_event two_profiles work_profile [c3]
                two_profiles_wellFormed) as Hev.
  assert (Hfired : (onDidExtensionsProfileChange two_profiles work_profile [c3]).2
                   = Some (mkDidChange (Some (mkProfileExtensions [identifier c3] work_profile))
                                       (Some (mkProfileExtensions [identifier a1] work_profile))))
    by (by vm_compute).
  rewrite Hfired in Hev. destruct Hev as (_ & Hadded & _).
  apply Hadded. left.
Defined.

Lemma onDidExtensionsProfileChange_twice_witness :
  onDidExtensionsProfileChange
    (onDidExtensionsProfileChange two_profiles work_profile [c3]).1 work_profile [c3]
  = ((onDidExtensionsProfileChange two_profiles work_profile [c3]).1, None).
Proof.
  exact (onDidExtensionsProfileChange_twice two_profiles work_profile [c3]
           two_profiles_wellFormed).
Defined.

End ExtensionsWatcherFacts.
